(** * claudeli: the session orchestration core of [spawnClaude.ts]

    A shallow embedding of [src/types.ts] and [src/spawnClaude.ts]:
    the tool classifier, the registry of pending permission requests with
    its timers, the registry of abort controllers, the message loop of
    [spawnClaude] and the headless collector. *)

From Stdlib Require Import ZArith Lia Bool.
From Stdlib Require Import Ascii String DecimalString.
From stdpp Require Import gmap strings list fin_maps.

Local Open Scope string_scope.
#[local] Set Warnings "-register-all".

(** ** JavaScript values *)

(** Data that crosses the orchestrator untouched (tool inputs, the bodies of
    content blocks) is kept as a JSON tree. *)
Inductive Json : Type :=
  | JNull
  | JBool (b : bool)
  | JNum (z : Z)
  | JStr (s : string)
  | JArr (items : list Json)
  | JObj (fields : list (string * Json)).

(** Truthiness of a [string | undefined]: [undefined] and [''] are falsy. *)
Definition truthy (o : option string) : bool :=
  match o with
  | Some s => negb (String.eqb s "")
  | None => false
  end.

(** [a || b] where [a : string | undefined] and [b : string]. *)
Definition or_else (a : option string) (b : string) : string :=
  match a with
  | Some s => if String.eqb s "" then b else s
  | None => b
  end.

(** [`${x}`] for [x : string | undefined]. *)
Definition template (o : option string) : string :=
  match o with
  | Some s => s
  | None => "undefined"
  end.

(** [Date.now().toString()]: the decimal rendering of a millisecond count. *)
Definition ms_toString (t : N) : string :=
  NilZero.string_of_uint (N.to_uint t).

(** [Array.prototype.includes] on an array of strings. *)
Fixpoint includes (xs : list string) (value : string) : bool :=
  match xs with
  | [] => false
  | x :: rest => String.eqb x value || includes rest value
  end.

(** ** [types.ts] *)

Module Types.

Inductive ToolType : Type :=
  | Read | Write | Edit | Bash | Grep | Glob | LS | MultiEdit
  | NotebookRead | NotebookEdit | WebFetch | TodoRead | TodoWrite
  | WebSearch | Task | MCPTool.

(** The string value of each member of the string enum. *)
Definition ToolType_value (t : ToolType) : string :=
  match t with
  | Read => "Read"
  | Write => "Write"
  | Edit => "Edit"
  | Bash => "Bash"
  | Grep => "Grep"
  | Glob => "Glob"
  | LS => "LS"
  | MultiEdit => "MultiEdit"
  | NotebookRead => "NotebookRead"
  | NotebookEdit => "NotebookEdit"
  | WebFetch => "WebFetch"
  | TodoRead => "TodoRead"
  | TodoWrite => "TodoWrite"
  | WebSearch => "WebSearch"
  | Task => "Task"
  | MCPTool => "MCPTool"
  end.

(** [Bash] is listed twice in the source array. *)
Definition ApprovableTools : list ToolType :=
  [Write; Edit; Bash; MultiEdit; Glob; WebSearch; WebFetch; Bash; MCPTool].

Definition isApprovableTool (value : string) : bool :=
  includes (map ToolType_value ApprovableTools) value.

Inductive ContentBlock : Type :=
  | TextBlock (text : string)
  | ToolUseBlock (id name : string) (input : Json)
  | ToolResultBlock (tool_use_id : string) (content : Json)
      (is_error : option bool).

(** The [type] discriminant of a content block. *)
Definition block_type (b : ContentBlock) : string :=
  match b with
  | TextBlock _ => "text"
  | ToolUseBlock _ _ _ => "tool_use"
  | ToolResultBlock _ _ _ => "tool_result"
  end.

End Types.

Import Types.

(** *** The wire vocabulary of [types.ts] *)

Inductive MessageType : Type :=
  | session_created | claude_response | claude_error | claude_complete
  | claude_output | claude_interactive_prompt | claude_status
  | session_aborted | cursor_system | cursor_user | cursor_tool_use
  | cursor_error | cursor_result | cursor_output | permission_request.

(** [message.content] of an engine turn: a string or an array of blocks. *)
Inductive Content : Type :=
  | ContentString (s : string)
  | ContentArray (blocks : list ContentBlock).

(** Truthiness of a content value: every array is truthy, also the empty
    one; a string is truthy unless it is empty. *)
Definition content_truthy (c : Content) : bool :=
  match c with
  | ContentString s => negb (String.eqb s "")
  | ContentArray _ => true
  end.

Module PermissionPayload.
Record t : Type := { toolName : string; input : Json; requestId : string }.
End PermissionPayload.

(** What [spawnClaude] puts in the [data] field: one of its two converted
    shapes, or the bare content of an assistant turn. *)
Inductive Data : Type :=
  | ConvertedAssistant (content : Content) (session_id : option string)
  | ConvertedToolResult (content : list ContentBlock)
  | BareContent (content : Content).

(** The [type] property of a converted message. *)
Definition converted_type (d : Data) : option string :=
  match d with
  | ConvertedAssistant _ _ => Some "assistant"
  | ConvertedToolResult _ => Some "tool_result"
  | BareContent _ => None
  end.

(** Truthiness of a [data] value: objects and arrays are truthy. *)
Definition data_truthy (d : Data) : bool :=
  match d with
  | ConvertedAssistant _ _ => true
  | ConvertedToolResult _ => true
  | BareContent c => content_truthy c
  end.

Module WebSocketMessage.
Record t : Type := {
  type : MessageType;
  sessionId : option string;
  data : option Data;
  permissionPayload : option PermissionPayload.t;
  error : option string;
  exitCode : option Z;
  isNewSession : option bool
}.
End WebSocketMessage.

Definition claudeChatType : string := "claude-chat".

(** The envelope [{ type: claudeChatType, content: message }]. *)
Module Envelope.
Record t : Type := { type : string; content : WebSocketMessage.t }.
End Envelope.

(** *** The engine's side (the SDK's types) *)

Inductive PermissionResult : Type :=
  | Allow (updatedInput : Json)
  | Deny (message : string).

(** A thrown value and its [message] property. *)
Module Error.
Record t : Type := { message : option string }.
End Error.

(** One event of the engine's stream. [message] is [None] when the event
    carries no [message] property. *)
Inductive SDKMessage : Type :=
  | SDKAssistantMessage (message : option Content) (session_id : option string)
  | SDKUserMessage (message : option Content) (session_id : option string)
  | SDKResultMessage (subtype : string) (session_id : option string)
  | SDKSystemMessage (subtype : string) (session_id : option string)
  | SDKOtherMessage (type : string).

(** How an awaited call ends. *)
Inductive Completion (A : Type) : Type :=
  | Returned (a : A)
  | Thrown (e : Error.t).
Arguments Returned {A} a.
Arguments Thrown {A} e.

(** ** [spawnClaude.ts] *)

(** The sink is the sequence of envelopes written so far. Serialisation to
    a JSON line and the three shapes of sink are left out: the collector
    below reads the same envelopes back. *)
Definition sendMessage (output : list Envelope.t) (message : WebSocketMessage.t)
  : list Envelope.t :=
  output ++ [ {| Envelope.type := claudeChatType; Envelope.content := message |} ].

(** The messages a sink has received, envelopes removed. *)
Definition received (output : list Envelope.t) : list WebSocketMessage.t :=
  map Envelope.content output.

(** *** JavaScript [Map] with string keys, in insertion order *)

Fixpoint Map_set {V : Type} (k : string) (v : V) (m : list (string * V))
  : list (string * V) :=
  match m with
  | [] => [(k, v)]
  | (k', v') :: rest =>
      if String.eqb k' k then (k, v) :: rest else (k', v') :: Map_set k v rest
  end.

Fixpoint Map_delete {V : Type} (k : string) (m : list (string * V))
  : list (string * V) :=
  match m with
  | [] => []
  | (k', v') :: rest =>
      if String.eqb k' k then Map_delete k rest else (k', v') :: Map_delete k rest
  end.

(** *** The registry of pending permission requests *)

(** A registry entry. [resolve] names the promise whose resolver the entry
    holds, [timeout] the timer returned by [setTimeout]. *)
Module Pending.
Record t : Type := {
  requestId : string;
  sessionId : string;
  resolve : nat;
  timeout : nat
}.
End Pending.

(** A timer armed by [setTimeout] in [canUseTool]. Its callback closes over
    the composite key and the resolver. *)
Module Timer.
Record t : Type := { id : nat; due : N; compositeKey : string; resolve : nat }.
End Timer.

(** The module-level map together with the part of the runtime it lives
    on: the armed timers, every call made to a promise resolver (oldest
    first), the next fresh handle and the timer clock in milliseconds. *)
Record Broker : Type := {
  pendingPermissionRequests : list (string * Pending.t);
  timers : list Timer.t;
  resolverCalls : list (nat * PermissionResult);
  nextHandle : nat;
  now : N
}.

Definition Broker_start (t0 : N) : Broker :=
  {| pendingPermissionRequests := []; timers := []; resolverCalls := [];
     nextHandle := 0; now := t0 |}.

(** A promise takes the value of the first call to its resolver; later
    calls are ignored by the runtime. *)
Fixpoint first_call (h : nat) (calls : list (nat * PermissionResult))
  : option PermissionResult :=
  match calls with
  | [] => None
  | (h', r) :: rest => if Nat.eqb h' h then Some r else first_call h rest
  end.

Definition promise_value (b : Broker) (h : nat) : option PermissionResult :=
  first_call h (resolverCalls b).

(** How often the resolver of promise [h] has been called. *)
Definition times_resolved (b : Broker) (h : nat) : nat :=
  length (filter (fun c => c.1 = h) (resolverCalls b)).

Definition call_resolver (h : nat) (r : PermissionResult) (b : Broker) : Broker :=
  {| pendingPermissionRequests := pendingPermissionRequests b;
     timers := timers b;
     resolverCalls := resolverCalls b ++ [(h, r)];
     nextHandle := nextHandle b;
     now := now b |}.

Definition clearTimeout (timer : nat) (b : Broker) : Broker :=
  {| pendingPermissionRequests := pendingPermissionRequests b;
     timers := filter (fun t => Timer.id t <> timer) (timers b);
     resolverCalls := resolverCalls b;
     nextHandle := nextHandle b;
     now := now b |}.

Definition pending_delete (key : string) (b : Broker) : Broker :=
  {| pendingPermissionRequests := Map_delete key (pendingPermissionRequests b);
     timers := timers b;
     resolverCalls := resolverCalls b;
     nextHandle := nextHandle b;
     now := now b |}.

(** The [for ... of] loop of [handlePermissionResponse]: the first entry, in
    insertion order, whose two fields match. *)
Fixpoint find_pending (sessionId requestId : string)
    (entries : list (string * Pending.t)) : option (string * Pending.t) :=
  match entries with
  | [] => None
  | (key, pending) :: rest =>
      if String.eqb (Pending.sessionId pending) sessionId
         && String.eqb (Pending.requestId pending) requestId
      then Some (key, pending)
      else find_pending sessionId requestId rest
  end.

Definition handlePermissionResponse (sessionId requestId : string)
    (response : PermissionResult) (b : Broker) : bool * Broker :=
  match find_pending sessionId requestId (pendingPermissionRequests b) with
  | Some (key, pending) =>
      (true,
       pending_delete key
         (call_resolver (Pending.resolve pending) response
            (clearTimeout (Pending.timeout pending) b)))
  | None => (false, b)
  end.

(** The delay given to [setTimeout], in milliseconds. *)
Definition permissionTimeoutMs : N := 100000.

Definition timedOut : PermissionResult := Deny "Permission request timed out".

(** The callback of the timer: delete the entry, then resolve with deny. *)
Definition timeout_callback (t : Timer.t) (b : Broker) : Broker :=
  call_resolver (Timer.resolve t) timedOut (pending_delete (Timer.compositeKey t) b).

(** The executor of [new Promise] in [canUseTool]: arm the timer, then
    register the entry. Returns the handle of the promise. *)
Definition register (compositeKey requestId sessionId : string) (b : Broker)
  : nat * Broker :=
  let h := nextHandle b in
  (h,
   {| pendingPermissionRequests :=
        Map_set compositeKey
          {| Pending.requestId := requestId; Pending.sessionId := sessionId;
             Pending.resolve := h; Pending.timeout := h |}
          (pendingPermissionRequests b);
      timers :=
        timers b ++
        [ {| Timer.id := h; Timer.due := (now b + permissionTimeoutMs)%N;
             Timer.compositeKey := compositeKey; Timer.resolve := h |} ];
      resolverCalls := resolverCalls b;
      nextHandle := S h;
      now := now b |}).

(** The timer clock advances by [dt] milliseconds; every timer that is due
    by then runs its callback, earliest armed first. *)
Definition elapse (dt : N) (b : Broker) : Broker :=
  let t := (now b + dt)%N in
  let fired := filter (fun x => (Timer.due x <= t)%N) (timers b) in
  fold_left (fun b' x => timeout_callback x b') fired
    {| pendingPermissionRequests := pendingPermissionRequests b;
       timers := filter (fun x => ~ (Timer.due x <= t)%N) (timers b);
       resolverCalls := resolverCalls b;
       nextHandle := nextHandle b;
       now := t |}.

(** The armed timer with a given handle. *)
Fixpoint find_timer (timer : nat) (ts : list Timer.t) : option Timer.t :=
  match ts with
  | [] => None
  | t :: rest => if Nat.eqb (Timer.id t) timer then Some t else find_timer timer rest
  end.

(** One armed timer goes off: it leaves the list of timers and its callback
    runs. *)
Definition fire (timer : nat) (b : Broker) : Broker :=
  match find_timer timer (timers b) with
  | Some t => timeout_callback t (clearTimeout timer b)
  | None => b
  end.

(** *** The registry of abort controllers *)

(** [activeClaudeControllers], and every [controller.abort()] made so far.
    A controller is named by a number. *)
Record Registry : Type := {
  activeClaudeControllers : gmap string nat;
  abortCalls : list nat
}.

Definition controllers_set (key : string) (controller : nat) (r : Registry)
  : Registry :=
  {| activeClaudeControllers := <[key := controller]> (activeClaudeControllers r);
     abortCalls := abortCalls r |}.

Definition controllers_delete (key : string) (r : Registry) : Registry :=
  {| activeClaudeControllers := delete key (activeClaudeControllers r);
     abortCalls := abortCalls r |}.

Definition abortClaudeSession (sessionId : string) (r : Registry)
  : bool * Registry :=
  match activeClaudeControllers r !! sessionId with
  | Some controller =>
      (true,
       {| activeClaudeControllers := delete sessionId (activeClaudeControllers r);
          abortCalls := abortCalls r ++ [controller] |})
  | None => (false, r)
  end.

(** *** One invocation of [spawnClaude] *)

(** The two mutable locals of [spawnClaude], the two module-level maps and
    the sink. *)
Record Invocation : Type := {
  capturedSessionId : option string;
  sessionCreatedSent : bool;
  registry : Registry;
  broker : Broker;
  output : list Envelope.t
}.

Definition with_captured (sid : option string) (st : Invocation) : Invocation :=
  {| capturedSessionId := sid; sessionCreatedSent := sessionCreatedSent st;
     registry := registry st; broker := broker st; output := output st |}.

Definition with_sessionCreatedSent (flag : bool) (st : Invocation) : Invocation :=
  {| capturedSessionId := capturedSessionId st; sessionCreatedSent := flag;
     registry := registry st; broker := broker st; output := output st |}.

Definition with_registry (r : Registry) (st : Invocation) : Invocation :=
  {| capturedSessionId := capturedSessionId st;
     sessionCreatedSent := sessionCreatedSent st;
     registry := r; broker := broker st; output := output st |}.

Definition with_broker (b : Broker) (st : Invocation) : Invocation :=
  {| capturedSessionId := capturedSessionId st;
     sessionCreatedSent := sessionCreatedSent st;
     registry := registry st; broker := b; output := output st |}.

Definition send (message : WebSocketMessage.t) (st : Invocation) : Invocation :=
  {| capturedSessionId := capturedSessionId st;
     sessionCreatedSent := sessionCreatedSent st;
     registry := registry st; broker := broker st;
     output := sendMessage (output st) message |}.

(** What the [async] callback [canUseTool] hands back: a promise that is
    already resolved, or one that stays pending under a handle. *)
Inductive ToolAnswer : Type :=
  | Resolved (result : PermissionResult)
  | Suspended (promise : nat).

Definition noSessionDenial : PermissionResult :=
  Deny "Cannot approve permission without a session ID".

(** The message [session-created] for a session. *)
Definition sessionCreated (sid : option string) : WebSocketMessage.t :=
  {| WebSocketMessage.type := session_created;
     WebSocketMessage.sessionId := sid;
     WebSocketMessage.data := None;
     WebSocketMessage.permissionPayload := None;
     WebSocketMessage.error := None;
     WebSocketMessage.exitCode := None;
     WebSocketMessage.isNewSession := None |}.

Section Invocation.

(** The constants of one invocation: the prompt, [options.resume], the
    key computed before the loop starts and the abort controller. *)
Variable command : string.
Variable resume : option string.
Variable processKey : string.
Variable controller : nat.

(** [uuid] is the value [uuidv4()] returns if it is called. *)
Definition canUseTool (uuid : string) (toolName : string) (input : Json)
    (st : Invocation) : ToolAnswer * Invocation :=
  if isApprovableTool toolName then
    if negb (truthy (capturedSessionId st)) then
      (Resolved noSessionDenial, st)
    else
      let requestId := uuid in
      let compositeKey := template resume ++ ":" ++ requestId in
      let payload :=
        {| PermissionPayload.toolName := toolName;
           PermissionPayload.input := input;
           PermissionPayload.requestId := requestId |} in
      let st1 :=
        send {| WebSocketMessage.type := permission_request;
                WebSocketMessage.sessionId := capturedSessionId st;
                WebSocketMessage.data := None;
                WebSocketMessage.permissionPayload := Some payload;
                WebSocketMessage.error := None;
                WebSocketMessage.exitCode := None;
                WebSocketMessage.isNewSession := None |} st in
      let '(promise, b) :=
        register compositeKey requestId (or_else (capturedSessionId st1) "")
          (broker st1) in
      (Suspended promise, with_broker b st1)
  else
    (Resolved (Allow input), st).

(** The conversion at the head of the loop body. Both arms of the test on
    the first block build the same object. *)
Definition convert (message : SDKMessage) : option Data :=
  match message with
  | SDKAssistantMessage (Some content) session_id =>
      Some (ConvertedAssistant content session_id)
  | SDKUserMessage (Some userContent) _ =>
      match userContent with
      | ContentArray (firstContent :: rest) =>
          if String.eqb (block_type firstContent) "tool_result"
          then Some (ConvertedToolResult (firstContent :: rest))
          else Some (ConvertedToolResult (firstContent :: rest))
      | _ => None
      end
  | _ => None
  end.

Definition response (d : Data) (st : Invocation) : WebSocketMessage.t :=
  {| WebSocketMessage.type := claude_response;
     WebSocketMessage.sessionId := capturedSessionId st;
     WebSocketMessage.data := Some d;
     WebSocketMessage.permissionPayload := None;
     WebSocketMessage.error := None;
     WebSocketMessage.exitCode := None;
     WebSocketMessage.isNewSession := None |}.

(** "Send the converted message if we have one". *)
Definition forward (message : SDKMessage) (st : Invocation) : Invocation :=
  match convert message with
  | Some convertedMessage =>
      let st1 := send (response convertedMessage st) st in
      match convertedMessage with
      | ConvertedAssistant content _ =>
          if content_truthy content
          then send (response (BareContent content) st1) st1
          else st1
      | _ => st1
      end
  | None => st
  end.

(** "Update controller key with new session ID". *)
Definition move_controller (st : Invocation) : Invocation :=
  match capturedSessionId st with
  | Some sid =>
      if negb (String.eqb processKey sid) && truthy (Some sid) then
        with_registry
          (controllers_set sid controller
             (controllers_delete processKey (registry st))) st
      else st
  | None => st
  end.

(** "Send session-created event", once per invocation. *)
Definition announce (st : Invocation) : Invocation :=
  if negb (sessionCreatedSent st) then
    send (sessionCreated (capturedSessionId st)) (with_sessionCreatedSent true st)
  else st.

(** "Handle session ID from system messages". *)
Definition handle_init (message : SDKMessage) (st : Invocation) : Invocation :=
  match message with
  | SDKSystemMessage subtype sdkSessionId =>
      if String.eqb subtype "init" then
        if truthy sdkSessionId
           && bool_decide (sdkSessionId <> capturedSessionId st) then
          announce (move_controller (with_captured sdkSessionId st))
        else if truthy sdkSessionId then with_captured sdkSessionId st
        else st
      else st
  | _ => st
  end.

(** [!capturedSessionId && !!command]. *)
Definition isNewSession_flag (st : Invocation) : bool :=
  negb (truthy (capturedSessionId st)) && negb (String.eqb command "").

Definition completion (code : Z) (st : Invocation) : WebSocketMessage.t :=
  {| WebSocketMessage.type := claude_complete;
     WebSocketMessage.sessionId := capturedSessionId st;
     WebSocketMessage.data := None;
     WebSocketMessage.permissionPayload := None;
     WebSocketMessage.error := None;
     WebSocketMessage.exitCode := Some code;
     WebSocketMessage.isNewSession := Some (isNewSession_flag st) |}.

(** "Handle result messages (completion)". *)
Definition handle_result (message : SDKMessage) (st : Invocation) : Invocation :=
  match message with
  | SDKResultMessage subtype _ =>
      let finalSessionId := or_else (capturedSessionId st) processKey in
      let st1 := with_registry (controllers_delete finalSessionId (registry st)) st in
      let exitCode := if String.eqb subtype "success" then 0%Z else 1%Z in
      send (completion exitCode st1) st1
  | _ => st
  end.

(** The body of the [for await] loop for one event. Releasing the prompt
    generator on a result event has no effect on the state kept here. *)
Definition on_message (message : SDKMessage) (st : Invocation) : Invocation :=
  handle_result message (handle_init message (forward message st)).

End Invocation.

(** What the engine does during one invocation, in order: it yields an
    event to the loop, or it calls [canUseTool]. *)
Inductive EngineStep : Type :=
  | Yield (message : SDKMessage)
  | AskPermission (uuid toolName : string) (input : Json).

(** The whole behaviour of the engine for one invocation: its steps, and
    the failure the stream ends with, if it does not end normally. *)
Module Engine.
Record t : Type := { steps : list EngineStep; failure : option Error.t }.
End Engine.

(** What the invocation reads from its surroundings. [loggerFailure] is the
    outcome of the two logger calls made before the [try] block (the logger
    module is not among the sources at hand): [None] when they return. The
    two readings of [Date.now()] are the one that makes the process key and
    the one taken in the [catch] block. *)
Module Env.
Record t : Type := {
  loggerFailure : option Error.t;
  dateNowAtStart : N;
  dateNowAtCatch : N;
  controller : nat
}.
End Env.

Definition engine_step (resume : option string) (processKey : string)
    (command : string) (controller : nat) (s : EngineStep) (st : Invocation)
  : Invocation :=
  match s with
  | Yield message => on_message command processKey controller message st
  | AskPermission uuid toolName input => (canUseTool resume uuid toolName input st).2
  end.

Definition processKey_of (resume : option string) (env : Env.t) : string :=
  or_else resume (ms_toString (Env.dateNowAtStart env)).

(** The state in which the loop starts: the controller is registered under
    the process key. *)
Definition loop_start (resume : option string) (env : Env.t) (r : Registry)
    (b : Broker) (output : list Envelope.t) : Invocation :=
  {| capturedSessionId := resume; sessionCreatedSent := false;
     registry := controllers_set (processKey_of resume env) (Env.controller env) r;
     broker := b; output := output |}.

Definition run_loop (command : string) (resume : option string) (env : Env.t)
    (steps : list EngineStep) (st : Invocation) : Invocation :=
  fold_left
    (fun st' s =>
       engine_step resume (processKey_of resume env) command (Env.controller env) s st')
    steps st.

(** The [catch] block. *)
Definition on_failure (command : string) (env : Env.t) (error : Error.t)
    (st : Invocation) : Invocation :=
  let finalSessionId :=
    or_else (capturedSessionId st) (ms_toString (Env.dateNowAtCatch env)) in
  let st1 := with_registry (controllers_delete finalSessionId (registry st)) st in
  let st2 :=
    send {| WebSocketMessage.type := claude_error;
            WebSocketMessage.sessionId := capturedSessionId st1;
            WebSocketMessage.data := None;
            WebSocketMessage.permissionPayload := None;
            WebSocketMessage.error :=
              Some (or_else (Error.message error) "Unknown error occurred");
            WebSocketMessage.exitCode := None;
            WebSocketMessage.isNewSession := None |} st1 in
  send (completion command 1 st2) st2.

Definition spawnClaude (command : string) (resume : option string)
    (env : Env.t) (engine : Engine.t) (r : Registry) (b : Broker)
    (output : list Envelope.t) : Completion (option string) * Invocation :=
  match Env.loggerFailure env with
  | Some e =>
      (Thrown e,
       {| capturedSessionId := resume; sessionCreatedSent := false;
          registry := r; broker := b; output := output |})
  | None =>
      let st := run_loop command resume env (Engine.steps engine)
                  (loop_start resume env r b output) in
      match Engine.failure engine with
      | None => (Returned (capturedSessionId st), st)
      | Some error => (Thrown error, on_failure command env error st)
      end
  end.

(** *** The headless collector *)

Module HeadlessMessage.
Record t : Type := { type : string; content : Data }.
End HeadlessMessage.

Module HeadlessResult.
Record t : Type := {
  sessionId : string;
  messages : list HeadlessMessage.t;
  exitCode : Z
}.
End HeadlessResult.

(** The three locals the collecting stream writes to. *)
Module Collector.
Record t : Type := {
  messages : list HeadlessMessage.t;
  finalSessionId : option string;
  finalExitCode : Z
}.
End Collector.

Definition Collector_start : Collector.t :=
  {| Collector.messages := []; Collector.finalSessionId := None;
     Collector.finalExitCode := 0 |}.

#[global] Instance MessageType_eq_dec : EqDecision MessageType.
Proof. solve_decision. Defined.

(** [msg.exitCode || 0]. *)
Definition exitCode_or_zero (code : option Z) : Z :=
  match code with
  | Some z => z
  | None => 0
  end.

(** "Capture session ID from session-created messages". *)
Definition note_session (msg : WebSocketMessage.t) (c : Collector.t) : Collector.t :=
  if bool_decide (WebSocketMessage.type msg = session_created)
     && truthy (WebSocketMessage.sessionId msg)
  then {| Collector.messages := Collector.messages c;
          Collector.finalSessionId := WebSocketMessage.sessionId msg;
          Collector.finalExitCode := Collector.finalExitCode c |}
  else c.

(** "Capture exit code from completion messages". *)
Definition note_completion (msg : WebSocketMessage.t) (c : Collector.t) : Collector.t :=
  if bool_decide (WebSocketMessage.type msg = claude_complete) then
    {| Collector.messages := Collector.messages c;
       Collector.finalSessionId :=
         if truthy (WebSocketMessage.sessionId msg)
         then WebSocketMessage.sessionId msg
         else Collector.finalSessionId c;
       Collector.finalExitCode := exitCode_or_zero (WebSocketMessage.exitCode msg) |}
  else c.

(** "Collect claude-response messages". *)
Definition note_response (msg : WebSocketMessage.t) (c : Collector.t) : Collector.t :=
  match WebSocketMessage.data msg with
  | Some d =>
      if bool_decide (WebSocketMessage.type msg = claude_response) && data_truthy d
      then {| Collector.messages :=
                Collector.messages c ++
                [ {| HeadlessMessage.type := "claude-response";
                     HeadlessMessage.content := d |} ];
              Collector.finalSessionId := Collector.finalSessionId c;
              Collector.finalExitCode := Collector.finalExitCode c |}
      else c
  | None => c
  end.

(** The [write] of the collecting stream for one line. Every write is handled
    before [sendMessage] returns, since the stream's callback is called at
    once. *)
Definition collector_write (payload : Envelope.t) (c : Collector.t) : Collector.t :=
  let msg := Envelope.content payload in
  note_response msg (note_completion msg (note_session msg c)).

Definition collect (output : list Envelope.t) : Collector.t :=
  fold_left (fun c payload => collector_write payload c) output Collector_start.

(** The headless options spread the caller's options, [resume] included, and
    force the permission mode, which only the engine reads. *)
Definition spawnClaudeHeadless (command : string) (resume : option string)
    (env : Env.t) (engine : Engine.t) (r : Registry) (b : Broker)
  : Completion HeadlessResult.t * Invocation :=
  let '(outcome, st) := spawnClaude command resume env engine r b [] in
  let c := collect (output st) in
  match outcome with
  | Returned sessionId =>
      let finalSessionId :=
        if negb (truthy (Collector.finalSessionId c)) && truthy sessionId
        then sessionId else Collector.finalSessionId c in
      (Returned
         {| HeadlessResult.sessionId := or_else finalSessionId "";
            HeadlessResult.messages := Collector.messages c;
            HeadlessResult.exitCode := Collector.finalExitCode c |}, st)
  | Thrown _ =>
      (Returned
         {| HeadlessResult.sessionId := or_else (Collector.finalSessionId c) "";
            HeadlessResult.messages := Collector.messages c;
            HeadlessResult.exitCode :=
              if Z.eqb (Collector.finalExitCode c) 0 then 1%Z
              else Collector.finalExitCode c |}, st)
  end.

(** *** Histories of the permission registry *)

(** [uuidv4()] returns the canonical text of a version 4 UUID. *)
Definition is_hex (c : ascii) : bool :=
  let n := Ascii.nat_of_ascii c in
  (Nat.leb 48 n && Nat.leb n 57) || (Nat.leb 97 n && Nat.leb n 102).

Fixpoint matches_pattern (pattern s : string) : bool :=
  match pattern, s with
  | EmptyString, EmptyString => true
  | String p pattern', String c s' =>
      (if Ascii.eqb p "x" then is_hex c
       else if Ascii.eqb p "y" then
         Ascii.eqb c "8" || Ascii.eqb c "9" || Ascii.eqb c "a" || Ascii.eqb c "b"
       else Ascii.eqb c p)
      && matches_pattern pattern' s'
  | _, _ => false
  end.

Definition is_uuid (s : string) : bool :=
  matches_pattern "xxxxxxxx-xxxx-4xxx-yxxx-xxxxxxxxxxxx" s.

(** What can happen to the registry: a tool call of some invocation (with
    that invocation's [resume] and current session identifier), a response
    from outside, time passing with every due timer running at once, or the
    callback of one armed timer running on its own. A real scheduler runs a
    callback no earlier than its due time and possibly later, after other
    events; every order of events it can produce is among the histories made
    of these operations. *)
Inductive BrokerOp : Type :=
  | ToolCall (resume capturedSessionId : option string) (uuid toolName : string)
      (input : Json)
  | Response (sessionId requestId : string) (response : PermissionResult)
  | Elapse (dt : N)
  | Fire (timer : nat).

(** The state of an invocation as far as [canUseTool] reads it. *)
Definition invocation_at (capturedSessionId : option string) (b : Broker)
  : Invocation :=
  {| capturedSessionId := capturedSessionId; sessionCreatedSent := false;
     registry := {| activeClaudeControllers := ∅; abortCalls := [] |};
     broker := b; output := [] |}.

Definition exec (op : BrokerOp) (b : Broker) : Broker :=
  match op with
  | ToolCall resume captured uuid toolName input =>
      broker (canUseTool resume uuid toolName input (invocation_at captured b)).2
  | Response sessionId requestId response =>
      (handlePermissionResponse sessionId requestId response b).2
  | Elapse dt => elapse dt b
  | Fire timer => fire timer b
  end.

Definition run (ops : list BrokerOp) (b : Broker) : Broker :=
  fold_left (fun b' op => exec op b') ops b.

(** Every identifier drawn in a history is a UUID that was not drawn before. *)
Fixpoint fresh_uuids (issued : list string) (ops : list BrokerOp) : bool :=
  match ops with
  | [] => true
  | ToolCall _ _ uuid _ _ :: rest =>
      is_uuid uuid && negb (includes issued uuid) && fresh_uuids (uuid :: issued) rest
  | _ :: rest => fresh_uuids issued rest
  end.

(** No response in the history addresses the given pair. *)
Fixpoint unanswered (sessionId requestId : string) (ops : list BrokerOp) : bool :=
  match ops with
  | [] => true
  | Response sid rid _ :: rest =>
      negb (String.eqb sid sessionId && String.eqb rid requestId)
      && unanswered sessionId requestId rest
  | _ :: rest => unanswered sessionId requestId rest
  end.

(** *** Reading a sink *)

(** How many messages of one type a list of messages holds. *)
Definition count_type (ty : MessageType) (msgs : list WebSocketMessage.t) : nat :=
  length (filter (fun m => WebSocketMessage.type m = ty) msgs).

(** The registry with no controller in it. *)
Definition no_controllers : Registry :=
  {| activeClaudeControllers := ∅; abortCalls := [] |}.

(** The number of [session-created] messages an invocation has sent. *)
Definition created (st : Invocation) : nat :=
  count_type session_created (received (output st)).

(** The flag [sessionCreatedSent] counts the [session-created] messages. *)
Definition created_inv (st : Invocation) : Prop :=
  created st = if sessionCreatedSent st then 1 else 0.

(** The data of the [claude-response] messages of a sink, in order. *)
Definition response_payloads (msgs : list WebSocketMessage.t) : list Data :=
  omap (fun m =>
          if bool_decide (WebSocketMessage.type m = claude_response)
          then WebSocketMessage.data m else None) msgs.

(** The exit code of the last [claude-complete] message of a sink. *)
Definition observed_exit_code (msgs : list WebSocketMessage.t) : option Z :=
  fold_left
    (fun seen m =>
       if bool_decide (WebSocketMessage.type m = claude_complete)
       then Some (exitCode_or_zero (WebSocketMessage.exitCode m)) else seen)
    msgs None.

(** An element of [HeadlessResult.messages]. *)
Definition collected (d : Data) : HeadlessMessage.t :=
  {| HeadlessMessage.type := "claude-response"; HeadlessMessage.content := d |}.

(** Every [claude-response] of the sink carries truthy data. *)
Definition responses_truthy (out : list Envelope.t) : Prop :=
  Forall (fun m => WebSocketMessage.type m = claude_response ->
                   exists d, WebSocketMessage.data m = Some d /\ data_truthy d = true)
    (received out).

(** *** Notions used to state the invariants of the registry *)

(** Deleting several keys, one after the other. *)
Definition delete_keys (keys : list string) (m : list (string * Pending.t))
  : list (string * Pending.t) :=
  fold_left (fun m' k => Map_delete k m') keys m.

(** The state after the requests of some armed timers have been settled, each
    with its decision, when the clock reads [t']: the entries are deleted, the
    timers are gone, the resolvers have been called. Both a response that
    finds its entry and the passing of time lead to a state of this form. *)
Definition settle (fired : list (Timer.t * PermissionResult)) (t' : N)
    (b : Broker) : Broker :=
  {| pendingPermissionRequests :=
       delete_keys ((fun x => Timer.compositeKey x.1) <$> fired)
         (pendingPermissionRequests b);
     timers :=
       filter (fun t => Timer.id t ∉ ((fun x => Timer.id x.1) <$> fired)) (timers b);
     resolverCalls :=
       resolverCalls b ++ ((fun x => (Timer.resolve x.1, x.2)) <$> fired);
     nextHandle := nextHandle b;
     now := t' |}.

(** The invariant of the registry. [issued] lists the identifiers drawn so
    far. Keys and request identifiers are unique; every entry was made from
    an issued UUID, and its timer is armed; every armed timer belongs to an
    entry and is not yet due; no resolver was called twice, and none of a
    request that is still pending. *)
Record broker_inv (issued : list string) (b : Broker) : Prop := {
  inv_keys : NoDup (fst <$> pendingPermissionRequests b);
  inv_requests :
    NoDup ((fun kp => Pending.requestId kp.2) <$> pendingPermissionRequests b);
  inv_entry :
    forall k p, (k, p) ∈ pendingPermissionRequests b ->
      (exists r, k = r ++ ":" ++ Pending.requestId p)
      /\ is_uuid (Pending.requestId p) = true
      /\ Pending.requestId p ∈ issued
      /\ Pending.timeout p = Pending.resolve p
      /\ exists t, t ∈ timers b /\ Timer.id t = Pending.resolve p
                   /\ Timer.compositeKey t = k;
  inv_timer :
    forall t, t ∈ timers b ->
      Timer.resolve t = Timer.id t
      /\ Timer.id t < nextHandle b
      /\ (now b < Timer.due t)%N
      /\ exists p, (Timer.compositeKey t, p) ∈ pendingPermissionRequests b
                   /\ Pending.resolve p = Timer.id t;
  inv_timer_ids : NoDup (Timer.id <$> timers b);
  inv_calls : NoDup (fst <$> resolverCalls b);
  inv_called :
    forall h, h ∈ (fst <$> resolverCalls b) ->
      h < nextHandle b /\ forall t, t ∈ timers b -> Timer.id t <> h
}.

(** The identifiers a history draws, latest first, after those in [issued]. *)
Fixpoint issue (issued : list string) (ops : list BrokerOp) : list string :=
  match ops with
  | [] => issued
  | ToolCall _ _ uuid _ _ :: rest => issue (uuid :: issued) rest
  | _ :: rest => issue issued rest
  end.

(** The two conditions a registered request can be in. It is waiting: its
    resolver was never called, its entry is in the map and its timer is
    armed for the given time. Or it is settled: its resolver was called
    exactly once, its entry is gone, and a response for it finds nothing. *)
Definition awaiting (sid rid : string) (h : nat) (due : N) (b : Broker) : Prop :=
  times_resolved b h = 0
  /\ promise_value b h = None
  /\ (exists key p,
        find_pending sid rid (pendingPermissionRequests b) = Some (key, p)
        /\ Pending.resolve p = h)
  /\ exists t, t ∈ timers b /\ Timer.id t = h /\ Timer.due t = due.

Definition settled_once (sid rid : string) (h : nat) (b : Broker) : Prop :=
  times_resolved b h = 1
  /\ (exists d, promise_value b h = Some d)
  /\ find_pending sid rid (pendingPermissionRequests b) = None
  /\ forall response, handlePermissionResponse sid rid response b = (false, b).

(** *** Reading an engine's steps *)

(** The session identifier an init event reports, when it is not empty. *)
Definition reported_id (s : EngineStep) : option string :=
  match s with
  | Yield (SDKSystemMessage subtype (Some sid)) =>
      if String.eqb subtype "init" && negb (String.eqb sid "") then Some sid else None
  | _ => None
  end.

Definition reported_ids (steps : list EngineStep) : list string :=
  omap reported_id steps.

(** The subtype of a result event. *)
Definition result_subtype (s : EngineStep) : option string :=
  match s with
  | Yield (SDKResultMessage subtype _) => Some subtype
  | _ => None
  end.

Definition results (steps : list EngineStep) : list string :=
  omap result_subtype steps.

Definition exit_code_of (subtype : string) : Z :=
  if String.eqb subtype "success" then 0%Z else 1%Z.

(** The data an event is turned into, read off the shape of the event: an
    assistant turn gives its converted form and, when its content is truthy,
    the bare content; a user turn with a non-empty array gives a tool result;
    nothing else gives anything. *)
Definition payloads_of (s : EngineStep) : list Data :=
  match s with
  | Yield (SDKAssistantMessage (Some content) session_id) =>
      ConvertedAssistant content session_id
      :: (if content_truthy content then [BareContent content] else [])
  | Yield (SDKUserMessage (Some (ContentArray (first :: rest))) _) =>
      [ConvertedToolResult (first :: rest)]
  | _ => []
  end.

(** The messages that are neither responses nor completions nor errors. *)
Definition is_notice (m : WebSocketMessage.t) : Prop :=
  WebSocketMessage.type m = session_created
  \/ WebSocketMessage.type m = permission_request.

(** *** Sample surroundings, used where a statement is tried on an input *)

Definition sample_env : Env.t :=
  {| Env.loggerFailure := None; Env.dateNowAtStart := 1700000000000;
     Env.dateNowAtCatch := 1700000000250; Env.controller := 7 |}.

Definition sample_steps : list EngineStep :=
  [ Yield (SDKSystemMessage "init" (Some "s1"));
    Yield (SDKAssistantMessage (Some (ContentArray [TextBlock "hi"])) (Some "s1"));
    AskPermission "123e4567-e89b-42d3-a456-426614174000" "Bash" JNull;
    Yield (SDKUserMessage
             (Some (ContentArray [ToolResultBlock "t1" (JStr "ok") None])) (Some "s1"));
    Yield (SDKResultMessage "error_max_turns" (Some "s1")) ].

Definition sample_error : Error.t := {| Error.message := Some "boom" |}.

(** The messages that carry a session identifier to the collector carry one
    only when the invocation knows one. *)
Definition sessions_known (st : Invocation) : Prop :=
  forall n, n ∈ received (output st) ->
    WebSocketMessage.type n = session_created
    \/ WebSocketMessage.type n = claude_complete ->
    truthy (WebSocketMessage.sessionId n) = true ->
    truthy (capturedSessionId st) = true.

(** No operation of the history runs the callback of the given timer on its
    own, that is, outside of the passing of time. *)
Fixpoint timer_kept (timer : nat) (ops : list BrokerOp) : bool :=
  match ops with
  | [] => true
  | Fire t :: rest => negb (Nat.eqb t timer) && timer_kept timer rest
  | _ :: rest => timer_kept timer rest
  end.

(** *** Lines on the wire *)

(** The line feed. *)
Definition line_feed : ascii := Ascii.ascii_of_nat 10.

Definition LF : string := String line_feed EmptyString.

(** [split('\n')]: the pieces between line feeds; a text without line feed
    is its only piece, and a text that ends in a line feed has an empty last
    piece. Texts are strings of bytes; the line feed is one byte in UTF-8
    and part of no other character, so splitting commutes with decoding. *)
Fixpoint split_lines (s : string) : list string :=
  match s with
  | EmptyString => [EmptyString]
  | String c rest =>
      if Ascii.eqb c line_feed then EmptyString :: split_lines rest
      else match split_lines rest with
           | piece :: pieces => String c piece :: pieces
           | [] => [String c EmptyString]
           end
  end.

(** A text holds no line feed. *)
Fixpoint no_line_feed (s : string) : bool :=
  match s with
  | EmptyString => true
  | String c rest => negb (Ascii.eqb c line_feed) && no_line_feed rest
  end.

(** Several lines, each followed by a line feed. *)
Definition unlines (ls : list string) : string :=
  fold_right (fun l text => l ++ LF ++ text) EmptyString ls.

(** The three shapes of sink [sendMessage] tells apart. *)
Inductive Sink : Type := WebSocketSink | DuplexSink | WritableSink.

(** What [sendMessage] hands to [send] or [write]: the text alone for a
    WebSocket, the text and a line feed for a stream. *)
Definition frame (sink : Sink) (jsonString : string) : string :=
  match sink with
  | WebSocketSink => jsonString
  | DuplexSink => jsonString ++ LF
  | WritableSink => jsonString ++ LF
  end.

Section Wire.

(** [JSON.stringify] on envelopes, and [!line.trim()]. *)
Variable JSON_stringify : Envelope.t -> string.
Variable blank : string -> bool.

Definition sendMessage_text (sink : Sink) (message : WebSocketMessage.t) : string :=
  frame sink
    (JSON_stringify
       {| Envelope.type := claudeChatType; Envelope.content := message |}).

(** The texts a sink was handed for the envelopes of the model. *)
Definition written (sink : Sink) (output : list Envelope.t) : list string :=
  map (fun payload => frame sink (JSON_stringify payload)) output.

(** [chunk.toString().split('\n').filter((line) => line.trim())]. *)
Definition lines_of (chunk : string) : list string :=
  List.filter (fun line => negb (blank line)) (split_lines chunk).

(** *** [createStreamWrapper] *)

Section StreamWrapper.

Context {Message World : Type}.

(** [JSON.parse(line)], whose result the wrapper passes on unchecked. *)
Variable JSON_parse : string -> Completion Message.

(** A handler acts on the world outside and may throw. *)
Definition Handler : Type := Message -> World -> option Error.t * World.

(** [onMessage]. *)
Definition onMessage (handler : Handler) (handlers : list Handler) : list Handler :=
  handlers ++ [handler].

(** [handlers.forEach((handler) => handler(message))]: a handler that
    throws ends the loop. *)
Fixpoint forEach (handlers : list Handler) (message : Message) (w : World)
  : option Error.t * World :=
  match handlers with
  | [] => (None, w)
  | handler :: rest =>
      match handler message w with
      | (None, w') => forEach rest message w'
      | (Some e, w') => (Some e, w')
      end
  end.

(** The loop over the lines, inside [try]: the first line that does not
    parse, or the first handler that throws, ends it. *)
Fixpoint deliver_lines (handlers : list Handler) (lines : list string) (w : World)
  : option Error.t * World :=
  match lines with
  | [] => (None, w)
  | line :: rest =>
      match JSON_parse line with
      | Thrown e => (Some e, w)
      | Returned message =>
          match forEach handlers message w with
          | (None, w') => deliver_lines handlers rest w'
          | (Some e, w') => (Some e, w')
          end
      end
  end.

(** The [write] of the wrapper's stream: the argument of [callback] and the
    world after the handlers ran. *)
Definition stream_write (handlers : list Handler) (chunk : string) (w : World)
  : option Error.t * World :=
  deliver_lines handlers (lines_of chunk) w.

(** Every handler is called with every message, message by message. *)
Definition deliver_all (handlers : list Handler) (messages : list Message)
    (w : World) : World :=
  fold_left
    (fun w' message =>
       fold_left (fun w'' (handler : Handler) => (handler message w'').2) handlers w')
    messages w.

End StreamWrapper.

(** *** The [write] of the headless collector *)

(** What [JSON.parse] can give the collector: [null], on which reading
    [content] throws; a payload with a truthy [content]; any other value. *)
Inductive Parsed : Type :=
  | ParsedNull
  | ParsedPayload (payload : Envelope.t)
  | ParsedOther.

Section CollectorWrite.

Variable JSON_parse : string -> Completion Parsed.

(** The [TypeError] of reading a property of [null]. *)
Variable typeError : Error.t.

Fixpoint collector_lines (lines : list string) (c : Collector.t)
  : option Error.t * Collector.t :=
  match lines with
  | [] => (None, c)
  | line :: rest =>
      match JSON_parse line with
      | Thrown e => (Some e, c)
      | Returned ParsedNull => (Some typeError, c)
      | Returned (ParsedPayload payload) =>
          collector_lines rest (collector_write payload c)
      | Returned ParsedOther => collector_lines rest c
      end
  end.

(** The [write] of the collecting stream for one chunk. *)
Definition collector_chunk (chunk : string) (c : Collector.t)
  : option Error.t * Collector.t :=
  collector_lines (lines_of chunk) c.

(** The writes made to the stream, one after the other; a stream whose
    [write] reported an error takes no further chunk. *)
Fixpoint collector_writes (chunks : list string) (c : Collector.t)
  : option Error.t * Collector.t :=
  match chunks with
  | [] => (None, c)
  | chunk :: rest =>
      match collector_chunk chunk c with
      | (None, c') => collector_writes rest c'
      | (Some e, c') => (Some e, c')
      end
  end.

End CollectorWrite.

End Wire.

(** *** The guard [isFileMultiEditInput] *)

(** Reading a property of a value that is not [null]: the field of an
    object, [undefined] on arrays and primitive values for the names the
    guard reads. *)
Fixpoint lookup_field (key : string) (fields : list (string * Json)) : option Json :=
  match fields with
  | [] => None
  | (k, v) :: rest => if String.eqb k key then Some v else lookup_field key rest
  end.

Definition get (key : string) (value : Json) : option Json :=
  match value with
  | JObj fields => lookup_field key fields
  | _ => None
  end.

(** [typeof value === 'object' && value !== null]. *)
Definition is_object (value : Json) : bool :=
  match value with
  | JArr _ | JObj _ => true
  | _ => false
  end.

(** [typeof x === 'string'], [x] being the result of a property read. *)
Definition is_string (x : option Json) : bool :=
  match x with
  | Some (JStr _) => true
  | _ => false
  end.

(** The test of one edit, where the edit is not [null]. *)
Definition edit_ok (edit : Json) : bool :=
  is_string (get "old_string" edit) && is_string (get "new_string" edit).

(** [edits.every(...)]: stops at the first edit that fails the test; reading
    [old_string] of [null] throws a [TypeError], rendered as [None]. *)
Fixpoint every_edit (edits : list Json) : option bool :=
  match edits with
  | [] => Some true
  | JNull :: _ => None
  | edit :: rest => if edit_ok edit then every_edit rest else Some false
  end.

Definition isFileMultiEditInput (value : Json) : option bool :=
  if is_object value && is_string (get "file_path" value) then
    match get "edits" value with
    | Some (JArr edits) =>
        if Nat.ltb 0 (length edits) then every_edit edits else Some false
    | _ => Some false
    end
  else Some false.

(** The text of each message type. *)
Definition type_name (ty : MessageType) : string :=
  match ty with
  | session_created => "session-created"
  | claude_response => "claude-response"
  | claude_error => "claude-error"
  | claude_complete => "claude-complete"
  | claude_output => "claude-output"
  | claude_interactive_prompt => "claude-interactive-prompt"
  | claude_status => "claude-status"
  | session_aborted => "session-aborted"
  | cursor_system => "cursor-system"
  | cursor_user => "cursor-user"
  | cursor_tool_use => "cursor-tool-use"
  | cursor_error => "cursor-error"
  | cursor_result => "cursor-result"
  | cursor_output => "cursor-output"
  | permission_request => "permission-request"
  end.

(** The envelope of a message that carries its type only, and a codec for
    such envelopes: the text of an envelope is the text of the type. *)
Definition bare (ty : MessageType) : Envelope.t :=
  {| Envelope.type := claudeChatType;
     Envelope.content :=
       {| WebSocketMessage.type := ty;
          WebSocketMessage.sessionId := None;
          WebSocketMessage.data := None;
          WebSocketMessage.permissionPayload := None;
          WebSocketMessage.error := None;
          WebSocketMessage.exitCode := None;
          WebSocketMessage.isNewSession := None |} |}.

Definition bare_stringify (payload : Envelope.t) : string :=
  type_name (WebSocketMessage.type (Envelope.content payload)).

Definition message_types : list MessageType :=
  [ session_created; claude_response; claude_error; claude_complete;
    claude_output; claude_interactive_prompt; claude_status; session_aborted;
    cursor_system; cursor_user; cursor_tool_use; cursor_error; cursor_result;
    cursor_output; permission_request ].

Definition bare_parse (line : string) : Completion Envelope.t :=
  match List.find (fun ty => String.eqb (type_name ty) line) message_types with
  | Some ty => Returned (bare ty)
  | None => Thrown {| Error.message := Some "Unexpected token" |}
  end.

(** Blank lines, for texts of ASCII characters. *)
Definition is_white_space (c : ascii) : bool :=
  let n := Ascii.nat_of_ascii c in
  (Nat.leb 9 n && Nat.leb n 13) || Nat.eqb n 32.

Fixpoint ascii_blank (s : string) : bool :=
  match s with
  | EmptyString => true
  | String c rest => is_white_space c && ascii_blank rest
  end.

(** The [session-created] messages among the messages of a sink. *)
Definition announcements (msgs : list WebSocketMessage.t) : list WebSocketMessage.t :=
  filter (fun m => WebSocketMessage.type m = session_created) msgs.

(** The first identifier of a list that is not the known one. *)
Definition first_new (known : option string) (ids : list string) : option string :=
  List.find (fun id => bool_decide (Some id <> known)) ids.

(** * Properties *)

(** ** The tool classifier *)

(** C5. [isApprovableTool] is a total function on strings that answers
    [true] exactly on the names of the approval-requiring tools (Write,
    Edit, MultiEdit, Bash, Glob, WebFetch, WebSearch, MCPTool) and [false]
    on every other string. *)
Theorem isApprovableTool_closed_set (value : string) :
  isApprovableTool value = true <->
  value = "Write" \/ value = "Edit" \/ value = "MultiEdit" \/
  value = "Bash" \/ value = "Glob" \/ value = "WebFetch" \/
  value = "WebSearch" \/ value = "MCPTool".
Proof.
  unfold isApprovableTool; cbn [map ApprovableTools ToolType_value includes].
  rewrite !orb_true_iff, !String.eqb_eq.
  intuition (subst; auto; try discriminate).
Qed.

(** ** [canUseTool] *)

(** C7. For an approval-requiring tool, when no session identifier is known
    (it is undefined or empty), [canUseTool] answers at once with a deny
    decision; the registry, the timers and the sink are left as they were. *)
Theorem canUseTool_denies_without_session
    (resume : option string) (uuid toolName : string) (input : Json)
    (st : Invocation) :
  isApprovableTool toolName = true ->
  truthy (capturedSessionId st) = false ->
  canUseTool resume uuid toolName input st
  = (Resolved (Deny "Cannot approve permission without a session ID"), st).
Proof.
  intros Happrovable Hnone. unfold canUseTool.
  rewrite Happrovable, Hnone. reflexivity.
Qed.

Lemma canUseTool_denies_without_session_witness :
  let st := invocation_at None (Broker_start 0) in
  isApprovableTool "Bash" = true /\
  truthy (capturedSessionId st) = false /\
  canUseTool (Some "s0") "123e4567-e89b-42d3-a456-426614174000" "Bash"
    (JObj [("command", JStr "ls")]) st
  = (Resolved (Deny "Cannot approve permission without a session ID"), st).
Proof.
  intros st. split; [reflexivity | split; [reflexivity |]].
  apply (canUseTool_denies_without_session (Some "s0")
           "123e4567-e89b-42d3-a456-426614174000" "Bash"
           (JObj [("command", JStr "ls")]) st); reflexivity.
Defined.

(** C8. For a tool that is not approval-requiring, [canUseTool] answers at
    once with an allow decision that carries the input as it was given; the
    registry, the timers and the sink are left as they were. *)
Theorem canUseTool_allows_other_tools
    (resume : option string) (uuid toolName : string) (input : Json)
    (st : Invocation) :
  isApprovableTool toolName = false ->
  canUseTool resume uuid toolName input st = (Resolved (Allow input), st).
Proof.
  intros Hother. unfold canUseTool. rewrite Hother. reflexivity.
Qed.

Lemma canUseTool_allows_other_tools_witness :
  let st := invocation_at (Some "s1") (Broker_start 0) in
  isApprovableTool "Read" = false /\
  canUseTool (Some "s1") "123e4567-e89b-42d3-a456-426614174000" "Read"
    (JObj [("file_path", JStr "/tmp/a")]) st
  = (Resolved (Allow (JObj [("file_path", JStr "/tmp/a")])), st).
Proof.
  intros st. split; [reflexivity |].
  apply (canUseTool_allows_other_tools (Some "s1")
           "123e4567-e89b-42d3-a456-426614174000" "Read"
           (JObj [("file_path", JStr "/tmp/a")]) st); reflexivity.
Defined.

(** ** The message loop *)

(** C10. A user turn whose content is a non-empty array makes the loop send
    exactly one [claude-response], whose data is the object of type
    [tool_result] holding the same array, whatever the first block is (a
    text block too); a user turn whose content is a string or the empty
    array sends nothing and changes nothing. *)
Theorem user_turn_forwarding
    (command processKey : string) (controller : nat)
    (first : ContentBlock) (rest : list ContentBlock) (text s : string)
    (session_id : option string) (st : Invocation) :
  let on_event := on_message command processKey controller in
  let tool_result (blocks : list ContentBlock) :=
    {| WebSocketMessage.type := claude_response;
       WebSocketMessage.sessionId := capturedSessionId st;
       WebSocketMessage.data := Some (ConvertedToolResult blocks);
       WebSocketMessage.permissionPayload := None;
       WebSocketMessage.error := None;
       WebSocketMessage.exitCode := None;
       WebSocketMessage.isNewSession := None |} in
  on_event (SDKUserMessage (Some (ContentArray (first :: rest))) session_id) st
  = send (tool_result (first :: rest)) st
  /\ received
       (output
          (on_event
             (SDKUserMessage (Some (ContentArray (TextBlock text :: rest)))
                session_id) st))
     = (received (output st) ++ [tool_result (TextBlock text :: rest)])%list
  /\ converted_type (ConvertedToolResult (first :: rest)) = Some "tool_result"
  /\ on_event (SDKUserMessage (Some (ContentString s)) session_id) st = st
  /\ on_event (SDKUserMessage (Some (ContentArray [])) session_id) st = st.
Proof.
  intros on_event tool_result. unfold on_event, on_message.
  repeat split.
  - unfold forward, convert.
    destruct (String.eqb (block_type first) "tool_result"); reflexivity.
  - unfold forward, convert; cbn.
    unfold received, sendMessage. rewrite map_app. reflexivity.
Qed.

(** C1. On the first end-to-end scenario (prompt "hello", no resume
    identifier, the engine yields init for "s1", an assistant turn and a
    successful result) the sink receives the four messages in the order the
    specification gives, and the registration is gone, but the completion
    carries the new-session flag [false]: the flag is computed from the
    session identifier known when the result arrives, which the init event
    has already set. *)
Theorem scenario_1_completion_flag :
  let env :=
    {| Env.loggerFailure := None; Env.dateNowAtStart := 1700000000000;
       Env.dateNowAtCatch := 1700000000250; Env.controller := 7 |} in
  let said := ContentArray [TextBlock "hi"] in
  let engine :=
    {| Engine.steps :=
         [ Yield (SDKSystemMessage "init" (Some "s1"));
           Yield (SDKAssistantMessage (Some said) (Some "s1"));
           Yield (SDKResultMessage "success" (Some "s1")) ];
       Engine.failure := None |} in
  let result := spawnClaude "hello" None env engine no_controllers (Broker_start 0) [] in
  result.1 = Returned (Some "s1")
  /\ received (output result.2)
     = [ sessionCreated (Some "s1");
         {| WebSocketMessage.type := claude_response;
            WebSocketMessage.sessionId := Some "s1";
            WebSocketMessage.data := Some (ConvertedAssistant said (Some "s1"));
            WebSocketMessage.permissionPayload := None;
            WebSocketMessage.error := None;
            WebSocketMessage.exitCode := None;
            WebSocketMessage.isNewSession := None |};
         {| WebSocketMessage.type := claude_response;
            WebSocketMessage.sessionId := Some "s1";
            WebSocketMessage.data := Some (BareContent said);
            WebSocketMessage.permissionPayload := None;
            WebSocketMessage.error := None;
            WebSocketMessage.exitCode := None;
            WebSocketMessage.isNewSession := None |};
         {| WebSocketMessage.type := claude_complete;
            WebSocketMessage.sessionId := Some "s1";
            WebSocketMessage.data := None;
            WebSocketMessage.permissionPayload := None;
            WebSocketMessage.error := None;
            WebSocketMessage.exitCode := Some 0%Z;
            WebSocketMessage.isNewSession := Some false |} ]
  /\ activeClaudeControllers (registry result.2) = ∅.
Proof.
  cbv zeta. split; [reflexivity | split; [reflexivity |]].
  apply map_eq. intros k. vm_compute. reflexivity.
Qed.

(** C6. When the stream fails before any session identifier is known, the
    [catch] block deletes the key made from a second reading of the clock,
    not the process key: with a later reading the controller stays
    registered under the process key. The two messages are sent and the
    failure is raised again. *)
Theorem failure_without_session_keeps_registration :
  let env :=
    {| Env.loggerFailure := None; Env.dateNowAtStart := 1700000000000;
       Env.dateNowAtCatch := 1700000000250; Env.controller := 7 |} in
  let boom := {| Error.message := Some "boom" |} in
  let engine := {| Engine.steps := []; Engine.failure := Some boom |} in
  let result := spawnClaude "hello" None env engine no_controllers (Broker_start 0) [] in
  result.1 = Thrown boom
  /\ map WebSocketMessage.type (received (output result.2))
     = [claude_error; claude_complete]
  /\ processKey_of None env = "1700000000000"
  /\ activeClaudeControllers (registry result.2) !! "1700000000000" = Some 7
  /\ (abortClaudeSession "1700000000000" (registry result.2)).1 = true.
Proof.
  cbv zeta. repeat split; vm_compute; reflexivity.
Qed.

(** ** Session rebinding *)

Lemma count_type_send (ty : MessageType) (out : list Envelope.t)
    (m : WebSocketMessage.t) :
  count_type ty (received (sendMessage out m))
  = count_type ty (received out)
    + (if decide (WebSocketMessage.type m = ty) then 1 else 0).
Proof.
  unfold count_type, received, sendMessage.
  rewrite map_app, filter_app, length_app. f_equal.
  cbn [map Envelope.content]. rewrite filter_cons, filter_nil.
  destruct (decide (WebSocketMessage.type m = ty)); reflexivity.
Qed.

Lemma created_send (m : WebSocketMessage.t) (st : Invocation) :
  WebSocketMessage.type m <> session_created ->
  created (send m st) = created st.
Proof.
  intros Hty. unfold created, send; cbn [output].
  rewrite count_type_send. destruct (decide _); [contradiction | lia].
Qed.

Section CreatedOnce.

Variable command : string.
Variable resume : option string.
Variable processKey : string.
Variable controller : nat.

Lemma forward_created (m : SDKMessage) (st : Invocation) :
  created (forward m st) = created st
  /\ sessionCreatedSent (forward m st) = sessionCreatedSent st.
Proof.
  unfold forward. destruct (convert m) as [d|]; [| split; reflexivity].
  destruct d as [content sid | blocks | content];
    try (rewrite created_send by discriminate; split; reflexivity).
  destruct (content_truthy content);
    rewrite ?created_send by discriminate; split; reflexivity.
Qed.

Lemma handle_result_created (m : SDKMessage) (st : Invocation) :
  created (handle_result command processKey m st) = created st
  /\ sessionCreatedSent (handle_result command processKey m st)
     = sessionCreatedSent st.
Proof.
  unfold handle_result. destruct m; try (split; reflexivity).
  rewrite created_send by discriminate. split; reflexivity.
Qed.

Lemma move_controller_same (st : Invocation) :
  output (move_controller processKey controller st) = output st
  /\ sessionCreatedSent (move_controller processKey controller st)
     = sessionCreatedSent st
  /\ capturedSessionId (move_controller processKey controller st)
     = capturedSessionId st.
Proof.
  unfold move_controller. destruct (capturedSessionId st) as [sid|] eqn:Hc.
  - destruct (negb (String.eqb processKey sid) && truthy (Some sid));
      cbn; auto.
  - auto.
Qed.

Lemma announce_created (st : Invocation) :
  created_inv st -> created_inv (announce st) /\ sessionCreatedSent (announce st) = true.
Proof.
  unfold created_inv, announce. intros Hinv.
  destruct (sessionCreatedSent st) eqn:Hsent; cbn [negb].
  - rewrite Hsent. auto.
  - unfold created in *. cbn [send output sessionCreatedSent with_sessionCreatedSent].
    rewrite count_type_send, Hinv. cbn. auto.
Qed.

Lemma handle_init_created (m : SDKMessage) (st : Invocation) :
  created_inv st -> created_inv (handle_init processKey controller m st).
Proof.
  intros Hinv. unfold handle_init.
  destruct m as [| | |subtype sdkSessionId|]; try exact Hinv.
  destruct (String.eqb subtype "init"); [| exact Hinv].
  destruct (truthy sdkSessionId && bool_decide (sdkSessionId <> capturedSessionId st)).
  - apply announce_created. unfold created_inv, created.
    destruct (move_controller_same (with_captured sdkSessionId st)) as (-> & -> & _).
    exact Hinv.
  - destruct (truthy sdkSessionId); exact Hinv.
Qed.

Lemma handle_init_sent (m : SDKMessage) (st : Invocation) :
  sessionCreatedSent st = true ->
  sessionCreatedSent (handle_init processKey controller m st) = true.
Proof.
  intros Hsent. unfold handle_init.
  destruct m as [| | |subtype sdkSessionId|]; try exact Hsent.
  destruct (String.eqb subtype "init"); [| exact Hsent].
  destruct (truthy sdkSessionId && bool_decide (sdkSessionId <> capturedSessionId st)).
  - unfold announce.
    destruct (move_controller_same (with_captured sdkSessionId st)) as (_ & Hs & _).
    cbn [with_captured sessionCreatedSent] in Hs. rewrite Hs, Hsent. cbn [negb].
    rewrite Hs. exact Hsent.
  - destruct (truthy sdkSessionId); exact Hsent.
Qed.

Lemma on_message_created (m : SDKMessage) (st : Invocation) :
  created_inv st -> created_inv (on_message command processKey controller m st).
Proof.
  intros Hinv. unfold on_message, created_inv.
  destruct (handle_result_created m (handle_init processKey controller m (forward m st)))
    as [-> ->].
  apply handle_init_created. unfold created_inv.
  destruct (forward_created m st) as [-> ->]. exact Hinv.
Qed.

Lemma canUseTool_created (uuid toolName : string) (input : Json) (st : Invocation) :
  created (canUseTool resume uuid toolName input st).2 = created st
  /\ sessionCreatedSent (canUseTool resume uuid toolName input st).2
     = sessionCreatedSent st.
Proof.
  unfold canUseTool.
  destruct (isApprovableTool toolName); [| split; reflexivity].
  destruct (negb (truthy (capturedSessionId st))); [split; reflexivity |].
  unfold register, created.
  cbn [snd with_broker send output sessionCreatedSent].
  rewrite count_type_send.
  destruct (decide _) as [Heq|_]; [discriminate Heq |].
  split; [apply Nat.add_0_r | reflexivity].
Qed.

Lemma engine_step_created (s : EngineStep) (st : Invocation) :
  created_inv st ->
  created_inv (engine_step resume processKey command controller s st).
Proof.
  intros Hinv. destruct s as [m | uuid toolName input]; cbn [engine_step].
  - apply on_message_created, Hinv.
  - unfold created_inv.
    destruct (canUseTool_created uuid toolName input st) as [-> ->]. exact Hinv.
Qed.

(** Once sent, the flag stays set. *)
Lemma engine_step_sent (s : EngineStep) (st : Invocation) :
  sessionCreatedSent st = true ->
  sessionCreatedSent (engine_step resume processKey command controller s st) = true.
Proof.
  intros Hsent. destruct s as [m | uuid toolName input]; cbn [engine_step].
  - unfold on_message.
    destruct (handle_result_created m (handle_init processKey controller m (forward m st)))
      as [_ ->].
    apply handle_init_sent.
    destruct (forward_created m st) as [_ ->]. exact Hsent.
  - destruct (canUseTool_created uuid toolName input st) as [_ ->]. exact Hsent.
Qed.

End CreatedOnce.

Lemma announce_same (st : Invocation) :
  capturedSessionId (announce st) = capturedSessionId st
  /\ registry (announce st) = registry st.
Proof.
  unfold announce. destruct (negb (sessionCreatedSent st)); split; reflexivity.
Qed.

(** What the loop does with an init event that names another session. *)
Lemma on_message_rebind (command processKey : string) (controller : nat)
    (sid : string) (st : Invocation) :
  sid <> "" -> Some sid <> capturedSessionId st ->
  on_message command processKey controller (SDKSystemMessage "init" (Some sid)) st
  = announce (move_controller processKey controller (with_captured (Some sid) st)).
Proof.
  intros Hsid Hnew. unfold on_message, forward, handle_result, handle_init.
  cbn [convert]. replace (String.eqb "init" "init") with true by reflexivity.
  cbn [truthy]. apply String.eqb_neq in Hsid. rewrite Hsid. cbn [negb andb].
  rewrite bool_decide_eq_true_2 by exact Hnew. reflexivity.
Qed.

Lemma on_failure_created (command : string) (env : Env.t) (error : Error.t)
    (st : Invocation) :
  created (on_failure command env error st) = created st.
Proof.
  unfold on_failure. rewrite !created_send by discriminate. reflexivity.
Qed.

Lemma run_loop_created (command : string) (resume : option string) (env : Env.t)
    (steps : list EngineStep) (st : Invocation) :
  created_inv st ->
  created_inv (run_loop command resume env steps st)
  /\ (sessionCreatedSent st = true ->
      sessionCreatedSent (run_loop command resume env steps st) = true).
Proof.
  revert st. induction steps as [|s steps IH]; intros st Hinv; [auto |].
  cbn [run_loop fold_left].
  destruct (IH (engine_step resume (processKey_of resume env) command
                  (Env.controller env) s st)) as [Hc Hs].
  { apply engine_step_created, Hinv. }
  split; [exact Hc |]. intros Hsent. apply Hs, engine_step_sent, Hsent.
Qed.

(** C2, as amended. When the engine reports an init event that carries a
    non-empty session identifier other than the one currently known, the
    tracked identifier becomes the new one and the invocation sends exactly
    one [session-created] message in all, however it goes on and however it
    ends. When the new identifier differs from the process key of the
    invocation, the controller is registered under the new identifier and
    the process key is unregistered: an abort with the new identifier
    answers [true] and aborts this controller, an abort with the process
    key answers [false]. *)
Theorem rebind_on_init
    (command : string) (resume : option string) (env : Env.t)
    (before after : list EngineStep) (failure : option Error.t)
    (sid : string) (r : Registry) (b : Broker) :
  let processKey := processKey_of resume env in
  let init := SDKSystemMessage "init" (Some sid) in
  let st := run_loop command resume env before (loop_start resume env r b []) in
  let st' := on_message command processKey (Env.controller env) init st in
  let engine :=
    {| Engine.steps := before ++ Yield init :: after; Engine.failure := failure |} in
  Env.loggerFailure env = None ->
  sid <> "" ->
  Some sid <> capturedSessionId st ->
  capturedSessionId st' = Some sid
  /\ created (spawnClaude command resume env engine r b []).2 = 1
  /\ (sid <> processKey ->
      abortClaudeSession sid (registry st')
      = (true,
         {| activeClaudeControllers := delete sid (activeClaudeControllers (registry st'));
            abortCalls := abortCalls (registry st') ++ [Env.controller env] |})
      /\ abortClaudeSession processKey (registry st') = (false, registry st')).
Proof.
  intros processKey init st st' engine Hlogger Hsid Hnew.
  assert (Hst' : st' = announce (move_controller processKey (Env.controller env)
                                   (with_captured (Some sid) st)))
    by (apply on_message_rebind; assumption).
  assert (Hstart : created_inv (loop_start resume env r b [])) by reflexivity.
  assert (Hinv : created_inv st) by (apply run_loop_created, Hstart).
  assert (Hinv' : created_inv st' /\ sessionCreatedSent st' = true).
  { rewrite Hst'. apply announce_created. unfold created_inv, created.
    destruct (move_controller_same processKey (Env.controller env)
                (with_captured (Some sid) st)) as (-> & -> & _).
    exact Hinv. }
  split; [| split].
  - rewrite Hst'. destruct (announce_same (move_controller processKey
      (Env.controller env) (with_captured (Some sid) st))) as [-> _].
    destruct (move_controller_same processKey (Env.controller env)
                (with_captured (Some sid) st)) as (_ & _ & ->).
    reflexivity.
  - unfold spawnClaude. rewrite Hlogger. cbn [Engine.steps Engine.failure engine].
    set (final := run_loop command resume env (before ++ Yield init :: after)
                    (loop_start resume env r b [])).
    assert (Hfinal : final = run_loop command resume env after st').
    { unfold final, run_loop. rewrite fold_left_app. reflexivity. }
    destruct Hinv' as [Hc' Hs'].
    destruct (run_loop_created command resume env after st' Hc') as [Hc Hs].
    specialize (Hs Hs'). rewrite <- Hfinal in Hc, Hs.
    unfold created_inv in Hc. rewrite Hs in Hc.
    destruct failure as [error|]; cbn [snd].
    + rewrite on_failure_created. exact Hc.
    + exact Hc.
  - intros Hkey.
    assert (Hreg : registry st'
                   = controllers_set sid (Env.controller env)
                       (controllers_delete processKey (registry st))).
    { rewrite Hst'. destruct (announce_same (move_controller processKey
        (Env.controller env) (with_captured (Some sid) st))) as [_ ->].
      unfold move_controller. cbn [with_captured capturedSessionId truthy].
      apply not_eq_sym, String.eqb_neq in Hkey. rewrite Hkey.
      apply String.eqb_neq in Hsid. rewrite Hsid. reflexivity. }
    unfold abortClaudeSession. rewrite Hreg.
    cbn [controllers_set controllers_delete activeClaudeControllers abortCalls].
    rewrite lookup_insert_eq.
    rewrite lookup_insert_ne by exact Hkey.
    rewrite lookup_delete_eq. split; reflexivity.
Qed.

Lemma rebind_on_init_witness :
  let env :=
    {| Env.loggerFailure := None; Env.dateNowAtStart := 1700000000000;
       Env.dateNowAtCatch := 1700000000250; Env.controller := 7 |} in
  let init := SDKSystemMessage "init" (Some "s1") in
  let after := [Yield (SDKResultMessage "success" (Some "s1"))] in
  let st := loop_start (Some "s0") env no_controllers (Broker_start 0) [] in
  let st' := on_message "hello" "s0" 7 init st in
  let engine := {| Engine.steps := Yield init :: after; Engine.failure := None |} in
  (Env.loggerFailure env = None /\ "s1" <> "" /\ Some "s1" <> capturedSessionId st)
  /\ capturedSessionId st' = Some "s1"
  /\ created (spawnClaude "hello" (Some "s0") env engine no_controllers
                (Broker_start 0) []).2 = 1
  /\ ("s1" <> "s0" ->
      abortClaudeSession "s1" (registry st')
      = (true,
         {| activeClaudeControllers := delete "s1" (activeClaudeControllers (registry st'));
            abortCalls := abortCalls (registry st') ++ [7] |})
      /\ abortClaudeSession "s0" (registry st') = (false, registry st')).
Proof.
  intros env init after st st' engine.
  split; [repeat split; discriminate |].
  apply (rebind_on_init "hello" (Some "s0") env [] after None "s1"
           no_controllers (Broker_start 0)); [reflexivity | discriminate | discriminate].
Defined.

(** C2 as the specification states it, with the old key read as the key
    under which the controller stood before the event, fails when the engine
    reports a second new identifier: started with "s0" and rebound to "s1",
    the invocation meets an init event for "s2"; afterwards the controller
    is registered under "s2" and still under "s1", so that an abort with
    "s1" answers [true]. *)
Lemma second_rebind_keeps_first_key :
  ~ (forall (command : string) (resume : option string) (env : Env.t)
       (before : list EngineStep) (sid old : string) (r : Registry) (b : Broker),
       let st := run_loop command resume env before (loop_start resume env r b []) in
       let st' :=
         on_message command (processKey_of resume env) (Env.controller env)
           (SDKSystemMessage "init" (Some sid)) st in
       sid <> "" ->
       Some sid <> capturedSessionId st ->
       old <> sid ->
       activeClaudeControllers (registry st) !! old = Some (Env.controller env) ->
       (abortClaudeSession sid (registry st')).1 = true
       /\ (abortClaudeSession old (registry st')).1 = false).
Proof.
  intros Hclaim.
  specialize (Hclaim "hello" (Some "s0")
    {| Env.loggerFailure := None; Env.dateNowAtStart := 1700000000000;
       Env.dateNowAtCatch := 1700000000250; Env.controller := 7 |}
    [Yield (SDKSystemMessage "init" (Some "s1"))] "s2" "s1"
    no_controllers (Broker_start 0)).
  cbv zeta in Hclaim.
  assert (Hregistered :
    activeClaudeControllers
      (registry
         (on_message "hello" "s0" 7 (SDKSystemMessage "init" (Some "s1"))
            (loop_start (Some "s0")
               {| Env.loggerFailure := None; Env.dateNowAtStart := 1700000000000;
                  Env.dateNowAtCatch := 1700000000250; Env.controller := 7 |}
               no_controllers (Broker_start 0) []))) !! "s1" = Some 7)
    by (vm_compute; reflexivity).
  destruct (Hclaim ltac:(discriminate) ltac:(discriminate) ltac:(discriminate)
              Hregistered) as [_ Hold].
  vm_compute in Hold. discriminate Hold.
Qed.

(** ** The headless collector *)

Lemma collect_send (out : list Envelope.t) (m : WebSocketMessage.t) :
  collect (sendMessage out m)
  = collector_write {| Envelope.type := claudeChatType; Envelope.content := m |}
      (collect out).
Proof. unfold collect, sendMessage. rewrite fold_left_app. reflexivity. Qed.

Lemma collect_snoc (out : list Envelope.t) (e : Envelope.t) :
  collect (out ++ [e]) = collector_write e (collect out).
Proof. unfold collect. rewrite fold_left_app. reflexivity. Qed.

Lemma observed_exit_code_snoc (msgs : list WebSocketMessage.t)
    (m : WebSocketMessage.t) :
  observed_exit_code (msgs ++ [m])
  = if bool_decide (WebSocketMessage.type m = claude_complete)
    then Some (exitCode_or_zero (WebSocketMessage.exitCode m))
    else observed_exit_code msgs.
Proof. unfold observed_exit_code. rewrite fold_left_app. reflexivity. Qed.

Lemma note_session_same (msg : WebSocketMessage.t) (c : Collector.t) :
  Collector.messages (note_session msg c) = Collector.messages c
  /\ Collector.finalExitCode (note_session msg c) = Collector.finalExitCode c.
Proof. unfold note_session. destruct (_ && _); split; reflexivity. Qed.

Lemma note_completion_messages (msg : WebSocketMessage.t) (c : Collector.t) :
  Collector.messages (note_completion msg c) = Collector.messages c.
Proof. unfold note_completion. destruct (bool_decide _); reflexivity. Qed.

Lemma note_response_exit_code (msg : WebSocketMessage.t) (c : Collector.t) :
  Collector.finalExitCode (note_response msg c) = Collector.finalExitCode c.
Proof.
  unfold note_response. destruct (WebSocketMessage.data msg); [| reflexivity].
  destruct (_ && _); reflexivity.
Qed.

(** The collector's exit code is the last one it observed, or 0. *)
Lemma collect_exit_code (out : list Envelope.t) :
  Collector.finalExitCode (collect out)
  = match observed_exit_code (received out) with
    | Some code => code
    | None => 0%Z
    end.
Proof.
  induction out as [|e out IH] using rev_ind; [reflexivity |].
  rewrite collect_snoc. unfold received in *. rewrite map_app.
  cbn [map]. rewrite observed_exit_code_snoc.
  unfold collector_write. rewrite note_response_exit_code.
  unfold note_completion.
  destruct (bool_decide (WebSocketMessage.type (Envelope.content e) = claude_complete));
    [reflexivity |].
  rewrite <- IH. apply note_session_same.
Qed.

(** The collector keeps the data of every response it is sent. *)
Lemma collect_messages (out : list Envelope.t) :
  responses_truthy out ->
  Collector.messages (collect out) = map collected (response_payloads (received out)).
Proof.
  unfold responses_truthy.
  induction out as [|e out IH] using rev_ind; [reflexivity |].
  unfold received in *. rewrite map_app. cbn [map]. intros Hall.
  apply Forall_app in Hall as [Hout He]. apply Forall_inv in He.
  rewrite collect_snoc. unfold response_payloads in *.
  rewrite omap_app, map_app, <- (IH Hout). cbn [omap list_omap].
  unfold collector_write.
  set (msg := Envelope.content e) in *.
  assert (Hkept : Collector.messages (note_completion msg (note_session msg (collect out)))
                  = Collector.messages (collect out)).
  { rewrite note_completion_messages. apply note_session_same. }
  unfold note_response.
  destruct (bool_decide (WebSocketMessage.type msg = claude_response)) eqn:Hresp.
  - apply bool_decide_eq_true_1 in Hresp.
    destruct (He Hresp) as (d & Hd & Htruthy). rewrite Hd, Htruthy.
    cbn [andb Collector.messages]. rewrite Hkept. reflexivity.
  - destruct (WebSocketMessage.data msg) as [d|]; cbn [andb];
      rewrite Hkept; cbn; rewrite app_nil_r; reflexivity.
Qed.

Lemma responses_truthy_send (m : WebSocketMessage.t) (st : Invocation) :
  responses_truthy (output st) ->
  (WebSocketMessage.type m = claude_response ->
   exists d, WebSocketMessage.data m = Some d /\ data_truthy d = true) ->
  responses_truthy (output (send m st)).
Proof.
  unfold responses_truthy, received, send, sendMessage; cbn [output].
  intros Hout Hm. rewrite map_app. apply Forall_app. split; [exact Hout |].
  apply Forall_singleton. exact Hm.
Qed.

Lemma convert_truthy (m : SDKMessage) (d : Data) :
  convert m = Some d -> data_truthy d = true.
Proof.
  unfold convert.
  destruct m as [[content|] sid | [[s|[|first rest]]|] sid | | |];
    try discriminate.
  - intros [= <-]. reflexivity.
  - destruct (String.eqb (block_type first) "tool_result");
      intros [= <-]; reflexivity.
Qed.

Lemma forward_responses_truthy (m : SDKMessage) (st : Invocation) :
  responses_truthy (output st) -> responses_truthy (output (forward m st)).
Proof.
  intros Hout. unfold forward.
  destruct (convert m) as [d|] eqn:Hconv; [| exact Hout].
  assert (Hfirst : responses_truthy (output (send (response d st) st))).
  { apply responses_truthy_send; [exact Hout |]. intros _. exists d.
    split; [reflexivity | exact (convert_truthy m d Hconv)]. }
  destruct d as [content sid | blocks | content]; try exact Hfirst.
  destruct (content_truthy content) eqn:Htruthy; [| exact Hfirst].
  apply responses_truthy_send; [exact Hfirst |]. intros _.
  exists (BareContent content). split; [reflexivity | exact Htruthy].
Qed.

Lemma handle_init_output (processKey : string) (controller : nat)
    (m : SDKMessage) (st : Invocation) :
  responses_truthy (output st) ->
  responses_truthy (output (handle_init processKey controller m st)).
Proof.
  intros Hout. unfold handle_init.
  destruct m as [| | |subtype sdkSessionId|]; try exact Hout.
  destruct (String.eqb subtype "init"); [| exact Hout].
  destruct (truthy sdkSessionId && bool_decide (sdkSessionId <> capturedSessionId st)).
  - unfold announce.
    destruct (move_controller_same processKey controller
                (with_captured sdkSessionId st)) as (Hsame & _ & _).
    destruct (negb _).
    + apply responses_truthy_send; [| discriminate].
      cbn [with_sessionCreatedSent output]. rewrite Hsame. exact Hout.
    + rewrite Hsame. exact Hout.
  - destruct (truthy sdkSessionId); exact Hout.
Qed.

Lemma engine_step_responses_truthy (resume : option string)
    (processKey command : string) (controller : nat) (s : EngineStep)
    (st : Invocation) :
  responses_truthy (output st) ->
  responses_truthy (output (engine_step resume processKey command controller s st)).
Proof.
  intros Hout. destruct s as [m | uuid toolName input]; cbn [engine_step].
  - unfold on_message, handle_result.
    pose proof (handle_init_output processKey controller m (forward m st)
                  (forward_responses_truthy m st Hout)) as Hinit.
    destruct m; try exact Hinit.
    apply responses_truthy_send; [exact Hinit | discriminate].
  - unfold canUseTool. destruct (isApprovableTool toolName); [| exact Hout].
    destruct (negb (truthy (capturedSessionId st))); [exact Hout |].
    unfold register. cbn [snd with_broker output].
    apply responses_truthy_send; [exact Hout | discriminate].
Qed.

Lemma run_loop_responses_truthy (command : string) (resume : option string)
    (env : Env.t) (steps : list EngineStep) (st : Invocation) :
  responses_truthy (output st) ->
  responses_truthy (output (run_loop command resume env steps st)).
Proof.
  revert st. induction steps as [|s steps IH]; intros st Hout; [exact Hout |].
  cbn [run_loop fold_left]. apply IH, engine_step_responses_truthy, Hout.
Qed.

(** C9. When the underlying invocation throws, the headless entry point
    still returns a result. Its messages are those the collector holds, which
    are the data of every [claude-response] the sink received, in order. Its
    exit code is made in two steps, as in the code. The collector keeps, on
    every sink, the exit code of the last [claude-complete] it was written
    (0 when that message carries none, and 0 before any): an observed exit
    code is kept, whatever it is. The [catch] of the entry point then
    returns [finalExitCode || 1], which replaces 0 by 1 and keeps any other
    code. On a run that throws, the last exit code observed is never 0: the
    sink either saw no completion at all, or its last one is the completion
    with exit code 1 that the [catch] block of the invocation sends before
    it raises again. Hence the exit code returned is the last one observed,
    or 1 when none was observed. *)
Theorem headless_returns_on_failure
    (command : string) (resume : option string) (env : Env.t)
    (engine : Engine.t) (r : Registry) (b : Broker) (e : Error.t) :
  let underlying := spawnClaude command resume env engine r b [] in
  let sent := received (output underlying.2) in
  let c := collect (output underlying.2) in
  underlying.1 = Thrown e ->
  (forall out : list Envelope.t,
     Collector.finalExitCode (collect out)
     = match observed_exit_code (received out) with
       | Some code => code
       | None => 0%Z
       end)
  /\ Collector.messages c = map collected (response_payloads sent)
  /\ observed_exit_code sent
     = match Env.loggerFailure env with
       | Some _ => None
       | None => Some 1%Z
       end
  /\ exists result : HeadlessResult.t,
       (spawnClaudeHeadless command resume env engine r b).1 = Returned result
       /\ HeadlessResult.messages result = Collector.messages c
       /\ HeadlessResult.messages result = map collected (response_payloads sent)
       /\ HeadlessResult.exitCode result
          = (if Z.eqb (Collector.finalExitCode c) 0 then 1%Z
             else Collector.finalExitCode c)
       /\ HeadlessResult.exitCode result
          = match observed_exit_code sent with
            | Some code => code
            | None => 1%Z
            end.
Proof.
  intros underlying sent c Hthrown.
  split; [exact collect_exit_code |].
  assert (Houtput : responses_truthy (output underlying.2)
                    /\ observed_exit_code sent
                       = match Env.loggerFailure env with
                         | Some _ => None
                         | None => Some 1%Z
                         end).
  { subst sent. unfold underlying, spawnClaude in *.
    destruct (Env.loggerFailure env) as [e0|].
    - split; [constructor | reflexivity].
    - destruct (Engine.failure engine) as [error|]; [| discriminate Hthrown].
      cbn [snd]. split.
      + unfold on_failure.
        apply responses_truthy_send; [| discriminate].
        apply responses_truthy_send; [| discriminate].
        cbn [with_registry output].
        apply run_loop_responses_truthy. constructor.
      + unfold on_failure, send, received, sendMessage; cbn [output].
        rewrite map_app. cbn [map Envelope.content].
        rewrite observed_exit_code_snoc. reflexivity. }
  destruct Houtput as [Htruthy Hcode].
  pose proof (collect_messages _ Htruthy) as Hmessages. fold c sent in Hmessages.
  pose proof (collect_exit_code (output underlying.2)) as Hfinal. fold c sent in Hfinal.
  split; [exact Hmessages |]. split; [exact Hcode |].
  unfold spawnClaudeHeadless. fold underlying.
  destruct underlying as [outcome st] eqn:Hrun. cbn [fst snd] in *.
  subst outcome. fold c. eexists. split; [reflexivity |].
  cbn [HeadlessResult.messages HeadlessResult.exitCode].
  split; [reflexivity |]. split; [exact Hmessages |]. split; [reflexivity |].
  rewrite Hfinal, Hcode. destruct (Env.loggerFailure env); reflexivity.
Qed.

Lemma headless_returns_on_failure_witness :
  let env :=
    {| Env.loggerFailure := None; Env.dateNowAtStart := 1700000000000;
       Env.dateNowAtCatch := 1700000000250; Env.controller := 7 |} in
  let said := ContentArray [TextBlock "hi"] in
  let boom := {| Error.message := Some "boom" |} in
  let engine :=
    {| Engine.steps :=
         [ Yield (SDKSystemMessage "init" (Some "s1"));
           Yield (SDKAssistantMessage (Some said) (Some "s1"));
           Yield (SDKResultMessage "success" (Some "s1")) ];
       Engine.failure := Some boom |} in
  let underlying := spawnClaude "hello" None env engine no_controllers (Broker_start 0) [] in
  let sent := received (output underlying.2) in
  let c := collect (output underlying.2) in
  underlying.1 = Thrown boom
  /\ Collector.finalExitCode c = 1%Z
  /\ exists result : HeadlessResult.t,
       (spawnClaudeHeadless "hello" None env engine no_controllers (Broker_start 0)).1
       = Returned result
       /\ HeadlessResult.messages result = Collector.messages c
       /\ HeadlessResult.messages result = map collected (response_payloads sent)
       /\ HeadlessResult.exitCode result
          = (if Z.eqb (Collector.finalExitCode c) 0 then 1%Z
             else Collector.finalExitCode c)
       /\ HeadlessResult.exitCode result
          = match observed_exit_code sent with
            | Some code => code
            | None => 1%Z
            end.
Proof.
  intros env said boom engine underlying sent c.
  split; [reflexivity |]. split; [reflexivity |].
  apply (headless_returns_on_failure "hello" None env engine no_controllers
           (Broker_start 0) boom eq_refl).
Defined.

(** ** The registry of pending permission requests *)

(** *** The map operations *)

Lemma Map_delete_filter (k : string) (m : list (string * Pending.t)) :
  Map_delete k m = filter (fun kv => kv.1 <> k) m.
Proof.
  induction m as [|[k' v] m IH]; [reflexivity |].
  cbn [Map_delete]. rewrite filter_cons. cbn [fst].
  destruct (String.eqb_spec k' k) as [->|Hne].
  - rewrite decide_False by (intros H; apply H; reflexivity). exact IH.
  - rewrite decide_True by exact Hne. rewrite IH. reflexivity.
Qed.

Lemma elem_of_Map_delete (k : string) (m : list (string * Pending.t))
    (kv : string * Pending.t) :
  kv ∈ Map_delete k m <-> kv ∈ m /\ kv.1 <> k.
Proof. rewrite Map_delete_filter, list_elem_of_filter. tauto. Qed.

Lemma elem_of_delete_keys (keys : list string) (m : list (string * Pending.t))
    (kv : string * Pending.t) :
  kv ∈ delete_keys keys m <-> kv ∈ m /\ kv.1 ∉ keys.
Proof.
  revert m. induction keys as [|k keys IH]; intros m; cbn [delete_keys fold_left].
  - split; [intros H; split; [exact H | apply not_elem_of_nil] | tauto].
  - fold (delete_keys keys (Map_delete k m)).
    rewrite IH, elem_of_Map_delete, not_elem_of_cons. tauto.
Qed.

Lemma Map_delete_sublist (k : string) (m : list (string * Pending.t)) :
  Map_delete k m `sublist_of` m.
Proof. rewrite Map_delete_filter. apply sublist_filter. Qed.

Lemma delete_keys_sublist (keys : list string) (m : list (string * Pending.t)) :
  delete_keys keys m `sublist_of` m.
Proof.
  revert m. induction keys as [|k keys IH]; intros m; cbn [delete_keys fold_left].
  - reflexivity.
  - fold (delete_keys keys (Map_delete k m)).
    etransitivity; [apply IH | apply Map_delete_sublist].
Qed.

Lemma Map_set_fresh (k : string) (v : Pending.t) (m : list (string * Pending.t)) :
  k ∉ (fst <$> m) -> Map_set k v m = (m ++ [(k, v)])%list.
Proof.
  induction m as [|[k' v'] m IH]; intros Hfresh; [reflexivity |].
  cbn [Map_set]. rewrite fmap_cons, not_elem_of_cons in Hfresh.
  destruct Hfresh as [Hne Hfresh]. cbn [fst] in Hne.
  destruct (String.eqb_spec k' k) as [->|_]; [contradiction |].
  rewrite IH by exact Hfresh. reflexivity.
Qed.

(** Equal images under a duplicate-free projection name the same element. *)
Lemma NoDup_fmap_eq {A B : Type} (f : A -> B) (l : list A) (x y : A) :
  NoDup (f <$> l) -> x ∈ l -> y ∈ l -> f x = f y -> x = y.
Proof.
  induction l as [|a l IH]; intros Hnodup Hx Hy Hf.
  - apply elem_of_nil in Hx. contradiction.
  - rewrite fmap_cons in Hnodup. apply NoDup_cons in Hnodup as [Ha Hnodup].
    apply elem_of_cons in Hx as [->|Hx]; apply elem_of_cons in Hy as [->|Hy].
    + reflexivity.
    + exfalso. apply Ha. rewrite Hf. apply list_elem_of_fmap_2, Hy.
    + exfalso. apply Ha. rewrite <- Hf. apply list_elem_of_fmap_2, Hx.
    + apply IH; assumption.
Qed.

Lemma filter_ext_in {A : Type} (P Q : A -> Prop)
    `{!forall x, Decision (P x)} `{!forall x, Decision (Q x)} (l : list A) :
  (forall x, x ∈ l -> P x <-> Q x) -> filter P l = filter Q l.
Proof.
  induction l as [|a l IH]; intros Hext; [reflexivity |].
  rewrite !filter_cons.
  assert (Ha : P a <-> Q a) by (apply Hext; left).
  rewrite IH by (intros x Hx; apply Hext; right; exact Hx).
  destruct (decide (P a)) as [HP|HP], (decide (Q a)) as [HQ|HQ];
    tauto || reflexivity.
Qed.

(** *** The lookup of [handlePermissionResponse] *)

Lemma find_pending_Some (sid rid : string) (m : list (string * Pending.t))
    (k : string) (p : Pending.t) :
  find_pending sid rid m = Some (k, p) ->
  (k, p) ∈ m /\ Pending.sessionId p = sid /\ Pending.requestId p = rid.
Proof.
  induction m as [|[k' p'] m IH]; [discriminate |]. cbn [find_pending].
  destruct (String.eqb_spec (Pending.sessionId p') sid) as [Hs|Hs];
    destruct (String.eqb_spec (Pending.requestId p') rid) as [Hr|Hr]; cbn [andb];
    try (intros H; destruct (IH H) as (Hin & ? & ?);
         split; [right; exact Hin | split; assumption]).
  intros [= <- <-]. split; [left | split; assumption].
Qed.

Lemma find_pending_None (sid rid : string) (m : list (string * Pending.t)) :
  find_pending sid rid m = None <->
  forall k p, (k, p) ∈ m ->
    ~ (Pending.sessionId p = sid /\ Pending.requestId p = rid).
Proof.
  induction m as [|[k' p'] m IH]; cbn [find_pending].
  - split; [| reflexivity]. intros _ k p Hin. apply elem_of_nil in Hin. contradiction.
  - destruct (String.eqb_spec (Pending.sessionId p') sid) as [Hs|Hs];
      destruct (String.eqb_spec (Pending.requestId p') rid) as [Hr|Hr]; cbn [andb].
    + split; [discriminate |]. intros H. exfalso. apply (H k' p'); [left | auto].
    + rewrite IH. split.
      * intros H k p Hin. apply elem_of_cons in Hin as [[= -> ->]|Hin];
          [tauto | apply (H k p Hin)].
      * intros H k p Hin. apply (H k p). right. exact Hin.
    + rewrite IH. split.
      * intros H k p Hin. apply elem_of_cons in Hin as [[= -> ->]|Hin];
          [tauto | apply (H k p Hin)].
      * intros H k p Hin. apply (H k p). right. exact Hin.
    + rewrite IH. split.
      * intros H k p Hin. apply elem_of_cons in Hin as [[= -> ->]|Hin];
          [tauto | apply (H k p Hin)].
      * intros H k p Hin. apply (H k p). right. exact Hin.
Qed.

Lemma find_pending_unique (sid rid : string) (m : list (string * Pending.t))
    (k : string) (p : Pending.t) :
  NoDup ((fun kp => Pending.requestId kp.2) <$> m) ->
  (k, p) ∈ m -> Pending.sessionId p = sid -> Pending.requestId p = rid ->
  find_pending sid rid m = Some (k, p).
Proof.
  intros Hnodup Hin Hs Hr.
  destruct (find_pending sid rid m) as [[k' p']|] eqn:Hfind.
  - apply find_pending_Some in Hfind as (Hin' & _ & Hr').
    f_equal. symmetry.
    apply (NoDup_fmap_eq (fun kp => Pending.requestId kp.2) m (k, p) (k', p'));
      [assumption .. |]. cbn. congruence.
  - exfalso. rewrite find_pending_None in Hfind. apply (Hfind k p Hin). auto.
Qed.

(** *** Composite keys *)

Lemma String_length_append (a b : string) :
  String.length (a ++ b) = String.length a + String.length b.
Proof.
  induction a as [|x a IH]; [reflexivity |].
  change (S (String.length (a ++ b)) = S (String.length a + String.length b)).
  f_equal. exact IH.
Qed.

Lemma append_suffix_inj (a b c d : string) :
  String.length c = String.length d -> a ++ c = b ++ d -> c = d.
Proof.
  revert b. induction a as [|x a IH]; intros [|y b] Hlen Heq.
  - exact Heq.
  - exfalso. apply (f_equal String.length) in Heq.
    rewrite !String_length_append in Heq. cbn [String.length] in Heq. lia.
  - exfalso. apply (f_equal String.length) in Heq.
    rewrite !String_length_append in Heq. cbn [String.length] in Heq. lia.
  - change (String x (a ++ c) = String y (b ++ d)) in Heq.
    injection Heq as _ Heq. apply (IH b Hlen Heq).
Qed.

Lemma matches_pattern_length (pattern s : string) :
  matches_pattern pattern s = true -> String.length s = String.length pattern.
Proof.
  revert s. induction pattern as [|p pattern IH]; intros [|c s]; cbn;
    try discriminate; [reflexivity |].
  intros H. apply andb_true_iff in H as [_ H]. rewrite (IH s H). reflexivity.
Qed.

Lemma is_uuid_length (u : string) : is_uuid u = true -> String.length u = 36.
Proof. intros H. apply matches_pattern_length in H. exact H. Qed.

(** Keys made from different UUIDs differ, whatever precedes the colon. *)
Lemma compositeKey_inj (r r' u u' : string) :
  is_uuid u = true -> is_uuid u' = true ->
  r ++ ":" ++ u = r' ++ ":" ++ u' -> u = u'.
Proof.
  intros Hu Hu' Heq. apply append_suffix_inj in Heq.
  - change (String ":" u = String ":" u') in Heq.
    injection Heq as Heq. exact Heq.
  - rewrite !String_length_append, (is_uuid_length u Hu), (is_uuid_length u' Hu').
    reflexivity.
Qed.

(** *** Responses and the passing of time, as settlements *)

Lemma timeouts_fold (ts : list Timer.t) (b : Broker) :
  fold_left (fun b' x => timeout_callback x b') ts b
  = {| pendingPermissionRequests :=
         delete_keys (Timer.compositeKey <$> ts) (pendingPermissionRequests b);
       timers := timers b;
       resolverCalls :=
         resolverCalls b ++ ((fun t => (Timer.resolve t, timedOut)) <$> ts);
       nextHandle := nextHandle b;
       now := now b |}.
Proof.
  revert b. induction ts as [|t ts IH]; intros b; cbn [fold_left].
  - destruct b; cbn. rewrite app_nil_r. reflexivity.
  - rewrite IH. unfold timeout_callback, call_resolver, pending_delete.
    cbn [pendingPermissionRequests timers resolverCalls nextHandle now].
    rewrite fmap_cons, fmap_cons, <- app_assoc. reflexivity.
Qed.

Lemma elapse_settle (issued : list string) (dt : N) (b : Broker) :
  broker_inv issued b ->
  elapse dt b
  = settle ((fun t => (t, timedOut))
              <$> filter (fun t => (Timer.due t <= now b + dt)%N) (timers b))
      (now b + dt) b.
Proof.
  intros Hinv. unfold elapse, settle. rewrite timeouts_fold.
  cbn [pendingPermissionRequests timers resolverCalls nextHandle now].
  rewrite <- !list_fmap_compose. f_equal.
  apply filter_ext_in. intros t Ht. unfold compose; cbn [fst].
  rewrite list_elem_of_fmap. split.
  - intros Hlate (t' & Hid & Ht'). apply list_elem_of_filter in Ht' as [Hdue Ht'].
    assert (t = t') as ->.
    { apply (NoDup_fmap_eq Timer.id (timers b)); [apply Hinv | assumption ..]. }
    contradiction.
  - intros Hnot Hdue. apply Hnot. exists t. split; [reflexivity |].
    apply list_elem_of_filter. auto.
Qed.

Lemma response_settle (issued : list string) (sid rid : string)
    (response : PermissionResult) (b : Broker) (key : string) (p : Pending.t) :
  broker_inv issued b ->
  find_pending sid rid (pendingPermissionRequests b) = Some (key, p) ->
  exists t, t ∈ timers b /\ Timer.id t = Pending.resolve p
            /\ Timer.compositeKey t = key
            /\ (handlePermissionResponse sid rid response b).2
               = settle [(t, response)] (now b) b.
Proof.
  intros Hinv Hfind. unfold handlePermissionResponse. rewrite Hfind.
  apply find_pending_Some in Hfind as (Hin & _ & _).
  destruct (inv_entry _ _ Hinv key p Hin) as (_ & _ & _ & Htimeout & t & Ht & Hid & Hkey).
  destruct (inv_timer _ _ Hinv t Ht) as (Hres & _).
  exists t. repeat (split; [assumption |]).
  unfold settle, pending_delete, call_resolver, clearTimeout.
  cbn [snd pendingPermissionRequests timers resolverCalls nextHandle now
       fmap list_fmap fst delete_keys fold_left].
  rewrite Hkey, Hres, Hid, Htimeout. f_equal.
  apply filter_ext_in. intros t' _. rewrite list_elem_of_singleton. tauto.
Qed.

Lemma find_timer_Some (timer : nat) (ts : list Timer.t) (t : Timer.t) :
  find_timer timer ts = Some t -> t ∈ ts /\ Timer.id t = timer.
Proof.
  induction ts as [|t0 ts IH]; [discriminate |]. cbn [find_timer].
  destruct (Nat.eqb_spec (Timer.id t0) timer) as [Hid|_].
  - intros [= <-]. split; [left | exact Hid].
  - intros H. destruct (IH H) as [Hin Hid]. split; [right; exact Hin | exact Hid].
Qed.

Lemma fire_settle (issued : list string) (timer : nat) (b : Broker) (t : Timer.t) :
  broker_inv issued b ->
  find_timer timer (timers b) = Some t ->
  t ∈ timers b /\ Timer.id t = timer
  /\ fire timer b = settle [(t, timedOut)] (now b) b.
Proof.
  intros Hinv Hfind. unfold fire. rewrite Hfind.
  apply find_timer_Some in Hfind as [Ht Hid].
  split; [exact Ht |]. split; [exact Hid |].
  unfold settle, timeout_callback, pending_delete, call_resolver, clearTimeout.
  cbn [pendingPermissionRequests timers resolverCalls nextHandle now
       fmap list_fmap fst snd delete_keys fold_left].
  f_equal. apply filter_ext_in. intros t0 _.
  rewrite list_elem_of_singleton, Hid. tauto.
Qed.

(** *** The invariant is kept *)

Lemma fmap_ext_in {A B : Type} (f g : A -> B) (l : list A) :
  (forall x, x ∈ l -> f x = g x) -> f <$> l = g <$> l.
Proof.
  induction l as [|a l IH]; intros Hext; [reflexivity |].
  rewrite !fmap_cons, IH by (intros x Hx; apply Hext; right; exact Hx).
  rewrite (Hext a) by left. reflexivity.
Qed.

Lemma broker_inv_start (t0 : N) : broker_inv [] (Broker_start t0).
Proof.
  split; cbn [Broker_start pendingPermissionRequests timers resolverCalls];
    rewrite ?fmap_nil; try apply NoDup_nil_2.
  - intros k p H. apply elem_of_nil in H. contradiction.
  - intros t H. apply elem_of_nil in H. contradiction.
  - intros h H. apply elem_of_nil in H. contradiction.
Qed.

(** A UUID that was never issued names no pending request, and the key made
    from it is not in the map. *)
Lemma fresh_request (issued : list string) (u : string) (b : Broker) :
  broker_inv issued b -> u ∉ issued ->
  u ∉ ((fun kp => Pending.requestId kp.2) <$> pendingPermissionRequests b).
Proof.
  intros Hinv Hfresh Hin. apply list_elem_of_fmap in Hin as ([k' p'] & -> & Hin).
  destruct (inv_entry _ _ Hinv k' p' Hin) as (_ & _ & Hissued & _).
  apply Hfresh, Hissued.
Qed.

Lemma fresh_key (issued : list string) (r u : string) (b : Broker) :
  broker_inv issued b -> is_uuid u = true -> u ∉ issued ->
  (r ++ ":" ++ u) ∉ (fst <$> pendingPermissionRequests b).
Proof.
  intros Hinv Huuid Hfresh Hin.
  apply list_elem_of_fmap in Hin as ([k' p'] & Hk & Hin). cbn [fst] in Hk.
  destruct (inv_entry _ _ Hinv k' p' Hin) as ((r' & Hshape) & Huuid' & Hissued & _).
  apply Hfresh. rewrite (compositeKey_inj r r' u (Pending.requestId p') Huuid Huuid');
    [exact Hissued |]. rewrite <- Hshape. exact Hk.
Qed.

Lemma register_inv (issued : list string) (r u sid : string) (b : Broker) :
  broker_inv issued b -> is_uuid u = true -> u ∉ issued ->
  broker_inv (u :: issued) (register (r ++ ":" ++ u) u sid b).2.
Proof.
  intros Hinv Huuid Hfresh.
  set (k := r ++ ":" ++ u).
  set (v := {| Pending.requestId := u; Pending.sessionId := sid;
               Pending.resolve := nextHandle b; Pending.timeout := nextHandle b |}).
  set (tnew := {| Timer.id := nextHandle b;
                  Timer.due := (now b + permissionTimeoutMs)%N;
                  Timer.compositeKey := k; Timer.resolve := nextHandle b |}).
  pose proof (fresh_request issued u b Hinv Hfresh) as Hrequest.
  pose proof (fresh_key issued r u b Hinv Huuid Hfresh) as Hkey. fold k in Hkey.
  unfold register. cbn [snd]. fold k v tnew.
  rewrite (Map_set_fresh k v _ Hkey).
  split; cbn [pendingPermissionRequests timers resolverCalls nextHandle now].
  - rewrite fmap_app. apply NoDup_app. split; [apply Hinv | split].
    + intros x Hx Hx'. apply list_elem_of_singleton in Hx'. subst x.
      apply Hkey, Hx.
    + apply NoDup_singleton.
  - rewrite fmap_app. apply NoDup_app. split; [apply Hinv | split].
    + intros x Hx Hx'. apply list_elem_of_singleton in Hx'. subst x.
      apply Hrequest, Hx.
    + apply NoDup_singleton.
  - intros k0 p0 Hin. apply elem_of_app in Hin as [Hin|Hin].
    + destruct (inv_entry _ _ Hinv k0 p0 Hin)
        as (Hshape & Huuid0 & Hissued & Htimeout & t & Ht & Hid & Hk).
      repeat (split; [assumption || (right; assumption) |]).
      exists t. split; [apply elem_of_app; left; exact Ht | auto].
    + apply list_elem_of_singleton in Hin. injection Hin as -> ->.
      split; [exists r; reflexivity |].
      split; [exact Huuid |]. split; [left |]. split; [reflexivity |].
      exists tnew. split; [apply elem_of_app; right; left | auto].
  - intros t Ht. apply elem_of_app in Ht as [Ht|Ht].
    + destruct (inv_timer _ _ Hinv t Ht) as (Hres & Hlt & Hdue & p & Hp & Hpid).
      split; [exact Hres |]. split; [lia |]. split; [exact Hdue |].
      exists p. split; [apply elem_of_app; left; exact Hp | exact Hpid].
    + apply list_elem_of_singleton in Ht. subst t. cbn.
      split; [reflexivity |]. split; [lia |].
      split; [unfold permissionTimeoutMs; lia |].
      exists v. split; [apply elem_of_app; right; left | reflexivity].
  - rewrite fmap_app. apply NoDup_app. split; [apply Hinv | split].
    + intros x Hx Hx'. apply list_elem_of_singleton in Hx'. cbn in Hx'. subst x.
      apply list_elem_of_fmap in Hx as (t & Hid & Ht).
      destruct (inv_timer _ _ Hinv t Ht) as (_ & Hlt & _). lia.
    + apply NoDup_singleton.
  - apply Hinv.
  - intros h Hh. destruct (inv_called _ _ Hinv h Hh) as [Hlt Hnone].
    split; [lia |]. intros t Ht. apply elem_of_app in Ht as [Ht|Ht].
    + apply Hnone, Ht.
    + apply list_elem_of_singleton in Ht. subst t. cbn. lia.
Qed.

Lemma settle_inv (issued : list string)
    (fired : list (Timer.t * PermissionResult)) (t' : N) (b : Broker) :
  broker_inv issued b ->
  (forall x, x ∈ fired -> x.1 ∈ timers b) ->
  NoDup ((fun x => Timer.id x.1) <$> fired) ->
  (forall t, t ∈ timers b ->
     Timer.id t ∉ ((fun x => Timer.id x.1) <$> fired) -> (t' < Timer.due t)%N) ->
  broker_inv issued (settle fired t' b).
Proof.
  intros Hinv Harmed Hnodup Hlate.
  assert (Hsame : forall t x, t ∈ timers b -> x ∈ fired ->
                    Timer.compositeKey t = Timer.compositeKey x.1 ->
                    Timer.id t = Timer.id x.1).
  { intros t x Ht Hx Hkey.
    destruct (inv_timer _ _ Hinv t Ht) as (_ & _ & _ & p & Hp & Hpid).
    destruct (inv_timer _ _ Hinv x.1 (Harmed x Hx)) as (_ & _ & _ & p' & Hp' & Hpid').
    rewrite <- Hkey in Hp'.
    assert ((Timer.compositeKey t, p) = (Timer.compositeKey t, p')) as [= ->].
    { apply (NoDup_fmap_eq fst (pendingPermissionRequests b));
        [apply Hinv | assumption | assumption | reflexivity]. }
    congruence. }
  split; cbn [settle pendingPermissionRequests timers resolverCalls nextHandle now].
  - apply (sublist_NoDup _ (fst <$> pendingPermissionRequests b));
      [apply Hinv | apply fmap_sublist, delete_keys_sublist].
  - apply (sublist_NoDup _ ((fun kp => Pending.requestId kp.2)
                              <$> pendingPermissionRequests b));
      [apply Hinv | apply fmap_sublist, delete_keys_sublist].
  - intros k p Hin. apply elem_of_delete_keys in Hin as [Hin Hkept]. cbn [fst] in Hkept.
    destruct (inv_entry _ _ Hinv k p Hin)
      as (Hshape & Huuid & Hissued & Htimeout & t & Ht & Hid & Hk).
    repeat (split; [assumption |]).
    exists t. split; [| auto]. apply list_elem_of_filter. split; [| exact Ht].
    intros Hfired. apply list_elem_of_fmap in Hfired as (x & Hx & Hxin).
    assert (t = x.1) as ->.
    { apply (NoDup_fmap_eq Timer.id (timers b)); [apply Hinv | auto ..]. }
    apply Hkept. rewrite <- Hk. apply (list_elem_of_fmap_2 (fun x => Timer.compositeKey x.1)), Hxin.
  - intros t Ht. apply list_elem_of_filter in Ht as [Hnot Ht].
    destruct (inv_timer _ _ Hinv t Ht) as (Hres & Hlt & _ & p & Hp & Hpid).
    split; [exact Hres |]. split; [exact Hlt |]. split; [apply Hlate; assumption |].
    exists p. split; [| exact Hpid]. apply elem_of_delete_keys. split; [exact Hp |].
    cbn [fst]. intros Hkey. apply list_elem_of_fmap in Hkey as (x & Hkey & Hx).
    apply Hnot. rewrite (Hsame t x Ht Hx Hkey).
    apply (list_elem_of_fmap_2 (fun x => Timer.id x.1)), Hx.
  - apply (sublist_NoDup _ (Timer.id <$> timers b));
      [apply Hinv | apply fmap_sublist, sublist_filter].
  - rewrite fmap_app, <- list_fmap_compose.
    assert (Hids : (fst ∘ (fun x : Timer.t * PermissionResult => (Timer.resolve x.1, x.2)))
                     <$> fired
                   = (fun x => Timer.id x.1) <$> fired).
    { apply fmap_ext_in. intros x Hx. cbn.
      apply (inv_timer _ _ Hinv x.1 (Harmed x Hx)). }
    rewrite Hids. apply NoDup_app. split; [apply Hinv | split; [| exact Hnodup]].
    intros h Hh Hh'. apply list_elem_of_fmap in Hh' as (x & -> & Hx).
    destruct (inv_called _ _ Hinv _ Hh) as [_ Hnone].
    apply (Hnone x.1 (Harmed x Hx)). reflexivity.
  - intros h Hh. rewrite fmap_app in Hh. apply elem_of_app in Hh as [Hh|Hh].
    + destruct (inv_called _ _ Hinv h Hh) as [Hlt Hnone].
      split; [exact Hlt |]. intros t Ht. apply list_elem_of_filter in Ht as [_ Ht].
      apply Hnone, Ht.
    + rewrite <- list_fmap_compose in Hh.
      apply list_elem_of_fmap in Hh as (x & -> & Hx). cbn.
      destruct (inv_timer _ _ Hinv x.1 (Harmed x Hx)) as (Hres & Hlt & _).
      rewrite Hres. split; [exact Hlt |].
      intros t Ht. apply list_elem_of_filter in Ht as [Hnot _].
      intros Heq. apply Hnot. rewrite Heq.
      apply (list_elem_of_fmap_2 (fun x => Timer.id x.1)), Hx.
Qed.

(** The side conditions of a settlement, for a response and for time. *)
Lemma response_conditions (issued : list string) (b : Broker) (t : Timer.t)
    (response : PermissionResult) :
  broker_inv issued b -> t ∈ timers b ->
  (forall x, x ∈ [(t, response)] -> x.1 ∈ timers b)
  /\ NoDup ((fun x : Timer.t * PermissionResult => Timer.id x.1) <$> [(t, response)])
  /\ (forall t0, t0 ∈ timers b ->
        Timer.id t0 ∉ ((fun x : Timer.t * PermissionResult => Timer.id x.1)
                         <$> [(t, response)]) ->
        (now b < Timer.due t0)%N).
Proof.
  intros Hinv Ht. split; [| split].
  - intros x Hx. apply list_elem_of_singleton in Hx. subst x. exact Ht.
  - apply NoDup_singleton.
  - intros t0 Ht0 _. apply (inv_timer _ _ Hinv t0 Ht0).
Qed.

Lemma elapse_conditions (issued : list string) (b : Broker) (dt : N) :
  broker_inv issued b ->
  let fired :=
    (fun t => (t, timedOut))
      <$> filter (fun t => (Timer.due t <= now b + dt)%N) (timers b) in
  (forall x, x ∈ fired -> x.1 ∈ timers b)
  /\ NoDup ((fun x : Timer.t * PermissionResult => Timer.id x.1) <$> fired)
  /\ (forall t0, t0 ∈ timers b ->
        Timer.id t0 ∉ ((fun x : Timer.t * PermissionResult => Timer.id x.1) <$> fired) ->
        (now b + dt < Timer.due t0)%N).
Proof.
  intros Hinv fired. subst fired. split; [| split].
  - intros x Hx. apply list_elem_of_fmap in Hx as (t & -> & Ht).
    apply list_elem_of_filter in Ht as [_ Ht]. exact Ht.
  - rewrite <- list_fmap_compose.
    apply (sublist_NoDup _ (Timer.id <$> timers b));
      [apply Hinv | apply fmap_sublist, sublist_filter].
  - intros t Ht Hnot.
    destruct (decide (Timer.due t <= now b + dt)%N) as [Hdue|Hdue]; [| lia].
    exfalso. apply Hnot. rewrite <- list_fmap_compose.
    apply (list_elem_of_fmap_2 Timer.id). apply list_elem_of_filter. auto.
Qed.

Lemma broker_inv_issue (issued : list string) (u : string) (b : Broker) :
  broker_inv issued b -> broker_inv (u :: issued) b.
Proof.
  intros Hinv. split; try apply Hinv.
  intros k p Hin.
  destruct (inv_entry _ _ Hinv k p Hin) as (Hshape & Huuid & Hissued & Hrest).
  split; [exact Hshape |]. split; [exact Huuid |]. split; [right; exact Hissued |].
  exact Hrest.
Qed.

Lemma includes_elem_of (xs : list string) (x : string) :
  includes xs x = true <-> x ∈ xs.
Proof.
  induction xs as [|y xs IH]; cbn [includes].
  - split; [discriminate |]. intros H. apply elem_of_nil in H. contradiction.
  - rewrite orb_true_iff, IH, String.eqb_eq, elem_of_cons.
    split; intros [H|H]; auto.
Qed.

(** What a tool call does to the registry. *)
Lemma exec_ToolCall (resume captured : option string) (uuid toolName : string)
    (input : Json) (b : Broker) :
  exec (ToolCall resume captured uuid toolName input) b
  = if isApprovableTool toolName && truthy captured
    then (register (template resume ++ ":" ++ uuid) uuid (or_else captured "") b).2
    else b.
Proof.
  unfold exec, canUseTool, invocation_at. cbn [capturedSessionId].
  destruct (isApprovableTool toolName); [| reflexivity].
  destruct (truthy captured); reflexivity.
Qed.

Lemma exec_Response_inv (issued : list string) (sid rid : string)
    (response : PermissionResult) (b : Broker) :
  broker_inv issued b -> broker_inv issued (exec (Response sid rid response) b).
Proof.
  intros Hinv. cbn [exec].
  destruct (find_pending sid rid (pendingPermissionRequests b)) as [[key p]|] eqn:Hfind.
  - destruct (response_settle issued sid rid response b key p Hinv Hfind)
      as (t & Ht & Hid & Hkey & ->).
    apply settle_inv; [exact Hinv | | |].
    + intros x Hx. apply list_elem_of_singleton in Hx. subst x. exact Ht.
    + apply NoDup_singleton.
    + intros t0 Ht0 _. apply (inv_timer _ _ Hinv t0 Ht0).
  - unfold handlePermissionResponse. rewrite Hfind. exact Hinv.
Qed.

Lemma exec_Elapse_inv (issued : list string) (dt : N) (b : Broker) :
  broker_inv issued b -> broker_inv issued (exec (Elapse dt) b).
Proof.
  intros Hinv. cbn [exec]. rewrite (elapse_settle issued dt b Hinv).
  apply settle_inv; [exact Hinv | | |].
  - intros x Hx. apply list_elem_of_fmap in Hx as (t & -> & Ht).
    apply list_elem_of_filter in Ht as [_ Ht]. exact Ht.
  - rewrite <- list_fmap_compose.
    apply (sublist_NoDup _ (Timer.id <$> timers b));
      [apply Hinv | apply fmap_sublist, sublist_filter].
  - intros t Ht Hnot.
    destruct (decide (Timer.due t <= now b + dt)%N) as [Hdue|Hdue]; [| lia].
    exfalso. apply Hnot. rewrite <- list_fmap_compose.
    apply (list_elem_of_fmap_2 Timer.id). apply list_elem_of_filter. auto.
Qed.

Lemma exec_Fire_inv (issued : list string) (timer : nat) (b : Broker) :
  broker_inv issued b -> broker_inv issued (exec (Fire timer) b).
Proof.
  intros Hinv. cbn [exec]. unfold fire.
  destruct (find_timer timer (timers b)) as [t|] eqn:Hfind; [| exact Hinv].
  destruct (fire_settle issued timer b t Hinv Hfind) as (Ht & _ & Heq).
  unfold fire in Heq. rewrite Hfind in Heq. rewrite Heq.
  destruct (response_conditions issued b t timedOut Hinv Ht)
    as (Harmed & Hnodup & Hlate).
  apply settle_inv; assumption.
Qed.

Lemma exec_inv (issued : list string) (op : BrokerOp) (rest : list BrokerOp)
    (b : Broker) :
  broker_inv issued b -> fresh_uuids issued (op :: rest) = true ->
  broker_inv (issue issued [op]) (exec op b)
  /\ fresh_uuids (issue issued [op]) rest = true.
Proof.
  intros Hinv Hfresh.
  destruct op as [resume captured uuid toolName input | sid rid response | dt | timer];
    cbn [issue fresh_uuids] in *.
  - apply andb_true_iff in Hfresh as [Hfresh Hrest].
    apply andb_true_iff in Hfresh as [Huuid Hnew].
    split; [| exact Hrest]. rewrite exec_ToolCall.
    destruct (isApprovableTool toolName && truthy captured).
    + apply register_inv; [exact Hinv | exact Huuid |].
      intros Hin. apply includes_elem_of in Hin. rewrite Hin in Hnew. discriminate.
    + apply broker_inv_issue, Hinv.
  - split; [apply exec_Response_inv, Hinv | exact Hfresh].
  - split; [apply exec_Elapse_inv, Hinv | exact Hfresh].
  - split; [apply exec_Fire_inv, Hinv | exact Hfresh].
Qed.

Lemma issue_app (issued : list string) (ops ops' : list BrokerOp) :
  issue issued (ops ++ ops') = issue (issue issued ops) ops'.
Proof.
  revert issued. induction ops as [|op ops IH]; intros issued; [reflexivity |].
  destruct op; cbn [app issue]; apply IH.
Qed.

Lemma fresh_uuids_app (issued : list string) (ops ops' : list BrokerOp) :
  fresh_uuids issued (ops ++ ops') = true ->
  fresh_uuids issued ops = true /\ fresh_uuids (issue issued ops) ops' = true.
Proof.
  revert issued. induction ops as [|op ops IH]; intros issued Hfresh; [auto |].
  destruct op as [resume captured uuid toolName input | | |];
    cbn [app issue fresh_uuids] in *; try (apply IH, Hfresh).
  apply andb_true_iff in Hfresh as [Hhead Hrest].
  destruct (IH _ Hrest) as [H1 H2]. rewrite Hhead, H1. auto.
Qed.

Lemma run_inv (issued : list string) (ops : list BrokerOp) (b : Broker) :
  broker_inv issued b -> fresh_uuids issued ops = true ->
  broker_inv (issue issued ops) (run ops b).
Proof.
  revert issued b. induction ops as [|op ops IH]; intros issued b Hinv Hfresh;
    [exact Hinv |].
  destruct (exec_inv issued op ops b Hinv Hfresh) as [Hinv' Hfresh'].
  change (run (op :: ops) b) with (run ops (exec op b)).
  change (issue issued (op :: ops)) with (issue issued ([op] ++ ops)).
  rewrite issue_app. apply IH; assumption.
Qed.

(** *** Calls to resolvers *)

Lemma first_call_app (h : nat) (calls ext : list (nat * PermissionResult)) :
  first_call h (calls ++ ext)
  = match first_call h calls with
    | Some d => Some d
    | None => first_call h ext
    end.
Proof.
  induction calls as [|[h' d'] calls IH]; [reflexivity |].
  cbn [app first_call]. destruct (Nat.eqb h' h); [reflexivity | exact IH].
Qed.

Lemma first_call_None (h : nat) (calls : list (nat * PermissionResult)) :
  h ∉ (fst <$> calls) -> first_call h calls = None.
Proof.
  induction calls as [|[h' d'] calls IH]; [reflexivity |].
  rewrite fmap_cons, not_elem_of_cons. cbn [fst]. intros [Hne Hnot].
  cbn [first_call]. destruct (Nat.eqb_spec h' h); [congruence | apply IH, Hnot].
Qed.

Lemma first_call_unique (h : nat) (d : PermissionResult)
    (calls : list (nat * PermissionResult)) :
  NoDup (fst <$> calls) -> (h, d) ∈ calls -> first_call h calls = Some d.
Proof.
  induction calls as [|[h' d'] calls IH]; intros Hnodup Hin.
  - apply elem_of_nil in Hin. contradiction.
  - rewrite fmap_cons in Hnodup. apply NoDup_cons in Hnodup as [Hhead Hnodup].
    cbn [first_call]. apply elem_of_cons in Hin as [[= <- <-]|Hin].
    + rewrite Nat.eqb_refl. reflexivity.
    + destruct (Nat.eqb_spec h' h) as [->|_]; [| apply IH; assumption].
      exfalso. apply Hhead. apply (list_elem_of_fmap_2 fst _ (h, d)), Hin.
Qed.

Lemma count_calls_none (h : nat) (calls : list (nat * PermissionResult)) :
  h ∉ (fst <$> calls) -> length (filter (fun c => c.1 = h) calls) = 0.
Proof.
  induction calls as [|[h' d'] calls IH]; [reflexivity |].
  rewrite fmap_cons, not_elem_of_cons. cbn [fst]. intros [Hne Hnot].
  rewrite filter_cons. cbn [fst].
  rewrite decide_False by congruence. apply IH, Hnot.
Qed.

Lemma count_calls_one (h : nat) (d : PermissionResult)
    (calls : list (nat * PermissionResult)) :
  NoDup (fst <$> calls) -> (h, d) ∈ calls ->
  length (filter (fun c => c.1 = h) calls) = 1.
Proof.
  induction calls as [|[h' d'] calls IH]; intros Hnodup Hin.
  - apply elem_of_nil in Hin. contradiction.
  - rewrite fmap_cons in Hnodup. apply NoDup_cons in Hnodup as [Hhead Hnodup].
    rewrite filter_cons. cbn [fst] in *.
    apply elem_of_cons in Hin as [[= <- <-]|Hin].
    + rewrite decide_True by reflexivity. cbn [length].
      rewrite count_calls_none by exact Hhead. reflexivity.
    + rewrite decide_False; [apply IH; assumption |].
      intros ->. apply Hhead. apply (list_elem_of_fmap_2 fst _ (h, d)), Hin.
Qed.

Lemma times_resolved_calls (h : nat) (b b' : Broker)
    (ext : list (nat * PermissionResult)) :
  resolverCalls b' = (resolverCalls b ++ ext)%list ->
  times_resolved b' h
  = times_resolved b h + length (filter (fun c => c.1 = h) ext).
Proof.
  intros Hcalls. unfold times_resolved. rewrite Hcalls, filter_app, length_app.
  reflexivity.
Qed.

Lemma find_pending_app_l (sid rid : string) (m m' : list (string * Pending.t))
    (x : string * Pending.t) :
  find_pending sid rid m = Some x -> find_pending sid rid (m ++ m') = Some x.
Proof.
  induction m as [|[k p] m IH]; [discriminate |]. cbn [app find_pending].
  destruct (_ && _); [auto | exact IH].
Qed.

Lemma settled_once_intro (sid rid : string) (h : nat) (b : Broker) :
  times_resolved b h = 1 ->
  (exists d, promise_value b h = Some d) ->
  find_pending sid rid (pendingPermissionRequests b) = None ->
  settled_once sid rid h b.
Proof.
  intros Htimes Hvalue Hfind. repeat (split; [assumption |]).
  intros response. unfold handlePermissionResponse. rewrite Hfind. reflexivity.
Qed.

(** *** One request through a settlement *)

Section Tracking.

Variable issued : list string.
Variable fired : list (Timer.t * PermissionResult).
Variable t' : N.
Variable b : Broker.
Variable sid rid : string.
Variable h : nat.

Hypothesis Hinv : broker_inv issued b.
Hypothesis Harmed : forall x, x ∈ fired -> x.1 ∈ timers b.
Hypothesis Hnodup : NoDup ((fun x => Timer.id x.1) <$> fired).
Hypothesis Hlate :
  forall t, t ∈ timers b ->
    Timer.id t ∉ ((fun x => Timer.id x.1) <$> fired) -> (t' < Timer.due t)%N.

Lemma settle_calls_ids :
  fst <$> ((fun x : Timer.t * PermissionResult => (Timer.resolve x.1, x.2)) <$> fired)
  = (fun x => Timer.id x.1) <$> fired.
Proof.
  rewrite <- list_fmap_compose. apply fmap_ext_in. intros x Hx. cbn.
  apply (inv_timer _ _ Hinv x.1 (Harmed x Hx)).
Qed.

Lemma settle_awaiting_kept (due : N) :
  awaiting sid rid h due b ->
  h ∉ ((fun x => Timer.id x.1) <$> fired) ->
  awaiting sid rid h due (settle fired t' b).
Proof.
  intros (Htimes & Hvalue & (key & p & Hfind & Hres) & (t & Ht & Hid & Hdue)) Hnot.
  pose proof (settle_inv issued fired t' b Hinv Harmed Hnodup Hlate) as Hinv'.
  assert (Hcalls : h ∉ (fst <$> ((fun x : Timer.t * PermissionResult =>
                                    (Timer.resolve x.1, x.2)) <$> fired)))
    by (rewrite settle_calls_ids; exact Hnot).
  split; [| split; [| split]].
  - rewrite (times_resolved_calls h b (settle fired t' b) _ eq_refl), Htimes.
    rewrite count_calls_none by exact Hcalls. reflexivity.
  - unfold promise_value in *. cbn [settle resolverCalls].
    rewrite first_call_app, Hvalue. apply first_call_None, Hcalls.
  - exists key, p. split; [| exact Hres].
    apply find_pending_Some in Hfind as (Hin & Hs & Hr).
    apply find_pending_unique; [apply Hinv' | | exact Hs | exact Hr].
    cbn [settle pendingPermissionRequests]. apply elem_of_delete_keys.
    split; [exact Hin |]. cbn [fst]. intros Hkey.
    apply list_elem_of_fmap in Hkey as (x & Hkey & Hx).
    destruct (inv_timer _ _ Hinv x.1 (Harmed x Hx)) as (_ & _ & _ & p' & Hp' & Hpid').
    rewrite <- Hkey in Hp'.
    assert ((key, p) = (key, p')) as [= <-].
    { apply (NoDup_fmap_eq fst (pendingPermissionRequests b));
        [apply Hinv | assumption | assumption | reflexivity]. }
    apply Hnot. rewrite <- Hres, Hpid'.
    apply (list_elem_of_fmap_2 (fun x => Timer.id x.1)), Hx.
  - exists t. split; [| auto]. cbn [settle timers].
    apply list_elem_of_filter. split; [rewrite Hid; exact Hnot | exact Ht].
Qed.

Lemma settle_awaiting_settled (due : N) (x : Timer.t * PermissionResult) :
  awaiting sid rid h due b ->
  x ∈ fired -> Timer.id x.1 = h ->
  settled_once sid rid h (settle fired t' b)
  /\ promise_value (settle fired t' b) h = Some x.2.
Proof.
  intros (Htimes & Hvalue & (key & p & Hfind & Hres) & _) Hx Hxid.
  assert (Hcall : (h, x.2) ∈ ((fun x : Timer.t * PermissionResult =>
                                 (Timer.resolve x.1, x.2)) <$> fired)).
  { apply list_elem_of_fmap. exists x. split; [| exact Hx].
    destruct (inv_timer _ _ Hinv x.1 (Harmed x Hx)) as (-> & _). rewrite Hxid.
    reflexivity. }
  assert (Hnodup' : NoDup (fst <$> ((fun x : Timer.t * PermissionResult =>
                                       (Timer.resolve x.1, x.2)) <$> fired)))
    by (rewrite settle_calls_ids; exact Hnodup).
  assert (Hval : promise_value (settle fired t' b) h = Some x.2).
  { unfold promise_value in *. cbn [settle resolverCalls].
    rewrite first_call_app, Hvalue. apply first_call_unique; assumption. }
  split; [| exact Hval]. apply settled_once_intro.
  - rewrite (times_resolved_calls h b (settle fired t' b) _ eq_refl), Htimes.
    rewrite (count_calls_one h x.2) by assumption. reflexivity.
  - exists x.2. exact Hval.
  - apply find_pending_None. intros k0 p0 Hin [Hs Hr].
    cbn [settle pendingPermissionRequests] in Hin.
    apply elem_of_delete_keys in Hin as [Hin Hkept]. cbn [fst] in Hkept.
    rewrite (find_pending_unique sid rid _ k0 p0 (inv_requests _ _ Hinv) Hin Hs Hr)
      in Hfind. injection Hfind as -> ->.
    destruct (inv_entry _ _ Hinv key p Hin) as (_ & _ & _ & _ & t & Ht & Hid & Hk).
    assert (t = x.1) as ->.
    { apply (NoDup_fmap_eq Timer.id (timers b)); [apply Hinv | auto | auto | congruence]. }
    apply Hkept. rewrite <- Hk.
    apply (list_elem_of_fmap_2 (fun x => Timer.compositeKey x.1)), Hx.
Qed.

Lemma settle_settled_kept :
  settled_once sid rid h b ->
  settled_once sid rid h (settle fired t' b)
  /\ promise_value (settle fired t' b) h = promise_value b h.
Proof.
  intros (Htimes & (d & Hvalue) & Hfind & _).
  assert (Hcalled : h ∈ (fst <$> resolverCalls b)).
  { destruct (decide (h ∈ (fst <$> resolverCalls b))) as [Hin|Hnot]; [exact Hin |].
    unfold times_resolved in Htimes. rewrite count_calls_none in Htimes by exact Hnot.
    discriminate. }
  assert (Hcalls : h ∉ (fst <$> ((fun x : Timer.t * PermissionResult =>
                                    (Timer.resolve x.1, x.2)) <$> fired))).
  { rewrite settle_calls_ids. intros Hin.
    apply list_elem_of_fmap in Hin as (x & -> & Hx).
    destruct (inv_called _ _ Hinv _ Hcalled) as [_ Hnone].
    apply (Hnone x.1 (Harmed x Hx)). reflexivity. }
  assert (Hval : promise_value (settle fired t' b) h = promise_value b h).
  { unfold promise_value in *. cbn [settle resolverCalls].
    rewrite first_call_app, Hvalue. reflexivity. }
  split; [| exact Hval]. apply settled_once_intro.
  - rewrite (times_resolved_calls h b (settle fired t' b) _ eq_refl), Htimes.
    rewrite count_calls_none by exact Hcalls. reflexivity.
  - exists d. rewrite Hval. exact Hvalue.
  - rewrite find_pending_None in Hfind. apply find_pending_None.
    intros k0 p0 Hin. cbn [settle pendingPermissionRequests] in Hin.
    apply elem_of_delete_keys in Hin as [Hin _]. apply (Hfind k0 p0 Hin).
Qed.

End Tracking.

(** *** One request through one operation *)

Section Request.

Variable sid rid : string.
Variable h : nat.

Lemma register_awaiting (issued : list string) (r u sid' : string) (b : Broker)
    (due : N) :
  broker_inv issued b -> is_uuid u = true -> u ∉ issued ->
  awaiting sid rid h due b ->
  awaiting sid rid h due (register (r ++ ":" ++ u) u sid' b).2.
Proof.
  intros Hinv Huuid Hfresh (Htimes & Hvalue & (key & p & Hfind & Hres) & (t & Ht & Hid)).
  unfold register. cbn [snd].
  rewrite (Map_set_fresh _ _ _ (fresh_key issued r u b Hinv Huuid Hfresh)).
  split; [exact Htimes | split; [exact Hvalue | split]].
  - exists key, p. split; [| exact Hres].
    cbn [pendingPermissionRequests]. apply find_pending_app_l, Hfind.
  - exists t. split; [| exact Hid]. cbn [timers]. apply elem_of_app. left. exact Ht.
Qed.

Lemma register_settled (issued : list string) (r u sid' : string) (b : Broker) :
  broker_inv issued b -> is_uuid u = true -> u ∉ issued -> rid ∈ issued ->
  settled_once sid rid h b ->
  settled_once sid rid h (register (r ++ ":" ++ u) u sid' b).2
  /\ promise_value (register (r ++ ":" ++ u) u sid' b).2 h = promise_value b h.
Proof.
  intros Hinv Huuid Hfresh Hrid (Htimes & Hvalue & Hfind & _).
  split; [| reflexivity]. apply settled_once_intro; [exact Htimes | exact Hvalue |].
  unfold register. cbn [snd pendingPermissionRequests].
  rewrite (Map_set_fresh _ _ _ (fresh_key issued r u b Hinv Huuid Hfresh)).
  rewrite find_pending_None in Hfind. apply find_pending_None.
  intros k0 p0 Hin. apply elem_of_app in Hin as [Hin|Hin]; [apply (Hfind k0 p0 Hin) |].
  apply list_elem_of_singleton in Hin. injection Hin as -> ->. cbn.
  intros [_ ->]. contradiction.
Qed.

Lemma exec_awaiting (issued : list string) (op : BrokerOp) (rest : list BrokerOp)
    (b : Broker) (due : N) :
  broker_inv issued b -> fresh_uuids issued (op :: rest) = true ->
  awaiting sid rid h due b ->
  awaiting sid rid h due (exec op b)
  \/ (settled_once sid rid h (exec op b)
      /\ (promise_value (exec op b) h = Some timedOut
          \/ exists response,
               op = Response sid rid response
               /\ promise_value (exec op b) h = Some response)).
Proof.
  intros Hinv Hfresh Hwait.
  destruct op as [resume captured uuid toolName input | sid' rid' response | dt | timer].
  - left. rewrite exec_ToolCall.
    destruct (isApprovableTool toolName && truthy captured); [| exact Hwait].
    cbn [fresh_uuids] in Hfresh.
    apply andb_true_iff in Hfresh as [Hfresh _].
    apply andb_true_iff in Hfresh as [Huuid Hnew].
    apply (register_awaiting issued); [exact Hinv | exact Huuid | | exact Hwait].
    intros Hin. apply includes_elem_of in Hin. rewrite Hin in Hnew. discriminate.
  - cbn [exec].
    destruct (find_pending sid' rid' (pendingPermissionRequests b))
      as [[key' p']|] eqn:Hfind'.
    2:{ left. unfold handlePermissionResponse. rewrite Hfind'. exact Hwait. }
    destruct (response_settle issued sid' rid' response b key' p' Hinv Hfind')
      as (t' & Ht' & Hid' & Hkey' & ->).
    destruct (response_conditions issued b t' response Hinv Ht')
      as (Harmed & Hnodup & Hlate).
    destruct (decide (Timer.id t' = h)) as [Hsame|Hother].
    + right.
      destruct (settle_awaiting_settled issued _ (now b) b sid rid h Hinv Harmed
                  Hnodup due (t', response) Hwait ltac:(left) Hsame)
        as [Hsettled Hvalue].
      split; [exact Hsettled |].
      right. exists response. split; [| exact Hvalue].
      destruct Hwait as (_ & _ & (key & p & Hfind & Hres) & _).
      apply find_pending_Some in Hfind as (Hin & Hs & Hr).
      apply find_pending_Some in Hfind' as (Hin' & Hs' & Hr').
      destruct (inv_entry _ _ Hinv key p Hin) as (_ & _ & _ & _ & t & Ht & Hid & Hk).
      assert (t = t') as ->.
      { apply (NoDup_fmap_eq Timer.id (timers b));
          [apply Hinv | auto | auto | congruence]. }
      assert ((key, p) = (key', p')) as [= -> ->].
      { apply (NoDup_fmap_eq fst (pendingPermissionRequests b));
          [apply Hinv | assumption | assumption | cbn; congruence]. }
      congruence.
    + left. apply (settle_awaiting_kept issued _ _ b sid rid h Hinv Harmed Hnodup Hlate
                     due Hwait).
      cbn. rewrite list_elem_of_singleton. congruence.
  - cbn [exec]. rewrite (elapse_settle issued dt b Hinv).
    destruct (elapse_conditions issued b dt Hinv) as (Harmed & Hnodup & Hlate).
    set (fired := (fun t => (t, timedOut))
                    <$> filter (fun t => (Timer.due t <= now b + dt)%N) (timers b)) in *.
    destruct (decide (h ∈ ((fun x : Timer.t * PermissionResult => Timer.id x.1)
                             <$> fired))) as [Hin|Hnot].
    + right. apply list_elem_of_fmap in Hin as (x & Hxid & Hx).
      destruct (settle_awaiting_settled issued fired (now b + dt) b sid rid h Hinv
                  Harmed Hnodup due x Hwait Hx (eq_sym Hxid)) as [Hsettled Hvalue].
      split; [exact Hsettled |]. left. rewrite Hvalue.
      apply list_elem_of_fmap in Hx as (t & -> & _). reflexivity.
    + left. apply (settle_awaiting_kept issued fired (now b + dt) b sid rid h Hinv
                     Harmed Hnodup Hlate due Hwait Hnot).
  - cbn [exec].
    destruct (find_timer timer (timers b)) as [t|] eqn:Hfind;
      [| left; unfold fire; rewrite Hfind; exact Hwait].
    destruct (fire_settle issued timer b t Hinv Hfind) as (Ht & Hid & ->).
    destruct (response_conditions issued b t timedOut Hinv Ht)
      as (Harmed & Hnodup & Hlate).
    destruct (decide (Timer.id t = h)) as [Hsame|Hother].
    + right.
      destruct (settle_awaiting_settled issued _ (now b) b sid rid h Hinv Harmed
                  Hnodup due (t, timedOut) Hwait ltac:(left) Hsame)
        as [Hsettled Hvalue].
      split; [exact Hsettled | left; exact Hvalue].
    + left. apply (settle_awaiting_kept issued _ _ b sid rid h Hinv Harmed Hnodup Hlate
                     due Hwait).
      cbn. rewrite list_elem_of_singleton. congruence.
Qed.

Lemma exec_settled (issued : list string) (op : BrokerOp) (rest : list BrokerOp)
    (b : Broker) :
  broker_inv issued b -> fresh_uuids issued (op :: rest) = true ->
  rid ∈ issued ->
  settled_once sid rid h b ->
  settled_once sid rid h (exec op b)
  /\ promise_value (exec op b) h = promise_value b h.
Proof.
  intros Hinv Hfresh Hrid Hdone.
  destruct op as [resume captured uuid toolName input | sid' rid' response | dt | timer].
  - rewrite exec_ToolCall.
    destruct (isApprovableTool toolName && truthy captured); [| auto].
    cbn [fresh_uuids] in Hfresh.
    apply andb_true_iff in Hfresh as [Hfresh _].
    apply andb_true_iff in Hfresh as [Huuid Hnew].
    apply (register_settled issued); [exact Hinv | exact Huuid | | exact Hrid | exact Hdone].
    intros Hin. apply includes_elem_of in Hin. rewrite Hin in Hnew. discriminate.
  - cbn [exec].
    destruct (find_pending sid' rid' (pendingPermissionRequests b))
      as [[key' p']|] eqn:Hfind'.
    2:{ unfold handlePermissionResponse. rewrite Hfind'. auto. }
    destruct (response_settle issued sid' rid' response b key' p' Hinv Hfind')
      as (t' & Ht' & Hid' & Hkey' & ->).
    destruct (response_conditions issued b t' response Hinv Ht')
      as (Harmed & Hnodup & Hlate).
    apply (settle_settled_kept issued _ _ b sid rid h Hinv Harmed Hdone).
  - cbn [exec]. rewrite (elapse_settle issued dt b Hinv).
    destruct (elapse_conditions issued b dt Hinv) as (Harmed & Hnodup & Hlate).
    apply (settle_settled_kept issued _ _ b sid rid h Hinv Harmed Hdone).
  - cbn [exec].
    destruct (find_timer timer (timers b)) as [t|] eqn:Hfind;
      [| unfold fire; rewrite Hfind; auto].
    destruct (fire_settle issued timer b t Hinv Hfind) as (Ht & Hid & ->).
    destruct (response_conditions issued b t timedOut Hinv Ht)
      as (Harmed & Hnodup & Hlate).
    apply (settle_settled_kept issued _ _ b sid rid h Hinv Harmed Hdone).
Qed.

End Request.

(** *** One request through a history *)

Lemma issue_mono (issued : list string) (ops : list BrokerOp) (x : string) :
  x ∈ issued -> x ∈ issue issued ops.
Proof.
  revert issued. induction ops as [|op ops IH]; intros issued Hx; [exact Hx |].
  destruct op; cbn [issue]; apply IH; [right | | |]; exact Hx.
Qed.

Lemma exec_calls_extend (op : BrokerOp) (b : Broker) :
  exists ext, resolverCalls (exec op b) = (resolverCalls b ++ ext)%list.
Proof.
  destruct op as [resume captured uuid toolName input | sid rid response | dt | timer].
  - exists []. rewrite exec_ToolCall, app_nil_r.
    destruct (isApprovableTool toolName && truthy captured); reflexivity.
  - cbn [exec]. unfold handlePermissionResponse.
    destruct (find_pending sid rid (pendingPermissionRequests b)) as [[key p]|].
    + eexists. reflexivity.
    + exists []. rewrite app_nil_r. reflexivity.
  - cbn [exec]. unfold elapse. rewrite timeouts_fold. eexists. reflexivity.
  - cbn [exec]. unfold fire. destruct (find_timer timer (timers b)) as [t|].
    + eexists. reflexivity.
    + exists []. rewrite app_nil_r. reflexivity.
Qed.

Lemma run_calls_extend (ops : list BrokerOp) (b : Broker) :
  exists ext, resolverCalls (run ops b) = (resolverCalls b ++ ext)%list.
Proof.
  revert b. induction ops as [|op ops IH]; intros b.
  - exists []. rewrite app_nil_r. reflexivity.
  - change (run (op :: ops) b) with (run ops (exec op b)).
    destruct (IH (exec op b)) as [ext ->].
    destruct (exec_calls_extend op b) as [ext' ->].
    exists (ext' ++ ext)%list. rewrite app_assoc. reflexivity.
Qed.

(** A decision, once taken, stays. *)
Lemma promise_value_stable (ops : list BrokerOp) (b : Broker) (h : nat)
    (d : PermissionResult) :
  promise_value b h = Some d -> promise_value (run ops b) h = Some d.
Proof.
  unfold promise_value. intros Hvalue.
  destruct (run_calls_extend ops b) as [ext ->].
  rewrite first_call_app, Hvalue. reflexivity.
Qed.

Lemma run_settled (issued : list string) (ops : list BrokerOp) (b : Broker)
    (sid rid : string) (h : nat) :
  broker_inv issued b -> fresh_uuids issued ops = true -> rid ∈ issued ->
  settled_once sid rid h b -> settled_once sid rid h (run ops b).
Proof.
  revert issued b. induction ops as [|op ops IH]; intros issued b Hinv Hfresh Hrid Hdone;
    [exact Hdone |].
  destruct (exec_inv issued op ops b Hinv Hfresh) as [Hinv' Hfresh'].
  change (run (op :: ops) b) with (run ops (exec op b)).
  apply (IH (issue issued [op])); [exact Hinv' | exact Hfresh' | apply issue_mono, Hrid |].
  apply (exec_settled sid rid h issued op ops b Hinv Hfresh Hrid Hdone).
Qed.

(** A waiting request is still waiting after a history, or it was settled
    once, by its timer or by a response of the history addressed to it. *)
Lemma run_track (issued : list string) (ops : list BrokerOp) (b : Broker)
    (sid rid : string) (h : nat) (due : N) :
  broker_inv issued b -> fresh_uuids issued ops = true -> rid ∈ issued ->
  awaiting sid rid h due b ->
  awaiting sid rid h due (run ops b)
  \/ (settled_once sid rid h (run ops b)
      /\ exists d, promise_value (run ops b) h = Some d
                   /\ (d = timedOut \/ Response sid rid d ∈ ops)).
Proof.
  revert issued b. induction ops as [|op ops IH]; intros issued b Hinv Hfresh Hrid Hwait;
    [left; exact Hwait |].
  destruct (exec_inv issued op ops b Hinv Hfresh) as [Hinv' Hfresh'].
  change (run (op :: ops) b) with (run ops (exec op b)).
  pose proof (issue_mono issued [op] rid Hrid) as Hrid'.
  destruct (exec_awaiting sid rid h issued op ops b due Hinv Hfresh Hwait)
    as [Hwait'|[Hdone Hby]].
  - destruct (IH _ _ Hinv' Hfresh' Hrid' Hwait') as [Hw|(Hd & d & Hvalue & Hby)];
      [left; exact Hw | right].
    split; [exact Hd |]. exists d. split; [exact Hvalue |].
    destruct Hby as [->|Hin]; [left; reflexivity | right; right; exact Hin].
  - right. split; [apply (run_settled _ _ _ _ _ _ Hinv' Hfresh' Hrid' Hdone) |].
    destruct Hby as [Hvalue|(response & -> & Hvalue)].
    + exists timedOut. split; [apply promise_value_stable, Hvalue | left; reflexivity].
    + exists response. split; [apply promise_value_stable, Hvalue | right; left].
Qed.

Lemma run_unanswered (issued : list string) (ops : list BrokerOp) (b : Broker)
    (sid rid : string) (h : nat) (due : N) :
  broker_inv issued b -> fresh_uuids issued ops = true -> rid ∈ issued ->
  unanswered sid rid ops = true ->
  awaiting sid rid h due b
  \/ (settled_once sid rid h b /\ promise_value b h = Some timedOut) ->
  awaiting sid rid h due (run ops b)
  \/ (settled_once sid rid h (run ops b)
      /\ promise_value (run ops b) h = Some timedOut).
Proof.
  revert issued b.
  induction ops as [|op ops IH]; intros issued b Hinv Hfresh Hrid Hquiet Hstate;
    [exact Hstate |].
  destruct (exec_inv issued op ops b Hinv Hfresh) as [Hinv' Hfresh'].
  change (run (op :: ops) b) with (run ops (exec op b)).
  assert (Hquiet' : unanswered sid rid ops = true).
  { destruct op; cbn [unanswered] in Hquiet; try exact Hquiet.
    apply andb_true_iff in Hquiet as [_ Hquiet]. exact Hquiet. }
  apply (IH (issue issued [op]));
    [exact Hinv' | exact Hfresh' | apply issue_mono, Hrid | exact Hquiet' |].
  destruct Hstate as [Hwait|[Hdone Hvalue]].
  - destruct (exec_awaiting sid rid h issued op ops b due Hinv Hfresh Hwait)
      as [Hwait'|[Hdone' [Hvalue'|(response & -> & _)]]]; auto.
    exfalso. cbn [unanswered] in Hquiet. rewrite !String.eqb_refl in Hquiet.
    discriminate Hquiet.
  - right.
    destruct (exec_settled sid rid h issued op ops b Hinv Hfresh Hrid Hdone)
      as [Hdone' Hsame].
    split; [exact Hdone' | rewrite Hsame; exact Hvalue].
Qed.

(** What [canUseTool] did when it hands back a pending promise. *)
Lemma canUseTool_suspended (resume captured : option string)
    (uuid toolName : string) (input : Json) (b0 : Broker) (promise : nat) :
  (canUseTool resume uuid toolName input (invocation_at captured b0)).1
  = Suspended promise ->
  isApprovableTool toolName && truthy captured = true
  /\ promise = nextHandle b0
  /\ truthy captured = true.
Proof.
  unfold canUseTool, invocation_at. cbn [capturedSessionId].
  destruct (isApprovableTool toolName); [| discriminate].
  destruct (truthy captured); [| discriminate].
  cbn. intros [= <-]. auto.
Qed.

Lemma register_new_awaiting (issued : list string) (r u sid : string) (b : Broker) :
  broker_inv issued b -> is_uuid u = true -> u ∉ issued ->
  awaiting sid u (nextHandle b) (now b + permissionTimeoutMs)
    (register (r ++ ":" ++ u) u sid b).2.
Proof.
  intros Hinv Huuid Hfresh.
  pose proof (register_inv issued r u sid b Hinv Huuid Hfresh) as Hinv'.
  assert (Hnew : nextHandle b ∉ (fst <$> resolverCalls b)).
  { intros Hin. destruct (inv_called _ _ Hinv _ Hin) as [Hlt _]. lia. }
  split; [| split; [| split]].
  - unfold times_resolved, register. cbn [snd resolverCalls].
    apply count_calls_none, Hnew.
  - unfold promise_value, register. cbn [snd resolverCalls].
    apply first_call_None, Hnew.
  - exists (r ++ ":" ++ u),
      {| Pending.requestId := u; Pending.sessionId := sid;
         Pending.resolve := nextHandle b; Pending.timeout := nextHandle b |}.
    split; [| reflexivity].
    apply find_pending_unique; [apply Hinv' | | reflexivity | reflexivity].
    unfold register. cbn [snd pendingPermissionRequests].
    rewrite (Map_set_fresh _ _ _ (fresh_key issued r u b Hinv Huuid Hfresh)).
    apply elem_of_app. right. left.
  - exists {| Timer.id := nextHandle b;
              Timer.due := (now b + permissionTimeoutMs)%N;
              Timer.compositeKey := r ++ ":" ++ u;
              Timer.resolve := nextHandle b |}.
    split; [| split; reflexivity].
    unfold register. cbn [snd timers]. apply elem_of_app. right. left.
Qed.

(** A request that [canUseTool] has just registered is waiting, in a
    registry that satisfies the invariant. *)
Lemma registered_request (t0 : N) (history future : list BrokerOp)
    (resume captured : option string) (uuid toolName : string) (input : Json)
    (promise : nat) :
  let b0 := run history (Broker_start t0) in
  let call := canUseTool resume uuid toolName input (invocation_at captured b0) in
  fresh_uuids []
    (history ++ ToolCall resume captured uuid toolName input :: future) = true ->
  call.1 = Suspended promise ->
  exists issued,
    broker_inv issued (broker call.2)
    /\ fresh_uuids issued future = true
    /\ uuid ∈ issued
    /\ awaiting (or_else captured "") uuid promise (now b0 + permissionTimeoutMs)
         (broker call.2).
Proof.
  intros b0 call Hfresh Hcall.
  apply fresh_uuids_app in Hfresh as [Hhistory Hrest].
  pose proof (run_inv [] history _ (broker_inv_start t0) Hhistory) as Hinv0.
  fold b0 in Hinv0.
  destruct (exec_inv _ _ _ b0 Hinv0 Hrest) as [Hinv1 Hfresh1].
  cbn [issue] in Hinv1, Hfresh1.
  apply canUseTool_suspended in Hcall as (Hcond & -> & _).
  exists (uuid :: issue [] history).
  change (broker call.2) with (exec (ToolCall resume captured uuid toolName input) b0).
  split; [exact Hinv1 |]. split; [exact Hfresh1 |]. split; [left |].
  rewrite exec_ToolCall, Hcond.
  cbn [fresh_uuids] in Hrest.
  apply andb_true_iff in Hrest as [Hrest _].
  apply andb_true_iff in Hrest as [Huuid Hnew].
  apply (register_new_awaiting (issue [] history)); [exact Hinv0 | exact Huuid |].
  intros Hin. apply includes_elem_of in Hin. rewrite Hin in Hnew. discriminate.
Qed.

(** C3. A pending approval registered by [canUseTool] is settled at most
    once, whatever happens afterwards (tool calls, responses, time passing,
    timers going off, in any order): at every later moment either its
    resolver was never called and its entry is in the registry, or its
    resolver was called exactly once (by its timer, with the timed-out
    denial, or by a response addressed to it, with that response's decision),
    the entry is gone, and every response for its session and request
    identifiers answers [false] and changes nothing; and a decision, once
    taken, is the promise's value ever after. Request identifiers are UUIDs
    that are drawn once. *)
Theorem pending_approval_settled_once
    (t0 : N) (history future : list BrokerOp)
    (resume captured : option string) (uuid toolName : string) (input : Json)
    (promise : nat) :
  let b0 := run history (Broker_start t0) in
  let call := canUseTool resume uuid toolName input (invocation_at captured b0) in
  let sessionId := or_else captured "" in
  let b := run future (broker call.2) in
  fresh_uuids []
    (history ++ ToolCall resume captured uuid toolName input :: future) = true ->
  call.1 = Suspended promise ->
  times_resolved b promise <= 1
  /\ ((times_resolved b promise = 0
       /\ promise_value b promise = None
       /\ exists key p,
            find_pending sessionId uuid (pendingPermissionRequests b) = Some (key, p)
            /\ Pending.resolve p = promise)
      \/ (times_resolved b promise = 1
          /\ (exists d,
                promise_value b promise = Some d
                /\ (d = Deny "Permission request timed out"
                    \/ Response sessionId uuid d ∈ future))
          /\ find_pending sessionId uuid (pendingPermissionRequests b) = None
          /\ forall response,
               handlePermissionResponse sessionId uuid response b = (false, b)))
  /\ forall (more : list BrokerOp) (d : PermissionResult),
       promise_value b promise = Some d ->
       promise_value (run more b) promise = Some d.
Proof.
  intros b0 call sessionId b Hfresh Hcall.
  destruct (registered_request t0 history future resume captured uuid toolName
              input promise Hfresh Hcall)
    as (issued & Hinv & Hfuture & Hissued & Hwait).
  fold b0 call in Hinv, Hwait.
  pose proof (run_track issued future (broker call.2) sessionId uuid promise
                (now b0 + permissionTimeoutMs) Hinv Hfuture Hissued Hwait) as Hstate.
  fold b in Hstate.
  split; [| split].
  - destruct Hstate as [(-> & _)|[(-> & _) _]]; lia.
  - destruct Hstate as [(Htimes & Hvalue & Hentry & _)|[Hdone Hby]]; [left | right].
    + auto.
    + destruct Hdone as (Htimes & _ & Hfind & Hfalse). auto.
  - intros more d. apply promise_value_stable.
Qed.

Lemma pending_approval_settled_once_witness :
  let uuid := "123e4567-e89b-42d3-a456-426614174000" in
  let future :=
    [ Response "s1" uuid (Allow JNull); Fire 0; Elapse 100000;
      Response "s1" uuid (Deny "late") ] in
  let call :=
    canUseTool (Some "s1") uuid "Bash" JNull
      (invocation_at (Some "s1") (Broker_start 0)) in
  let b := run future (broker call.2) in
  (fresh_uuids [] ([] ++ ToolCall (Some "s1") (Some "s1") uuid "Bash" JNull :: future)
   = true
   /\ call.1 = Suspended 0)
  /\ times_resolved b 0 <= 1
  /\ ((times_resolved b 0 = 0
       /\ promise_value b 0 = None
       /\ exists key p,
            find_pending "s1" uuid (pendingPermissionRequests b) = Some (key, p)
            /\ Pending.resolve p = 0)
      \/ (times_resolved b 0 = 1
          /\ (exists d,
                promise_value b 0 = Some d
                /\ (d = Deny "Permission request timed out"
                    \/ Response "s1" uuid d ∈ future))
          /\ find_pending "s1" uuid (pendingPermissionRequests b) = None
          /\ forall response,
               handlePermissionResponse "s1" uuid response b = (false, b)))
  /\ forall (more : list BrokerOp) (d : PermissionResult),
       promise_value b 0 = Some d -> promise_value (run more b) 0 = Some d.
Proof.
  intros uuid future call b.
  split; [split; reflexivity |].
  apply (pending_approval_settled_once 0 [] future (Some "s1") (Some "s1") uuid
           "Bash" JNull 0); reflexivity.
Defined.

(** C4. A pending approval that no response addresses within the window is
    denied by its own timer: if no response names its session and request
    identifiers until the clock has reached the time of registration plus
    100000 milliseconds, then from that moment on, whatever follows, the
    promise holds the deny decision with the message "Permission request
    timed out", its resolver was called once, the entry is gone from the
    registry, and every response for these identifiers answers [false] and
    changes nothing. *)
Theorem unanswered_approval_times_out
    (t0 : N) (history within after : list BrokerOp)
    (resume captured : option string) (uuid toolName : string) (input : Json)
    (promise : nat) :
  let b0 := run history (Broker_start t0) in
  let call := canUseTool resume uuid toolName input (invocation_at captured b0) in
  let sessionId := or_else captured "" in
  let b := run after (run within (broker call.2)) in
  fresh_uuids []
    (history ++ ToolCall resume captured uuid toolName input :: within ++ after)
  = true ->
  call.1 = Suspended promise ->
  unanswered sessionId uuid within = true ->
  (now b0 + 100000 <= now (run within (broker call.2)))%N ->
  promise_value b promise = Some (Deny "Permission request timed out")
  /\ times_resolved b promise = 1
  /\ find_pending sessionId uuid (pendingPermissionRequests b) = None
  /\ forall response,
       handlePermissionResponse sessionId uuid response b = (false, b).
Proof.
  intros b0 call sessionId b Hfresh Hcall Hquiet Hlate.
  destruct (registered_request t0 history (within ++ after) resume captured uuid
              toolName input promise Hfresh Hcall)
    as (issued & Hinv & Hfuture & Hissued & Hwait).
  fold b0 call in Hinv, Hwait.
  apply fresh_uuids_app in Hfuture as [Hwithin Hafter].
  pose proof (run_inv issued within _ Hinv Hwithin) as Hinv'.
  destruct (run_unanswered issued within (broker call.2) sessionId uuid promise
              (now b0 + permissionTimeoutMs) Hinv Hwithin Hissued Hquiet
              (or_introl Hwait))
    as [(_ & _ & _ & (t & Ht & _ & Hdue))|[Hdone Hvalue]].
  - exfalso.
    destruct (inv_timer _ _ Hinv' t Ht) as (_ & _ & Hnow & _).
    unfold permissionTimeoutMs in Hdue. lia.
  - pose proof (run_settled (issue issued within) after _ sessionId uuid promise
                  Hinv' Hafter (issue_mono _ _ _ Hissued) Hdone)
      as (Htimes & _ & Hfind & Hfalse).
    fold b in Htimes, Hfind, Hfalse.
    split; [| auto]. apply promise_value_stable, Hvalue.
Qed.

Lemma unanswered_approval_times_out_witness :
  let uuid := "123e4567-e89b-42d3-a456-426614174000" in
  let other := "9b2f0c1e-7a44-4d1b-8c55-0f3a6e2d9b10" in
  let within :=
    [ Elapse 60000; ToolCall (Some "s2") (Some "s2") other "Write" JNull;
      Response "s2" other (Allow JNull); Elapse 40000 ] in
  let after := [ Response "s1" uuid (Allow JNull); Elapse 1 ] in
  let call :=
    canUseTool (Some "s1") uuid "Bash" JNull
      (invocation_at (Some "s1") (Broker_start 5)) in
  let b := run after (run within (broker call.2)) in
  (fresh_uuids []
     ([] ++ ToolCall (Some "s1") (Some "s1") uuid "Bash" JNull :: within ++ after)
   = true
   /\ call.1 = Suspended 0
   /\ unanswered "s1" uuid within = true
   /\ (now (run [] (Broker_start 5)) + 100000 <= now (run within (broker call.2)))%N)
  /\ promise_value b 0 = Some (Deny "Permission request timed out")
  /\ times_resolved b 0 = 1
  /\ find_pending "s1" uuid (pendingPermissionRequests b) = None
  /\ forall response, handlePermissionResponse "s1" uuid response b = (false, b).
Proof.
  intros uuid other within after call b.
  split; [repeat split; vm_compute; congruence |].
  apply (unanswered_approval_times_out 5 [] within after (Some "s1") (Some "s1") uuid
           "Bash" JNull 0); vm_compute; congruence.
Defined.

(** * Further properties *)

(** ** What one step of the engine makes the invocation send *)

Lemma received_send (m : WebSocketMessage.t) (st : Invocation) :
  received (output (send m st)) = (received (output st) ++ [m])%list.
Proof. unfold received, send, sendMessage; cbn [output]. apply map_app. Qed.

Lemma count_type_app (ty : MessageType) (l k : list WebSocketMessage.t) :
  count_type ty (l ++ k) = count_type ty l + count_type ty k.
Proof. unfold count_type. rewrite filter_app, length_app. reflexivity. Qed.

Lemma count_type_notices (ty : MessageType) (l : list WebSocketMessage.t) :
  Forall is_notice l -> ty <> session_created -> ty <> permission_request ->
  count_type ty l = 0.
Proof.
  intros Hall Hc Hp. unfold count_type.
  induction Hall as [|m l [Hm|Hm] _ IH]; [reflexivity | |];
    rewrite filter_cons, decide_False by congruence; exact IH.
Qed.

Lemma response_payloads_app (l k : list WebSocketMessage.t) :
  response_payloads (l ++ k) = (response_payloads l ++ response_payloads k)%list.
Proof. apply omap_app. Qed.

Lemma response_payloads_notices (l : list WebSocketMessage.t) :
  Forall is_notice l -> response_payloads l = [].
Proof.
  intros Hall. unfold response_payloads.
  induction Hall as [|m l Hm _ IH]; [reflexivity |].
  cbn [omap list_omap]. fold (omap (fun m =>
    if bool_decide (WebSocketMessage.type m = claude_response)
    then WebSocketMessage.data m else None) l).
  rewrite bool_decide_eq_false_2 by (destruct Hm as [-> | ->]; discriminate).
  exact IH.
Qed.

Lemma observed_exit_code_app (l k : list WebSocketMessage.t) :
  observed_exit_code (l ++ k)
  = match observed_exit_code k with
    | Some code => Some code
    | None => observed_exit_code l
    end.
Proof.
  induction k as [|m k IH] using rev_ind.
  - rewrite app_nil_r. reflexivity.
  - rewrite app_assoc, !observed_exit_code_snoc, IH.
    destruct (bool_decide _); reflexivity.
Qed.

Lemma observed_exit_code_notices (l : list WebSocketMessage.t) :
  Forall is_notice l -> observed_exit_code l = None.
Proof.
  induction l as [|m l IH] using rev_ind; [reflexivity |].
  intros Hall. apply Forall_app in Hall as [Hl Hm]. apply Forall_inv in Hm.
  rewrite observed_exit_code_snoc.
  rewrite bool_decide_eq_false_2 by (destruct Hm as [-> | ->]; discriminate).
  apply IH, Hl.
Qed.

Lemma forward_emits (m : SDKMessage) (st : Invocation) :
  received (output (forward m st))
  = (received (output st)
     ++ ((fun d => response d st) <$> payloads_of (Yield m)))%list
  /\ capturedSessionId (forward m st) = capturedSessionId st
  /\ registry (forward m st) = registry st
  /\ broker (forward m st) = broker st.
Proof.
  unfold forward, convert, payloads_of.
  destruct m as [[content|] sid | [[s|[|first rest]]|] sid | | |];
    try (rewrite app_nil_r; auto).
  - destruct (content_truthy content);
      rewrite ?received_send, <- ?app_assoc; auto.
  - destruct (String.eqb (block_type first) "tool_result");
      rewrite received_send; auto.
Qed.

Lemma move_controller_broker (processKey : string) (controller : nat)
    (st : Invocation) :
  broker (move_controller processKey controller st) = broker st.
Proof.
  unfold move_controller. destruct (capturedSessionId st) as [sid|]; [| reflexivity].
  destruct (negb (String.eqb processKey sid) && truthy (Some sid)); reflexivity.
Qed.

Lemma handle_init_emits (processKey : string) (controller : nat)
    (m : SDKMessage) (st : Invocation) :
  exists notices,
    received (output (handle_init processKey controller m st))
    = (received (output st) ++ notices)%list
    /\ Forall is_notice notices
    /\ broker (handle_init processKey controller m st) = broker st.
Proof.
  unfold handle_init.
  assert (Hnone : exists notices,
            received (output st) = (received (output st) ++ notices)%list
            /\ Forall is_notice notices /\ broker st = broker st).
  { exists []. rewrite app_nil_r. auto. }
  destruct m as [| | |subtype sdkSessionId|]; try exact Hnone.
  destruct (String.eqb subtype "init"); [| exact Hnone].
  destruct (truthy sdkSessionId && bool_decide (sdkSessionId <> capturedSessionId st)).
  - unfold announce.
    destruct (move_controller_same processKey controller
                (with_captured sdkSessionId st)) as (Hout & _ & _).
    pose proof (move_controller_broker processKey controller
                  (with_captured sdkSessionId st)) as Hbroker.
    cbn [with_captured output broker] in Hout, Hbroker.
    destruct (negb _).
    + eexists [_]. rewrite received_send.
      cbn [with_sessionCreatedSent output send broker]. rewrite Hout, Hbroker.
      split; [reflexivity |].
      split; [apply Forall_singleton; left; reflexivity | reflexivity].
    + exists []. rewrite Hout, Hbroker, app_nil_r. auto.
  - destruct (truthy sdkSessionId); exact Hnone.
Qed.

(** One step of the engine adds to the sink, in this order: the responses
    the event is turned into, notices, and for a result event one completion
    with the exit code of its subtype. *)
Lemma engine_step_emits (resume : option string) (processKey command : string)
    (controller : nat) (s : EngineStep) (st : Invocation) :
  exists notices done,
    received (output (engine_step resume processKey command controller s st))
    = (received (output st)
       ++ ((fun d => response d st) <$> payloads_of s) ++ notices ++ done)%list
    /\ Forall is_notice notices
    /\ match result_subtype s with
       | Some subtype =>
           exists m, done = [m]
                     /\ WebSocketMessage.type m = claude_complete
                     /\ WebSocketMessage.exitCode m = Some (exit_code_of subtype)
       | None => done = []
       end.
Proof.
  destruct s as [m | uuid toolName input]; cbn [engine_step].
  - unfold on_message.
    destruct (forward_emits m st) as (Hfw & _).
    destruct (handle_init_emits processKey controller m (forward m st))
      as (notices & Hinit & Hnotices & _).
    rewrite Hfw in Hinit.
    assert (Hquiet :
      handle_result command processKey m
        (handle_init processKey controller m (forward m st))
      = handle_init processKey controller m (forward m st) ->
      result_subtype (Yield m) = None ->
      exists notices0 done,
        received (output (handle_result command processKey m
                            (handle_init processKey controller m (forward m st))))
        = (received (output st)
           ++ ((fun d => response d st) <$> payloads_of (Yield m))
           ++ notices0 ++ done)%list
        /\ Forall is_notice notices0
        /\ match result_subtype (Yield m) with
           | Some subtype =>
               exists m0, done = [m0]
                          /\ WebSocketMessage.type m0 = claude_complete
                          /\ WebSocketMessage.exitCode m0 = Some (exit_code_of subtype)
           | None => done = []
           end).
    { intros -> ->. exists notices, []. rewrite Hinit, app_nil_r, <- app_assoc. auto. }
    destruct m as [message sid | message sid | subtype sid | subtype sid | ty];
      try (apply Hquiet; reflexivity).
    eexists notices, [_]. cbn [handle_result result_subtype].
    rewrite received_send. cbn [with_registry output].
    rewrite Hinit, <- !app_assoc. split; [reflexivity |].
    split; [exact Hnotices |]. eexists. split; [reflexivity |].
    split; reflexivity.
  - cbn [payloads_of result_subtype fmap list_fmap app]. unfold canUseTool.
    destruct (isApprovableTool toolName);
      [| exists [], []; rewrite app_nil_r; auto].
    destruct (negb (truthy (capturedSessionId st)));
      [exists [], []; rewrite app_nil_r; auto |].
    unfold register. cbn [snd with_broker output].
    eexists [_], []. rewrite received_send, app_nil_r.
    split; [reflexivity |]. split; [| reflexivity].
    apply Forall_singleton. right. reflexivity.
Qed.

Lemma response_payloads_responses (ds : list Data) (st : Invocation) :
  response_payloads ((fun d => response d st) <$> ds) = ds.
Proof.
  induction ds as [|d ds IH]; [reflexivity |].
  rewrite fmap_cons. unfold response_payloads in *. cbn [omap list_omap].
  cbn [response WebSocketMessage.type WebSocketMessage.data].
  rewrite bool_decide_eq_true_2 by reflexivity. f_equal. exact IH.
Qed.

Lemma count_type_responses (ty : MessageType) (ds : list Data) (st : Invocation) :
  ty <> claude_response ->
  count_type ty ((fun d => response d st) <$> ds) = 0.
Proof.
  intros Hty. unfold count_type.
  induction ds as [|d ds IH]; [reflexivity |].
  rewrite fmap_cons, filter_cons, decide_False by (cbn; congruence). exact IH.
Qed.

Lemma observed_exit_code_responses (ds : list Data) (st : Invocation) :
  observed_exit_code ((fun d => response d st) <$> ds) = None.
Proof.
  induction ds as [|d ds IH] using rev_ind; [reflexivity |].
  rewrite fmap_app. cbn [fmap list_fmap]. rewrite observed_exit_code_snoc.
  rewrite bool_decide_eq_false_2 by discriminate. exact IH.
Qed.

Section RunEmits.

Variable command : string.
Variable resume : option string.
Variable env : Env.t.

Lemma run_loop_cons (s : EngineStep) (steps : list EngineStep) (st : Invocation) :
  run_loop command resume env (s :: steps) st
  = run_loop command resume env steps
      (engine_step resume (processKey_of resume env) command (Env.controller env) s st).
Proof. reflexivity. Qed.

Lemma run_loop_payloads (steps : list EngineStep) (st : Invocation) :
  response_payloads (received (output (run_loop command resume env steps st)))
  = (response_payloads (received (output st)) ++ flat_map payloads_of steps)%list.
Proof.
  revert st. induction steps as [|s steps IH]; intros st.
  - cbn. rewrite app_nil_r. reflexivity.
  - rewrite run_loop_cons, IH.
    destruct (engine_step_emits resume (processKey_of resume env) command
                (Env.controller env) s st) as (notices & done & -> & Hnotices & Hdone).
    rewrite !response_payloads_app, response_payloads_responses,
      (response_payloads_notices notices Hnotices).
    assert (response_payloads done = []) as ->.
    { destruct (result_subtype s); [| subst done; reflexivity].
      destruct Hdone as (m & -> & Hty & _). unfold response_payloads.
      cbn [omap list_omap]. rewrite Hty. reflexivity. }
    cbn [flat_map app]. rewrite app_nil_r, <- app_assoc. reflexivity.
Qed.

Lemma run_loop_count (ty : MessageType) (steps : list EngineStep) (st : Invocation) :
  ty = claude_complete \/ ty = claude_error ->
  count_type ty (received (output (run_loop command resume env steps st)))
  = count_type ty (received (output st))
    + (if decide (ty = claude_complete) then length (results steps) else 0).
Proof.
  intros Hty. revert st. induction steps as [|s steps IH]; intros st.
  - cbn. destruct (decide _); lia.
  - rewrite run_loop_cons, IH.
    destruct (engine_step_emits resume (processKey_of resume env) command
                (Env.controller env) s st) as (notices & done & -> & Hnotices & Hdone).
    rewrite !count_type_app.
    rewrite count_type_responses by (destruct Hty as [-> | ->]; discriminate).
    rewrite (count_type_notices ty notices Hnotices)
      by (destruct Hty as [-> | ->]; discriminate).
    unfold results. cbn [omap list_omap].
    fold (omap result_subtype steps).
    destruct (result_subtype s) as [subtype|].
    + destruct Hdone as (m & -> & Hm & _). unfold count_type at 2.
      rewrite filter_cons, filter_nil, Hm.
      destruct (decide (ty = claude_complete)) as [->|Hne].
      * rewrite decide_True by reflexivity. cbn [length]. lia.
      * rewrite decide_False by congruence. cbn [length]. lia.
    + subst done. cbn. destruct (decide _); lia.
Qed.

Lemma run_loop_observed (steps : list EngineStep) (st : Invocation) :
  observed_exit_code (received (output (run_loop command resume env steps st)))
  = match last (results steps) with
    | Some subtype => Some (exit_code_of subtype)
    | None => observed_exit_code (received (output st))
    end.
Proof.
  revert st. induction steps as [|s steps IH]; intros st; [reflexivity |].
  rewrite run_loop_cons, IH.
  destruct (engine_step_emits resume (processKey_of resume env) command
              (Env.controller env) s st) as (notices & done & -> & Hnotices & Hdone).
  unfold results. cbn [omap list_omap]. fold (omap result_subtype steps).
  fold (results steps).
  rewrite !observed_exit_code_app, observed_exit_code_responses,
    (observed_exit_code_notices notices Hnotices).
  destruct (result_subtype s) as [subtype|].
  - rewrite last_cons. destruct (last (results steps)); [reflexivity |].
    destruct Hdone as (m & -> & Hty & Hcode).
    unfold observed_exit_code. cbn [fold_left]. rewrite Hty, Hcode. reflexivity.
  - subst done. destruct (last (results steps)); reflexivity.
Qed.

End RunEmits.

Lemma on_failure_emits (command : string) (env : Env.t) (error : Error.t)
    (st : Invocation) :
  exists e c,
    received (output (on_failure command env error st))
    = (received (output st) ++ [e; c])%list
    /\ WebSocketMessage.type e = claude_error
    /\ WebSocketMessage.error e
       = Some (or_else (Error.message error) "Unknown error occurred")
    /\ WebSocketMessage.type c = claude_complete
    /\ WebSocketMessage.exitCode c = Some 1%Z.
Proof.
  unfold on_failure. eexists _, _. rewrite !received_send, <- app_assoc.
  split; [reflexivity |]. repeat split.
Qed.

(** ** The sink of one invocation, read against the engine's stream *)

(** X1. An invocation sends one [claude-complete] for each result event of
    the stream, and one more when the stream fails; it sends one
    [claude-error] when the stream fails and none otherwise. A stream that
    ends without a result event is followed by no completion at all. *)
Theorem completions_follow_results
    (command : string) (resume : option string) (env : Env.t)
    (engine : Engine.t) (r : Registry) (b : Broker) :
  let sent := received (output (spawnClaude command resume env engine r b []).2) in
  let failed := match Engine.failure engine with Some _ => 1 | None => 0 end in
  Env.loggerFailure env = None ->
  count_type claude_complete sent = length (results (Engine.steps engine)) + failed
  /\ count_type claude_error sent = failed.
Proof.
  intros sent failed Hlogger. subst sent failed. unfold spawnClaude. rewrite Hlogger.
  pose proof (run_loop_count command resume env claude_complete (Engine.steps engine)
                (loop_start resume env r b []) (or_introl eq_refl)) as Hcomplete.
  pose proof (run_loop_count command resume env claude_error (Engine.steps engine)
                (loop_start resume env r b []) (or_intror eq_refl)) as Herror.
  rewrite decide_True in Hcomplete by reflexivity.
  rewrite decide_False in Herror by discriminate.
  cbn [loop_start output received map] in Hcomplete, Herror.
  change (count_type claude_complete []) with 0 in Hcomplete.
  change (count_type claude_error []) with 0 in Herror.
  destruct (Engine.failure engine) as [error|]; cbn [snd].
  - destruct (on_failure_emits command env error
                (run_loop command resume env (Engine.steps engine)
                   (loop_start resume env r b [])))
      as (e & c & -> & He & _ & Hc & _).
    rewrite !count_type_app, Hcomplete, Herror. unfold count_type.
    rewrite !filter_cons, !filter_nil, He, Hc.
    rewrite (decide_False (P := claude_error = claude_complete)) by discriminate.
    rewrite (decide_True (P := claude_complete = claude_complete)) by reflexivity.
    rewrite (decide_True (P := claude_error = claude_error)) by reflexivity.
    rewrite (decide_False (P := claude_complete = claude_error)) by discriminate.
    cbn [length]. lia.
  - rewrite Hcomplete, Herror. lia.
Qed.

Lemma completions_follow_results_witness :
  let engine := {| Engine.steps := sample_steps; Engine.failure := Some sample_error |} in
  let sent :=
    received (output (spawnClaude "hello" None sample_env engine no_controllers
                        (Broker_start 0) []).2) in
  Env.loggerFailure sample_env = None
  /\ count_type claude_complete sent = length (results sample_steps) + 1
  /\ count_type claude_error sent = 1.
Proof.
  intros engine sent. split; [reflexivity |].
  apply (completions_follow_results "hello" None sample_env engine no_controllers
           (Broker_start 0)); reflexivity.
Defined.

(** X2. The data of the [claude-response] messages an invocation sends are,
    in order, what each event of the stream is turned into: for an assistant
    turn its converted form followed by its bare content (the latter only if
    truthy), for a user turn with a non-empty array one tool result, and
    nothing for any other event, for a tool call or for the way the stream
    ends. They do not depend on the session, the registries or the prompt. *)
Theorem responses_follow_events
    (command : string) (resume : option string) (env : Env.t)
    (engine : Engine.t) (r : Registry) (b : Broker) :
  Env.loggerFailure env = None ->
  response_payloads
    (received (output (spawnClaude command resume env engine r b []).2))
  = flat_map payloads_of (Engine.steps engine).
Proof.
  intros Hlogger. unfold spawnClaude. rewrite Hlogger.
  pose proof (run_loop_payloads command resume env (Engine.steps engine)
                (loop_start resume env r b [])) as Hloop.
  cbn [loop_start output received map] in Hloop.
  change (response_payloads []) with (@nil Data) in Hloop. cbn [app] in Hloop.
  destruct (Engine.failure engine) as [error|]; cbn [snd]; [| exact Hloop].
  destruct (on_failure_emits command env error
              (run_loop command resume env (Engine.steps engine)
                 (loop_start resume env r b [])))
    as (e & c & -> & He & _ & Hc & _).
  rewrite response_payloads_app, Hloop. unfold response_payloads at 1.
  cbn [omap list_omap]. rewrite He, Hc. cbn. apply app_nil_r.
Qed.

Lemma responses_follow_events_witness :
  let engine := {| Engine.steps := sample_steps; Engine.failure := None |} in
  Env.loggerFailure sample_env = None
  /\ response_payloads
       (received (output (spawnClaude "hello" (Some "s0") sample_env engine
                            no_controllers (Broker_start 0) []).2))
     = flat_map payloads_of sample_steps.
Proof.
  intros engine. split; [reflexivity |].
  apply (responses_follow_events "hello" (Some "s0") sample_env engine
           no_controllers (Broker_start 0)); reflexivity.
Defined.

(** ** The session identifier an invocation ends with *)

Lemma handle_result_same (command processKey : string) (m : SDKMessage)
    (st : Invocation) :
  capturedSessionId (handle_result command processKey m st) = capturedSessionId st
  /\ sessionCreatedSent (handle_result command processKey m st) = sessionCreatedSent st
  /\ broker (handle_result command processKey m st) = broker st
  /\ registry (handle_result command processKey m st)
     = match m with
       | SDKResultMessage _ _ =>
           controllers_delete (or_else (capturedSessionId st) processKey) (registry st)
       | _ => registry st
       end.
Proof. unfold handle_result. destruct m; auto. Qed.

Lemma canUseTool_same (resume : option string) (uuid toolName : string)
    (input : Json) (st : Invocation) :
  capturedSessionId (canUseTool resume uuid toolName input st).2 = capturedSessionId st
  /\ sessionCreatedSent (canUseTool resume uuid toolName input st).2
     = sessionCreatedSent st
  /\ registry (canUseTool resume uuid toolName input st).2 = registry st.
Proof.
  unfold canUseTool. destruct (isApprovableTool toolName); [| auto].
  destruct (negb (truthy (capturedSessionId st))); auto.
Qed.

Lemma handle_init_captured (processKey : string) (controller : nat)
    (m : SDKMessage) (st : Invocation) :
  capturedSessionId (handle_init processKey controller m st)
  = match reported_id (Yield m) with
    | Some sid => Some sid
    | None => capturedSessionId st
    end.
Proof.
  unfold handle_init, reported_id.
  destruct m as [| | |subtype [sid|]|]; try reflexivity.
  - destruct (String.eqb subtype "init"); [| reflexivity].
    cbn [truthy andb]. destruct (negb (String.eqb sid "")); [| reflexivity].
    cbn [andb]. destruct (bool_decide _); [| reflexivity].
    destruct (announce_same (move_controller processKey controller
                               (with_captured (Some sid) st))) as [-> _].
    apply move_controller_same.
  - destruct (String.eqb subtype "init"); reflexivity.
Qed.

Lemma engine_step_captured (resume : option string) (processKey command : string)
    (controller : nat) (s : EngineStep) (st : Invocation) :
  capturedSessionId (engine_step resume processKey command controller s st)
  = match reported_id s with
    | Some sid => Some sid
    | None => capturedSessionId st
    end.
Proof.
  destruct s as [m | uuid toolName input]; cbn [engine_step].
  - unfold on_message.
    destruct (handle_result_same command processKey m
                (handle_init processKey controller m (forward m st))) as [-> _].
    rewrite handle_init_captured.
    destruct (forward_emits m st) as (_ & -> & _). reflexivity.
  - apply canUseTool_same.
Qed.

Lemma run_loop_captured (command : string) (resume : option string) (env : Env.t)
    (steps : list EngineStep) (st : Invocation) :
  capturedSessionId (run_loop command resume env steps st)
  = match last (reported_ids steps) with
    | Some sid => Some sid
    | None => capturedSessionId st
    end.
Proof.
  revert st. induction steps as [|s steps IH]; intros st; [reflexivity |].
  rewrite run_loop_cons, IH, engine_step_captured.
  unfold reported_ids. cbn [omap list_omap]. fold (omap reported_id steps).
  destruct (reported_id s) as [sid|]; [| reflexivity].
  rewrite last_cons. destruct (last (omap reported_id steps)); reflexivity.
Qed.

(** X3. The session identifier an invocation ends with is the one of the last
    init event that carried a non-empty identifier, or [options.resume] when
    there was none; when the stream ends normally this is the value returned.
    Tool calls, other events and the registries have no part in it. *)
Theorem returned_session_is_last_reported
    (command : string) (resume : option string) (env : Env.t)
    (engine : Engine.t) (r : Registry) (b : Broker) :
  let result := spawnClaude command resume env engine r b [] in
  let final :=
    match last (reported_ids (Engine.steps engine)) with
    | Some sid => Some sid
    | None => resume
    end in
  Env.loggerFailure env = None ->
  capturedSessionId result.2 = final
  /\ (Engine.failure engine = None -> result.1 = Returned final).
Proof.
  intros result final Hlogger. subst result final. unfold spawnClaude.
  rewrite Hlogger.
  pose proof (run_loop_captured command resume env (Engine.steps engine)
                (loop_start resume env r b [])) as Hloop.
  cbn [loop_start capturedSessionId] in Hloop.
  destruct (Engine.failure engine) as [error|]; cbn [fst snd].
  - split; [| discriminate]. unfold on_failure. cbn [send with_registry capturedSessionId].
    exact Hloop.
  - split; [exact Hloop |]. intros _. rewrite Hloop. reflexivity.
Qed.

Lemma returned_session_is_last_reported_witness :
  let steps :=
    [ Yield (SDKSystemMessage "init" (Some "s1"));
      Yield (SDKSystemMessage "status" (Some "s9"));
      Yield (SDKSystemMessage "init" (Some ""));
      Yield (SDKResultMessage "success" (Some "s7")) ] in
  let engine := {| Engine.steps := steps; Engine.failure := None |} in
  let result :=
    spawnClaude "hello" (Some "s0") sample_env engine no_controllers (Broker_start 0) [] in
  Env.loggerFailure sample_env = None
  /\ capturedSessionId result.2 = Some "s1"
  /\ (Engine.failure engine = None -> result.1 = Returned (Some "s1")).
Proof.
  intros steps engine result. split; [reflexivity |].
  apply (returned_session_is_last_reported "hello" (Some "s0") sample_env engine
           no_controllers (Broker_start 0)); reflexivity.
Defined.

(** ** [abortClaudeSession] *)

(** X4. An abort answers [true] exactly when a controller is registered
    under the identifier; it then calls that controller's [abort] once and
    unregisters it, so that a second abort with the same identifier answers
    [false] and changes nothing. Registrations under other identifiers are
    never touched. *)
Theorem abort_once (sessionId : string) (r : Registry) :
  let first := abortClaudeSession sessionId r in
  (first.1 = true <-> is_Some (activeClaudeControllers r !! sessionId))
  /\ abortCalls first.2
     = (abortCalls r
        ++ match activeClaudeControllers r !! sessionId with
           | Some controller => [controller]
           | None => []
           end)%list
  /\ abortClaudeSession sessionId first.2 = (false, first.2)
  /\ forall other, other <> sessionId ->
       activeClaudeControllers first.2 !! other = activeClaudeControllers r !! other.
Proof.
  unfold abortClaudeSession.
  destruct (activeClaudeControllers r !! sessionId) as [controller|] eqn:Hlookup;
    cbn [fst snd activeClaudeControllers abortCalls].
  - split; [split; [intros _; eexists; reflexivity | reflexivity] |].
    split; [reflexivity |]. split.
    + rewrite lookup_delete_eq. reflexivity.
    + intros other Hother. apply lookup_delete_ne. congruence.
  - split; [split; [discriminate | intros [x Hx]; discriminate Hx] |].
    split; [rewrite app_nil_r; reflexivity |]. split.
    + rewrite Hlookup. reflexivity.
    + reflexivity.
Qed.

(** ** The registry of controllers through one invocation *)

Lemma handle_init_confirms (processKey : string) (controller : nat)
    (m : SDKMessage) (sid : string) (st : Invocation) :
  capturedSessionId st = Some sid ->
  (forall x, reported_id (Yield m) = Some x -> x = sid) ->
  registry (handle_init processKey controller m st) = registry st
  /\ output (handle_init processKey controller m st) = output st
  /\ sessionCreatedSent (handle_init processKey controller m st)
     = sessionCreatedSent st.
Proof.
  intros Hcaptured Hsame. unfold handle_init. unfold reported_id in Hsame.
  destruct m as [| | |subtype [x|]|]; auto.
  - destruct (String.eqb subtype "init"); [| auto].
    cbn [truthy andb] in *. destruct (negb (String.eqb x "")); [| auto].
    cbn [andb] in *. rewrite (Hsame x eq_refl), Hcaptured.
    rewrite bool_decide_eq_false_2 by (intros H; apply H; reflexivity). auto.
  - destruct (String.eqb subtype "init"); auto.
Qed.

Lemma engine_step_resumed (resume : option string) (command : string)
    (controller : nat) (s : EngineStep) (sid : string) (st : Invocation) :
  capturedSessionId st = Some sid -> sid <> "" ->
  (forall x, reported_id s = Some x -> x = sid) ->
  let st' := engine_step resume sid command controller s st in
  capturedSessionId st' = Some sid
  /\ sessionCreatedSent st' = sessionCreatedSent st
  /\ created st' = created st
  /\ registry st'
     = match result_subtype s with
       | Some _ => controllers_delete sid (registry st)
       | None => registry st
       end.
Proof.
  intros Hcaptured Hsid Hsame st'. subst st'.
  split.
  { rewrite engine_step_captured. destruct (reported_id s) as [x|] eqn:Hx;
      [rewrite (Hsame x eq_refl); reflexivity | exact Hcaptured]. }
  destruct s as [m | uuid toolName input]; cbn [engine_step result_subtype].
  - unfold on_message.
    destruct (forward_emits m st) as (_ & Hfc & Hfr & _).
    destruct (forward_created m st) as [Hfcreated Hfsent].
    destruct (handle_init_confirms sid controller m sid (forward m st))
      as (Hir & Hio & His); [rewrite Hfc; exact Hcaptured | exact Hsame |].
    destruct (handle_result_same command sid m
                (handle_init sid controller m (forward m st)))
      as (_ & -> & _ & ->).
    destruct (handle_result_created command sid m
                (handle_init sid controller m (forward m st))) as [-> _].
    rewrite His, Hfsent, Hir, Hfr. unfold created at 1. rewrite Hio.
    fold (created (forward m st)). rewrite Hfcreated.
    split; [reflexivity |]. split; [reflexivity |].
    destruct m as [| |subtype x| |]; try reflexivity.
    rewrite handle_init_captured. cbn [reported_id]. rewrite Hfc, Hcaptured.
    cbn [or_else]. apply String.eqb_neq in Hsid. rewrite Hsid. reflexivity.
  - destruct (canUseTool_same resume uuid toolName input st) as (_ & -> & ->).
    destruct (canUseTool_created resume uuid toolName input st) as [-> _]. auto.
Qed.

Lemma controllers_delete_twice (key : string) (r : Registry) :
  controllers_delete key (controllers_delete key r) = controllers_delete key r.
Proof.
  unfold controllers_delete. cbn [activeClaudeControllers abortCalls].
  rewrite delete_delete_eq. reflexivity.
Qed.

Lemma run_loop_resumed (command : string) (env : Env.t) (steps : list EngineStep)
    (sid : string) (st : Invocation) :
  capturedSessionId st = Some sid -> sid <> "" ->
  Forall (fun x => x = sid) (reported_ids steps) ->
  let st' := run_loop command (Some sid) env steps st in
  capturedSessionId st' = Some sid
  /\ sessionCreatedSent st' = sessionCreatedSent st
  /\ created st' = created st
  /\ registry st'
     = match results steps with
       | [] => registry st
       | _ :: _ => controllers_delete sid (registry st)
       end.
Proof.
  intros Hcaptured Hsid. revert st Hcaptured.
  assert (Hkey : processKey_of (Some sid) env = sid).
  { unfold processKey_of, or_else. apply String.eqb_neq in Hsid. rewrite Hsid.
    reflexivity. }
  induction steps as [|s steps IH]; intros st Hcaptured Hall st'; subst st'; [auto |].
  rewrite run_loop_cons, Hkey.
  unfold reported_ids in Hall. cbn [omap list_omap] in Hall.
  fold (omap reported_id steps) in Hall.
  assert (Hs : forall x, reported_id s = Some x -> x = sid).
  { intros x Hx. rewrite Hx in Hall. apply Forall_inv in Hall. exact Hall. }
  assert (Hrest : Forall (fun x => x = sid) (reported_ids steps)).
  { destruct (reported_id s); [apply Forall_inv_tail in Hall |]; exact Hall. }
  destruct (engine_step_resumed (Some sid) command (Env.controller env) s sid st
              Hcaptured Hsid Hs) as (Hc & Hsent & Hcreated & Hreg).
  destruct (IH _ Hc Hrest) as (Hc' & Hsent' & Hcreated' & Hreg').
  split; [exact Hc' |]. split; [congruence |]. split; [congruence |].
  rewrite Hreg', Hreg. unfold results. cbn [omap list_omap].
  fold (omap result_subtype steps). fold (results steps).
  destruct (result_subtype s), (results steps);
    rewrite ?controllers_delete_twice; reflexivity.
Qed.

(** X5. When a session is resumed and every init event of the stream
    confirms the requested identifier, the invocation sends no
    [session-created] message and ends with that identifier. Its controller
    is then unregistered as soon as a result event arrives or the stream
    fails, leaving the registry as it was found but for that key; when the
    stream ends without either, the controller stays registered. *)
Theorem confirmed_resume
    (command sid : string) (env : Env.t) (engine : Engine.t)
    (r : Registry) (b : Broker) :
  let result := spawnClaude command (Some sid) env engine r b [] in
  Env.loggerFailure env = None ->
  sid <> "" ->
  Forall (fun x => x = sid) (reported_ids (Engine.steps engine)) ->
  created result.2 = 0
  /\ capturedSessionId result.2 = Some sid
  /\ registry result.2
     = match results (Engine.steps engine), Engine.failure engine with
       | [], None => controllers_set sid (Env.controller env) r
       | _, _ => controllers_delete sid r
       end.
Proof.
  intros result Hlogger Hsid Hall. subst result. unfold spawnClaude. rewrite Hlogger.
  assert (Hkey : processKey_of (Some sid) env = sid).
  { unfold processKey_of, or_else. apply String.eqb_neq in Hsid. rewrite Hsid.
    reflexivity. }
  destruct (run_loop_resumed command env (Engine.steps engine) sid
              (loop_start (Some sid) env r b []) eq_refl Hsid Hall)
    as (Hc & _ & Hcreated & Hreg).
  cbn [loop_start registry] in Hreg. rewrite Hkey in Hreg.
  assert (Hclean : controllers_delete sid (controllers_set sid (Env.controller env) r)
                   = controllers_delete sid r).
  { unfold controllers_delete, controllers_set.
    cbn [activeClaudeControllers abortCalls]. rewrite delete_insert_eq. reflexivity. }
  destruct (Engine.failure engine) as [error|]; cbn [snd].
  - rewrite on_failure_created. unfold on_failure.
    cbn [send with_registry capturedSessionId registry].
    rewrite Hc, Hcreated, Hreg. cbn [or_else].
    pose proof Hsid as Hsid'. apply String.eqb_neq in Hsid'. rewrite Hsid'.
    split; [reflexivity |]. split; [reflexivity |].
    destruct (results (Engine.steps engine));
      rewrite ?controllers_delete_twice, Hclean; reflexivity.
  - rewrite Hc, Hcreated, Hreg. split; [reflexivity |]. split; [reflexivity |].
    destruct (results (Engine.steps engine)); [reflexivity | exact Hclean].
Qed.

Lemma confirmed_resume_witness :
  let steps :=
    [ Yield (SDKSystemMessage "init" (Some "s1"));
      Yield (SDKResultMessage "error_during_execution" (Some "s1")) ] in
  let engine := {| Engine.steps := steps; Engine.failure := None |} in
  let result :=
    spawnClaude "hello" (Some "s1") sample_env engine no_controllers (Broker_start 0) [] in
  (Env.loggerFailure sample_env = None /\ "s1" <> ""
   /\ Forall (fun x => x = "s1") (reported_ids steps))
  /\ created result.2 = 0
  /\ capturedSessionId result.2 = Some "s1"
  /\ registry result.2 = controllers_delete "s1" no_controllers.
Proof.
  intros steps engine result.
  split; [split; [reflexivity | split; [discriminate | repeat constructor]] |].
  apply (confirmed_resume "hello" "s1" sample_env engine no_controllers (Broker_start 0));
    [reflexivity | discriminate | repeat constructor].
Defined.

Lemma or_else_other (o : option string) (d k : string) :
  (forall x, o = Some x -> x <> "" -> x <> k) -> d <> k -> or_else o d <> k.
Proof.
  intros Ho Hd. unfold or_else. destruct o as [x|]; [| exact Hd].
  destruct (String.eqb_spec x "") as [_|Hx]; [exact Hd | apply (Ho x eq_refl Hx)].
Qed.

Lemma handle_init_frame (processKey : string) (controller : nat)
    (m : SDKMessage) (st : Invocation) (k : string) :
  k <> processKey ->
  (forall x, reported_id (Yield m) = Some x -> x <> k) ->
  activeClaudeControllers (registry (handle_init processKey controller m st)) !! k
  = activeClaudeControllers (registry st) !! k
  /\ abortCalls (registry (handle_init processKey controller m st))
     = abortCalls (registry st).
Proof.
  intros Hkey Hreported. unfold handle_init. unfold reported_id in Hreported.
  destruct m as [| | |subtype [sid|]|]; auto.
  - destruct (String.eqb subtype "init"); [| auto].
    cbn [truthy andb] in *. destruct (negb (String.eqb sid "")); [| auto].
    cbn [andb] in *. destruct (bool_decide _); [| auto].
    destruct (announce_same (move_controller processKey controller
                               (with_captured (Some sid) st))) as [_ ->].
    unfold move_controller. cbn [with_captured capturedSessionId].
    destruct (negb (String.eqb processKey sid) && truthy (Some sid)); [| auto].
    cbn [with_registry registry controllers_set controllers_delete
         activeClaudeControllers abortCalls].
    rewrite lookup_insert_ne by (apply (Hreported sid eq_refl)).
    rewrite lookup_delete_ne by congruence. auto.
  - destruct (String.eqb subtype "init"); auto.
Qed.

Lemma engine_step_frame (resume : option string) (processKey command : string)
    (controller : nat) (s : EngineStep) (st : Invocation) (k : string) :
  k <> processKey ->
  (forall x, capturedSessionId st = Some x -> x <> "" -> x <> k) ->
  (forall x, reported_id s = Some x -> x <> k) ->
  let st' := engine_step resume processKey command controller s st in
  activeClaudeControllers (registry st') !! k
  = activeClaudeControllers (registry st) !! k
  /\ abortCalls (registry st') = abortCalls (registry st).
Proof.
  intros Hkey Hcaptured Hreported st'. subst st'.
  destruct s as [m | uuid toolName input]; cbn [engine_step].
  - unfold on_message.
    destruct (forward_emits m st) as (_ & Hfc & Hfr & _).
    destruct (handle_init_frame processKey controller m (forward m st) k Hkey Hreported)
      as [Hlookup Hcalls].
    rewrite Hfr in Hlookup, Hcalls.
    destruct (handle_result_same command processKey m
                (handle_init processKey controller m (forward m st)))
      as (_ & _ & _ & ->).
    destruct m as [| |subtype x| |]; auto.
    cbn [controllers_delete activeClaudeControllers abortCalls].
    rewrite lookup_delete_ne; [auto |].
    apply or_else_other; [| congruence].
    rewrite handle_init_captured. cbn [reported_id]. rewrite Hfc. exact Hcaptured.
  - destruct (canUseTool_same resume uuid toolName input st) as (_ & _ & ->). auto.
Qed.

Lemma run_loop_frame (command : string) (resume : option string) (env : Env.t)
    (steps : list EngineStep) (st : Invocation) (k : string) :
  k <> processKey_of resume env ->
  (forall x, capturedSessionId st = Some x -> x <> "" -> x <> k) ->
  k ∉ reported_ids steps ->
  let st' := run_loop command resume env steps st in
  activeClaudeControllers (registry st') !! k
  = activeClaudeControllers (registry st) !! k
  /\ abortCalls (registry st') = abortCalls (registry st)
  /\ forall x, capturedSessionId st' = Some x -> x <> "" -> x <> k.
Proof.
  intros Hkey. revert st.
  induction steps as [|s steps IH]; intros st Hcaptured Hnot st'; subst st'; [auto |].
  rewrite run_loop_cons.
  unfold reported_ids in Hnot. cbn [omap list_omap] in Hnot.
  fold (omap reported_id steps) in Hnot.
  assert (Hs : forall x, reported_id s = Some x -> x <> k).
  { intros x Hx ->. rewrite Hx in Hnot. apply Hnot. left. }
  assert (Hrest : k ∉ reported_ids steps).
  { intros Hin. apply Hnot. destruct (reported_id s); [right |]; exact Hin. }
  destruct (engine_step_frame resume (processKey_of resume env) command
              (Env.controller env) s st k Hkey Hcaptured Hs) as [Hlookup Hcalls].
  destruct (IH (engine_step resume (processKey_of resume env) command
                  (Env.controller env) s st)) as (Hl & Hc & Hcap); [| exact Hrest |].
  { rewrite engine_step_captured. destruct (reported_id s) as [y|] eqn:Hy.
    - intros x [= <-] _. apply (Hs y eq_refl).
    - exact Hcaptured. }
  split; [congruence |]. split; [congruence | exact Hcap].
Qed.

(** X6. An invocation leaves alone every registration that is not its own:
    the only keys of the registry of controllers it ever writes or deletes
    are its process key, the identifiers the engine reports in init events,
    and, when the stream fails with no identifier known, the timestamp read
    in the [catch] block. Under every other key the registry ends as it
    started; and an invocation never calls [abort] on any controller. *)
Theorem registry_frame
    (command : string) (resume : option string) (env : Env.t)
    (engine : Engine.t) (r : Registry) (b : Broker) (k : string) :
  let result := spawnClaude command resume env engine r b [] in
  k <> processKey_of resume env ->
  k <> ms_toString (Env.dateNowAtCatch env) ->
  k ∉ reported_ids (Engine.steps engine) ->
  activeClaudeControllers (registry result.2) !! k = activeClaudeControllers r !! k
  /\ abortCalls (registry result.2) = abortCalls r.
Proof.
  intros result Hkey Hcatch Hnot. subst result. unfold spawnClaude.
  destruct (Env.loggerFailure env) as [e|]; [auto |].
  destruct (run_loop_frame command resume env (Engine.steps engine)
              (loop_start resume env r b []) k Hkey) as (Hlookup & Hcalls & Hcaptured);
    [| exact Hnot |].
  { cbn [loop_start capturedSessionId]. intros x -> Hx Heq. apply Hkey.
    unfold processKey_of, or_else. apply String.eqb_neq in Hx. rewrite Hx.
    symmetry. exact Heq. }
  cbn [loop_start registry controllers_set activeClaudeControllers abortCalls]
    in Hlookup, Hcalls.
  rewrite lookup_insert_ne in Hlookup by congruence.
  destruct (Engine.failure engine) as [error|]; cbn [snd]; [| auto].
  unfold on_failure.
  cbn [send with_registry registry controllers_delete activeClaudeControllers
       abortCalls].
  rewrite lookup_delete_ne; [auto |].
  apply or_else_other; [exact Hcaptured | congruence].
Qed.

Lemma registry_frame_witness :
  let engine := {| Engine.steps := sample_steps; Engine.failure := Some sample_error |} in
  let r := controllers_set "other" 3 no_controllers in
  let result := spawnClaude "hello" None sample_env engine r (Broker_start 0) [] in
  ("other" <> processKey_of None sample_env
   /\ "other" <> ms_toString (Env.dateNowAtCatch sample_env)
   /\ "other" ∉ reported_ids sample_steps)
  /\ activeClaudeControllers (registry result.2) !! "other"
     = activeClaudeControllers r !! "other"
  /\ abortCalls (registry result.2) = abortCalls r.
Proof.
  intros engine r result.
  assert (Hkey : "other" <> processKey_of None sample_env) by (vm_compute; discriminate).
  assert (Hcatch : "other" <> ms_toString (Env.dateNowAtCatch sample_env))
    by (vm_compute; discriminate).
  assert (Hnot : "other" ∉ reported_ids sample_steps).
  { vm_compute. intros Hin. apply list_elem_of_singleton in Hin. discriminate Hin. }
  split; [auto |].
  apply (registry_frame "hello" None sample_env engine r (Broker_start 0) "other");
    assumption.
Defined.

(** ** The headless entry point when the stream ends normally *)

(** X7. When the underlying invocation returns, the headless result holds,
    in order, what each event of the stream was turned into, and its exit
    code is the one of the last result event: 0 for subtype "success", 1 for
    any other subtype, and 0 as well when the stream held no result event. *)
Theorem headless_result_on_return
    (command : string) (resume : option string) (env : Env.t)
    (engine : Engine.t) (r : Registry) (b : Broker) :
  Env.loggerFailure env = None ->
  Engine.failure engine = None ->
  exists result : HeadlessResult.t,
    (spawnClaudeHeadless command resume env engine r b).1 = Returned result
    /\ HeadlessResult.messages result
       = map collected (flat_map payloads_of (Engine.steps engine))
    /\ HeadlessResult.exitCode result
       = match last (results (Engine.steps engine)) with
         | Some subtype => exit_code_of subtype
         | None => 0%Z
         end.
Proof.
  intros Hlogger Hfailure.
  pose proof (run_loop_payloads command resume env (Engine.steps engine)
                (loop_start resume env r b [])) as Hpayloads.
  cbn [loop_start output received map] in Hpayloads.
  change (response_payloads []) with (@nil Data) in Hpayloads.
  cbn [app] in Hpayloads.
  unfold spawnClaudeHeadless, spawnClaude. rewrite Hlogger, Hfailure.
  eexists. split; [reflexivity |].
  cbn [HeadlessResult.messages HeadlessResult.exitCode].
  split.
  - rewrite collect_messages, Hpayloads; [reflexivity |].
    apply run_loop_responses_truthy. constructor.
  - rewrite collect_exit_code, run_loop_observed.
    destruct (last (results (Engine.steps engine))); reflexivity.
Qed.

Lemma headless_result_on_return_witness :
  let engine := {| Engine.steps := sample_steps; Engine.failure := None |} in
  (Env.loggerFailure sample_env = None /\ Engine.failure engine = None)
  /\ exists result : HeadlessResult.t,
       (spawnClaudeHeadless "hello" None sample_env engine no_controllers
          (Broker_start 0)).1 = Returned result
       /\ HeadlessResult.messages result
          = map collected (flat_map payloads_of sample_steps)
       /\ HeadlessResult.exitCode result
          = match last (results sample_steps) with
            | Some subtype => exit_code_of subtype
            | None => 0%Z
            end.
Proof.
  intros engine. split; [split; reflexivity |].
  apply (headless_result_on_return "hello" None sample_env engine no_controllers
           (Broker_start 0)); reflexivity.
Defined.

(** ** The session identifier of a headless result *)

Lemma handle_init_sessions (processKey : string) (controller : nat)
    (m : SDKMessage) (st : Invocation) (n : WebSocketMessage.t) :
  n ∈ received (output (handle_init processKey controller m st)) ->
  n ∈ received (output st)
  \/ WebSocketMessage.sessionId n
     = capturedSessionId (handle_init processKey controller m st).
Proof.
  unfold handle_init.
  destruct m as [| | |subtype sdkSessionId|]; auto.
  destruct (String.eqb subtype "init"); [| auto].
  destruct (truthy sdkSessionId && bool_decide (sdkSessionId <> capturedSessionId st)).
  - unfold announce.
    destruct (move_controller_same processKey controller
                (with_captured sdkSessionId st)) as (Hout & _ & _).
    cbn [with_captured output] in Hout.
    destruct (negb _).
    + rewrite received_send. cbn [with_sessionCreatedSent output]. rewrite Hout.
      intros Hn. apply elem_of_app in Hn as [Hn|Hn]; [left; exact Hn | right].
      apply list_elem_of_singleton in Hn. subst n. reflexivity.
    + rewrite Hout. auto.
  - destruct (truthy sdkSessionId); auto.
Qed.

(** Every message a step sends is a response, a permission request, or
    carries the session identifier known when the step is over. *)
Lemma engine_step_sessions (resume : option string) (processKey command : string)
    (controller : nat) (s : EngineStep) (st : Invocation) (n : WebSocketMessage.t) :
  let st' := engine_step resume processKey command controller s st in
  n ∈ received (output st') ->
  n ∈ received (output st)
  \/ WebSocketMessage.type n = claude_response
  \/ WebSocketMessage.type n = permission_request
  \/ WebSocketMessage.sessionId n = capturedSessionId st'.
Proof.
  intros st'. subst st'. destruct s as [m | uuid toolName input]; cbn [engine_step].
  - unfold on_message.
    destruct (handle_result_same command processKey m
                (handle_init processKey controller m (forward m st))) as (Hcap & _).
    assert (Hbefore :
      n ∈ received (output (handle_init processKey controller m (forward m st))) ->
      n ∈ received (output st)
      \/ WebSocketMessage.type n = claude_response
      \/ WebSocketMessage.type n = permission_request
      \/ WebSocketMessage.sessionId n
         = capturedSessionId (handle_result command processKey m
                                (handle_init processKey controller m (forward m st)))).
    { intros Hn. apply handle_init_sessions in Hn as [Hn|Hn].
      - destruct (forward_emits m st) as (Hfw & _). rewrite Hfw in Hn.
        apply elem_of_app in Hn as [Hn|Hn]; [left; exact Hn |].
        apply list_elem_of_fmap in Hn as (d & -> & _). right. left. reflexivity.
      - right. right. right. rewrite Hcap. exact Hn. }
    destruct m as [| |subtype x| |]; try exact Hbefore.
    cbn [handle_result] in *. rewrite received_send. cbn [with_registry output].
    intros Hn. apply elem_of_app in Hn as [Hn|Hn]; [apply Hbefore, Hn |].
    apply list_elem_of_singleton in Hn. subst n. right. right. right. reflexivity.
  - unfold canUseTool. destruct (isApprovableTool toolName); [| auto].
    destruct (negb (truthy (capturedSessionId st))); [auto |].
    unfold register. cbn [snd with_broker output]. rewrite received_send.
    intros Hn. apply elem_of_app in Hn as [Hn|Hn]; [left; exact Hn |].
    apply list_elem_of_singleton in Hn. subst n. right. right. left. reflexivity.
Qed.

Lemma reported_id_truthy (s : EngineStep) (sid : string) :
  reported_id s = Some sid -> truthy (Some sid) = true.
Proof.
  unfold reported_id. destruct s as [[| | |subtype [x|]|]|]; try discriminate.
  destruct (String.eqb subtype "init"); [| discriminate].
  cbn [andb truthy]. destruct (negb (String.eqb x "")) eqn:Hx; [| discriminate].
  intros [= <-]. exact Hx.
Qed.

Lemma run_loop_sessions_known (command : string) (resume : option string)
    (env : Env.t) (steps : list EngineStep) (st : Invocation) :
  sessions_known st -> sessions_known (run_loop command resume env steps st).
Proof.
  revert st. induction steps as [|s steps IH]; intros st Hknown; [exact Hknown |].
  rewrite run_loop_cons. apply IH. intros n Hn Hty Htruthy.
  pose proof (engine_step_captured resume (processKey_of resume env) command
                (Env.controller env) s st) as Hcap.
  apply engine_step_sessions in Hn as [Hn|[Hn|[Hn|Hn]]].
  - rewrite Hcap. destruct (reported_id s) as [sid|] eqn:Hs;
      [exact (reported_id_truthy s sid Hs) | apply (Hknown n Hn Hty Htruthy)].
  - destruct Hty as [Hty|Hty]; rewrite Hty in Hn; discriminate.
  - destruct Hty as [Hty|Hty]; rewrite Hty in Hn; discriminate.
  - rewrite <- Hn. exact Htruthy.
Qed.

Lemma note_response_final (msg : WebSocketMessage.t) (c : Collector.t) :
  Collector.finalSessionId (note_response msg c) = Collector.finalSessionId c.
Proof.
  unfold note_response. destruct (WebSocketMessage.data msg); [| reflexivity].
  destruct (_ && _); reflexivity.
Qed.

Lemma collect_final_origin (out : list Envelope.t) (x : string) :
  Collector.finalSessionId (collect out) = Some x ->
  exists n, n ∈ received out
            /\ (WebSocketMessage.type n = session_created
                \/ WebSocketMessage.type n = claude_complete)
            /\ WebSocketMessage.sessionId n = Some x
            /\ truthy (Some x) = true.
Proof.
  induction out as [|e out IH] using rev_ind; [discriminate |].
  rewrite collect_snoc. unfold collector_write, received.
  rewrite note_response_final, map_app. cbn [map].
  set (msg := Envelope.content e).
  assert (Hold : Collector.finalSessionId (collect out) = Some x ->
                 exists n, n ∈ (map Envelope.content out ++ [msg])%list
                           /\ (WebSocketMessage.type n = session_created
                               \/ WebSocketMessage.type n = claude_complete)
                           /\ WebSocketMessage.sessionId n = Some x
                           /\ truthy (Some x) = true).
  { intros H. destruct (IH H) as (n & Hn & Hrest). exists n.
    split; [apply elem_of_app; left; exact Hn | exact Hrest]. }
  assert (Hnew : WebSocketMessage.type msg = session_created
                 \/ WebSocketMessage.type msg = claude_complete ->
                 truthy (WebSocketMessage.sessionId msg) = true ->
                 WebSocketMessage.sessionId msg = Some x ->
                 exists n, n ∈ (map Envelope.content out ++ [msg])%list
                           /\ (WebSocketMessage.type n = session_created
                               \/ WebSocketMessage.type n = claude_complete)
                           /\ WebSocketMessage.sessionId n = Some x
                           /\ truthy (Some x) = true).
  { intros Hty Htruthy Hsid. exists msg.
    split; [apply elem_of_app; right; left |].
    split; [exact Hty |]. split; [exact Hsid | rewrite <- Hsid; exact Htruthy]. }
  unfold note_completion, note_session.
  destruct (bool_decide (WebSocketMessage.type msg = claude_complete)) eqn:Hcomplete;
    destruct (bool_decide (WebSocketMessage.type msg = session_created)) eqn:Hcreated;
    destruct (truthy (WebSocketMessage.sessionId msg)) eqn:Htruthy;
    cbn [andb Collector.finalSessionId]; auto;
    try (apply bool_decide_eq_true_1 in Hcomplete);
    try (apply bool_decide_eq_true_1 in Hcreated); auto.
Qed.

Lemma collect_final_completion (out : list Envelope.t) (c : WebSocketMessage.t) :
  WebSocketMessage.type c = claude_complete ->
  Collector.finalSessionId (collect (sendMessage out c))
  = if truthy (WebSocketMessage.sessionId c) then WebSocketMessage.sessionId c
    else Collector.finalSessionId (collect out).
Proof.
  intros Hty. rewrite collect_send. unfold collector_write.
  rewrite note_response_final. cbn [Envelope.content].
  unfold note_completion, note_session. rewrite Hty.
  rewrite bool_decide_eq_true_2 by reflexivity.
  rewrite bool_decide_eq_false_2 by discriminate. reflexivity.
Qed.

Lemma collect_final_error (out : list Envelope.t) (e : WebSocketMessage.t) :
  WebSocketMessage.type e = claude_error ->
  Collector.finalSessionId (collect (sendMessage out e))
  = Collector.finalSessionId (collect out).
Proof.
  intros Hty. rewrite collect_send. unfold collector_write.
  rewrite note_response_final. cbn [Envelope.content].
  unfold note_completion, note_session. rewrite Hty.
  rewrite !bool_decide_eq_false_2 by discriminate. reflexivity.
Qed.

(** After a completion that carries the identifier the invocation knows, the
    collector holds that identifier, or none if the invocation knows none. *)
Lemma collect_final_known (st : Invocation) (c : WebSocketMessage.t) :
  sessions_known st ->
  WebSocketMessage.type c = claude_complete ->
  WebSocketMessage.sessionId c = capturedSessionId st ->
  or_else (Collector.finalSessionId (collect (sendMessage (output st) c))) ""
  = or_else (capturedSessionId st) ""
  /\ (truthy (capturedSessionId st) = true ->
      Collector.finalSessionId (collect (sendMessage (output st) c))
      = capturedSessionId st)
  /\ (truthy (capturedSessionId st) = false ->
      Collector.finalSessionId (collect (sendMessage (output st) c)) = None).
Proof.
  intros Hknown Hty Hsid. rewrite (collect_final_completion _ c Hty), Hsid.
  destruct (truthy (capturedSessionId st)) eqn:Htruthy.
  - split; [reflexivity |]. split; [reflexivity | discriminate].
  - assert (Hnone : Collector.finalSessionId (collect (output st)) = None).
    { destruct (Collector.finalSessionId (collect (output st))) as [x|] eqn:Hx;
        [| reflexivity].
      apply collect_final_origin in Hx as (n & Hn & Hnty & Hnsid & Hntruthy).
      rewrite <- Hnsid in Hntruthy.
      rewrite (Hknown n Hn Hnty Hntruthy) in Htruthy. discriminate. }
    rewrite Hnone. split; [| split; [discriminate | reflexivity]].
    unfold or_else, truthy in *.
    destruct (capturedSessionId st) as [x|]; [| reflexivity].
    destruct (String.eqb x ""); [reflexivity | discriminate].
Qed.

(** X8. When the stream fails, or ends right after a result event, the
    session identifier of the headless result is the one the invocation ends
    with (the last one reported by an init event, or [options.resume]), and
    the empty string when it knows none. *)
Theorem headless_session_id
    (command : string) (resume : option string) (env : Env.t)
    (engine : Engine.t) (r : Registry) (b : Broker) :
  let final :=
    match last (reported_ids (Engine.steps engine)) with
    | Some sid => Some sid
    | None => resume
    end in
  Env.loggerFailure env = None ->
  (exists error, Engine.failure engine = Some error)
  \/ (exists before subtype sid,
        Engine.steps engine = (before ++ [Yield (SDKResultMessage subtype sid)])%list) ->
  exists result : HeadlessResult.t,
    (spawnClaudeHeadless command resume env engine r b).1 = Returned result
    /\ HeadlessResult.sessionId result = or_else final "".
Proof.
  intros final Hlogger Hend. subst final.
  pose proof (run_loop_captured command resume env (Engine.steps engine)
                (loop_start resume env r b [])) as Hcaptured.
  cbn [loop_start capturedSessionId] in Hcaptured.
  assert (Hstart : sessions_known (loop_start resume env r b [])).
  { intros n Hn. apply elem_of_nil in Hn. contradiction. }
  unfold spawnClaudeHeadless, spawnClaude. rewrite Hlogger.
  destruct (Engine.failure engine) as [error|] eqn:Hfailure.
  - eexists. split; [reflexivity |]. cbn [HeadlessResult.sessionId].
    set (st := run_loop command resume env (Engine.steps engine)
                 (loop_start resume env r b [])) in *.
    pose proof (run_loop_sessions_known command resume env (Engine.steps engine)
                  _ Hstart) as Hknown. fold st in Hknown.
    unfold on_failure. cbn [send output with_registry capturedSessionId].
    set (e := {| WebSocketMessage.type := claude_error;
                 WebSocketMessage.sessionId := capturedSessionId st;
                 WebSocketMessage.data := None;
                 WebSocketMessage.permissionPayload := None;
                 WebSocketMessage.error :=
                   Some (or_else (Error.message error) "Unknown error occurred");
                 WebSocketMessage.exitCode := None;
                 WebSocketMessage.isNewSession := None |}).
    assert (Hknown' : sessions_known (send e st)).
    { intros n Hn Hty Htruthy. rewrite received_send in Hn.
      apply elem_of_app in Hn as [Hn|Hn]; [apply (Hknown n Hn Hty Htruthy) |].
      apply list_elem_of_singleton in Hn. subst n. exact Htruthy. }
    destruct (collect_final_known (send e st)
                (completion command 1 (send e (with_registry
                   (controllers_delete
                      (or_else (capturedSessionId st)
                         (ms_toString (Env.dateNowAtCatch env))) (registry st)) st)))
                Hknown' eq_refl eq_refl) as (Heq & _).
    cbn [send output capturedSessionId] in Heq. rewrite <- Hcaptured. exact Heq.
  - destruct Hend as [[error Herror]|(before & subtype & sid & Hsteps)];
      [discriminate Herror |].
    eexists. split; [reflexivity |]. cbn [HeadlessResult.sessionId].
    rewrite <- Hcaptured. rewrite Hsteps.
    unfold run_loop. rewrite fold_left_app. cbn [fold_left engine_step].
    fold (run_loop command resume env before (loop_start resume env r b [])).
    set (st := run_loop command resume env before (loop_start resume env r b [])).
    pose proof (run_loop_sessions_known command resume env before _ Hstart) as Hknown.
    fold st in Hknown.
    unfold on_message. cbn [forward convert handle_init handle_result].
    cbn [send output with_registry capturedSessionId].
    set (st1 := with_registry
                  (controllers_delete
                     (or_else (capturedSessionId st) (processKey_of resume env))
                     (registry st)) st).
    destruct (collect_final_known st
                (completion command (if String.eqb subtype "success" then 0%Z else 1%Z)
                   st1) Hknown eq_refl eq_refl) as (Heq & Hsome & Hnone).
    destruct (truthy (capturedSessionId st)) eqn:Htruthy.
    + rewrite (Hsome eq_refl), Htruthy. cbn [negb andb]. reflexivity.
    + rewrite (Hnone eq_refl). cbn [truthy negb andb].
      unfold or_else, truthy in *. destruct (capturedSessionId st) as [x|];
        [| reflexivity].
      destruct (String.eqb x ""); [reflexivity | discriminate].
Qed.

Lemma headless_session_id_witness :
  let engine := {| Engine.steps := sample_steps; Engine.failure := None |} in
  (Env.loggerFailure sample_env = None
   /\ ((exists error, Engine.failure engine = Some error)
       \/ (exists before subtype sid,
             Engine.steps engine
             = (before ++ [Yield (SDKResultMessage subtype sid)])%list)))
  /\ exists result : HeadlessResult.t,
       (spawnClaudeHeadless "hello" None sample_env engine no_controllers
          (Broker_start 0)).1 = Returned result
       /\ HeadlessResult.sessionId result = "s1".
Proof.
  intros engine.
  assert (Hend : (exists error, Engine.failure engine = Some error)
                 \/ (exists before subtype sid,
                       Engine.steps engine
                       = (before ++ [Yield (SDKResultMessage subtype sid)])%list)).
  { right. exists (take 4 sample_steps), "error_max_turns", (Some "s1"). reflexivity. }
  split; [split; [reflexivity | exact Hend] |].
  apply (headless_session_id "hello" None sample_env engine no_controllers
           (Broker_start 0) eq_refl Hend).
Defined.

(** ** Answering a permission request *)

Lemma truthy_or_else (o : option string) (d : string) :
  truthy o = true -> o = Some (or_else o d).
Proof.
  unfold truthy, or_else. destruct o as [x|]; [| discriminate].
  destruct (String.eqb x ""); [discriminate | reflexivity].
Qed.

(** X9. The request that [canUseTool] sends can be answered with what it
    carries: while the request is unsettled, a response that names the
    session identifier and the request identifier of the
    [permission-request] message answers [true], gives the promise exactly
    the decision it brings, and removes the entry. This holds whatever
    [options.resume] was, also after the session was rebound. *)
Theorem permission_request_answered
    (t0 : N) (history future : list BrokerOp)
    (resume captured : option string) (uuid toolName : string) (input : Json)
    (promise : nat) (response : PermissionResult) :
  let b0 := run history (Broker_start t0) in
  let call := canUseTool resume uuid toolName input (invocation_at captured b0) in
  let sessionId := or_else captured "" in
  let b := run future (broker call.2) in
  let answered := handlePermissionResponse sessionId uuid response b in
  fresh_uuids []
    (history ++ ToolCall resume captured uuid toolName input :: future) = true ->
  call.1 = Suspended promise ->
  times_resolved b promise = 0 ->
  received (output call.2)
  = [ {| WebSocketMessage.type := permission_request;
         WebSocketMessage.sessionId := Some sessionId;
         WebSocketMessage.data := None;
         WebSocketMessage.permissionPayload :=
           Some {| PermissionPayload.toolName := toolName;
                   PermissionPayload.input := input;
                   PermissionPayload.requestId := uuid |};
         WebSocketMessage.error := None;
         WebSocketMessage.exitCode := None;
         WebSocketMessage.isNewSession := None |} ]
  /\ answered.1 = true
  /\ promise_value answered.2 promise = Some response
  /\ times_resolved answered.2 promise = 1
  /\ find_pending sessionId uuid (pendingPermissionRequests answered.2) = None.
Proof.
  intros b0 call sessionId b answered Hfresh Hcall Hopen.
  destruct (registered_request t0 history future resume captured uuid toolName
              input promise Hfresh Hcall)
    as (issued & Hinv & Hfuture & Hissued & Hwait).
  fold b0 call in Hinv, Hwait.
  pose proof (run_inv issued future _ Hinv Hfuture) as Hinv'. fold b in Hinv'.
  destruct (canUseTool_suspended resume captured uuid toolName input b0 promise Hcall)
    as (Hcond & _ & Htruthy).
  split.
  { subst call. unfold canUseTool, invocation_at. cbn [capturedSessionId].
    apply andb_true_iff in Hcond as [-> _]. rewrite Htruthy. cbn [negb].
    unfold register. cbn [snd with_broker output send sendMessage app received map
                          Envelope.content].
    rewrite (truthy_or_else captured "" Htruthy) at 1. reflexivity. }
  destruct (run_track issued future (broker call.2) sessionId uuid promise
              (now b0 + permissionTimeoutMs) Hinv Hfuture Hissued Hwait)
    as [Hwait'|[(Htimes & _) _]];
    [| fold b in Htimes; rewrite Hopen in Htimes; discriminate].
  fold b in Hwait'.
  pose proof Hwait' as (_ & _ & (key & p & Hfind & Hres) & _).
  destruct (response_settle _ sessionId uuid response b key p Hinv' Hfind)
    as (t & Ht & Hid & Hkey & Heq).
  destruct (response_conditions _ b t response Hinv' Ht) as (Harmed & Hnodup & Hlate).
  destruct (settle_awaiting_settled _ _ (now b) b sessionId uuid promise Hinv'
              Harmed Hnodup (now b0 + permissionTimeoutMs) (t, response) Hwait'
              ltac:(left) ltac:(cbn [fst]; congruence))
    as [(Htimes & _ & Hgone & _) Hvalue].
  subst answered. rewrite Heq.
  split; [unfold handlePermissionResponse; rewrite Hfind; reflexivity | auto].
Qed.

Lemma permission_request_answered_witness :
  let uuid := "123e4567-e89b-42d3-a456-426614174000" in
  let future := [ Elapse 60000; Response "s0" uuid (Deny "not mine") ] in
  let call :=
    canUseTool (Some "s0") uuid "Bash" JNull
      (invocation_at (Some "s1") (Broker_start 0)) in
  let b := run future (broker call.2) in
  let answered := handlePermissionResponse "s1" uuid (Allow JNull) b in
  (fresh_uuids [] ([] ++ ToolCall (Some "s0") (Some "s1") uuid "Bash" JNull :: future)
   = true
   /\ call.1 = Suspended 0
   /\ times_resolved b 0 = 0)
  /\ answered.1 = true
  /\ promise_value answered.2 0 = Some (Allow JNull).
Proof.
  intros uuid future call b answered.
  split; [repeat split; reflexivity |].
  destruct (permission_request_answered 0 [] future (Some "s0") (Some "s1") uuid
              "Bash" JNull 0 (Allow JNull) eq_refl eq_refl eq_refl)
    as (_ & Htrue & Hvalue & _).
  split; [exact Htrue | exact Hvalue].
Defined.

Lemma elem_of_Map_set (k : string) (v : Pending.t) (m : list (string * Pending.t))
    (x : string * Pending.t) :
  x ∈ Map_set k v m -> x ∈ m \/ x = (k, v).
Proof.
  induction m as [|[k' v'] m IH]; cbn [Map_set].
  - intros H. apply list_elem_of_singleton in H. auto.
  - destruct (String.eqb k' k) eqn:Hk.
    + apply String.eqb_eq in Hk as ->.
      intros H. apply elem_of_cons in H as [H|H]; [auto | left; right; exact H].
    + intros H. apply elem_of_cons in H as [->|H]; [left; left |].
      destruct (IH H) as [Hm|Hnew]; [left; right; exact Hm | auto].
Qed.

(** An operation adds at most the entry of the request it registers. *)
Lemma exec_pending_origin (op : BrokerOp) (b : Broker) (k : string) (p : Pending.t) :
  (k, p) ∈ pendingPermissionRequests (exec op b) ->
  (k, p) ∈ pendingPermissionRequests b
  \/ exists resume captured toolName input,
       op = ToolCall resume captured (Pending.requestId p) toolName input.
Proof.
  destruct op as [resume captured uuid toolName input | sid rid response | dt | timer].
  - rewrite exec_ToolCall.
    destruct (isApprovableTool toolName && truthy captured); [| auto].
    unfold register. cbn [snd pendingPermissionRequests]. intros H.
    apply elem_of_Map_set in H as [H|H]; [auto |].
    injection H as -> ->. right. eexists _, _, _, _. reflexivity.
  - cbn [exec]. unfold handlePermissionResponse.
    destruct (find_pending sid rid (pendingPermissionRequests b)) as [[key q]|]; [| auto].
    cbn [snd pending_delete call_resolver clearTimeout pendingPermissionRequests].
    intros H. apply elem_of_Map_delete in H as [H _]. auto.
  - cbn [exec]. unfold elapse. rewrite timeouts_fold.
    cbn [pendingPermissionRequests]. intros H.
    apply elem_of_delete_keys in H as [H _]. auto.
  - cbn [exec]. unfold fire. destruct (find_timer timer (timers b)) as [t|]; [| auto].
    unfold timeout_callback, call_resolver, pending_delete, clearTimeout.
    cbn [pendingPermissionRequests]. intros H.
    apply elem_of_Map_delete in H as [H _]. auto.
Qed.

Lemma run_owner (issued : list string) (ops : list BrokerOp) (b : Broker)
    (sid uuid : string) :
  (forall k p, (k, p) ∈ pendingPermissionRequests b ->
     Pending.requestId p = uuid -> Pending.sessionId p = sid) ->
  fresh_uuids issued ops = true -> uuid ∈ issued ->
  forall k p, (k, p) ∈ pendingPermissionRequests (run ops b) ->
    Pending.requestId p = uuid -> Pending.sessionId p = sid.
Proof.
  revert issued b. induction ops as [|op ops IH]; intros issued b Hown Hfresh Hissued;
    [exact Hown |].
  change (run (op :: ops) b) with (run ops (exec op b)).
  apply (IH (issue issued [op])).
  - intros k p Hin Hrid.
    apply exec_pending_origin in Hin as [Hin|(resume & captured & tool & input & ->)];
      [apply (Hown k p Hin Hrid) |].
    exfalso. cbn [fresh_uuids] in Hfresh.
    apply andb_true_iff in Hfresh as [Hfresh _].
    apply andb_true_iff in Hfresh as [_ Hnew].
    rewrite Hrid in Hnew. apply includes_elem_of in Hissued.
    rewrite Hissued in Hnew. discriminate.
  - destruct op; cbn [issue fresh_uuids] in *; try exact Hfresh.
    apply andb_true_iff in Hfresh as [_ Hfresh]. exact Hfresh.
  - apply issue_mono, Hissued.
Qed.

(** X10. A response that names the right request identifier but another
    session identifier than the one the request was registered for is
    refused at any later moment: it answers [false] and changes nothing. *)
Theorem response_from_other_session_refused
    (t0 : N) (history future : list BrokerOp)
    (resume captured : option string) (uuid toolName : string) (input : Json)
    (promise : nat) (other : string) (response : PermissionResult) :
  let b0 := run history (Broker_start t0) in
  let call := canUseTool resume uuid toolName input (invocation_at captured b0) in
  let b := run future (broker call.2) in
  fresh_uuids []
    (history ++ ToolCall resume captured uuid toolName input :: future) = true ->
  call.1 = Suspended promise ->
  other <> or_else captured "" ->
  handlePermissionResponse other uuid response b = (false, b).
Proof.
  intros b0 call b Hfresh Hcall Hother.
  pose proof Hfresh as Hfresh'.
  apply fresh_uuids_app in Hfresh' as [Hhistory Hrest].
  pose proof (run_inv [] history _ (broker_inv_start t0) Hhistory) as Hinv0.
  fold b0 in Hinv0.
  cbn [fresh_uuids] in Hrest.
  apply andb_true_iff in Hrest as [Hhead Hfuture].
  apply andb_true_iff in Hhead as [Huuid Hnew].
  assert (Hnot : uuid ∉ issue [] history).
  { intros Hin. apply includes_elem_of in Hin. rewrite Hin in Hnew. discriminate. }
  assert (Hown : forall k p, (k, p) ∈ pendingPermissionRequests (broker call.2) ->
                   Pending.requestId p = uuid ->
                   Pending.sessionId p = or_else captured "").
  { intros k p Hin Hrid.
    change (broker call.2) with (exec (ToolCall resume captured uuid toolName input) b0)
      in Hin.
    rewrite exec_ToolCall in Hin.
    destruct (isApprovableTool toolName && truthy captured).
    - unfold register in Hin. cbn [snd pendingPermissionRequests] in Hin.
      apply elem_of_Map_set in Hin as [Hin|Hin].
      + exfalso. destruct (inv_entry _ _ Hinv0 k p Hin) as (_ & _ & Hissued & _).
        rewrite Hrid in Hissued. contradiction.
      + injection Hin as -> ->. reflexivity.
    - exfalso. destruct (inv_entry _ _ Hinv0 k p Hin) as (_ & _ & Hissued & _).
      rewrite Hrid in Hissued. contradiction. }
  pose proof (run_owner (uuid :: issue [] history) future (broker call.2)
                (or_else captured "") uuid Hown Hfuture ltac:(left)) as Hown'.
  fold b in Hown'.
  unfold handlePermissionResponse.
  assert (find_pending other uuid (pendingPermissionRequests b) = None) as ->;
    [| reflexivity].
  apply find_pending_None. intros k p Hin [Hs Hr].
  apply Hother. rewrite <- Hs. apply (Hown' k p Hin Hr).
Qed.

Lemma response_from_other_session_refused_witness :
  let uuid := "123e4567-e89b-42d3-a456-426614174000" in
  let future := [ Elapse 60000 ] in
  let call :=
    canUseTool (Some "s0") uuid "Bash" JNull
      (invocation_at (Some "s1") (Broker_start 0)) in
  let b := run future (broker call.2) in
  (fresh_uuids [] ([] ++ ToolCall (Some "s0") (Some "s1") uuid "Bash" JNull :: future)
   = true
   /\ call.1 = Suspended 0
   /\ "s0" <> or_else (Some "s1") "")
  /\ handlePermissionResponse "s0" uuid (Allow JNull) b = (false, b).
Proof.
  intros uuid future call b.
  split; [split; [reflexivity | split; [reflexivity | discriminate]] |].
  apply (response_from_other_session_refused 0 [] future (Some "s0") (Some "s1") uuid
           "Bash" JNull 0 "s0" (Allow JNull)); [reflexivity | reflexivity | discriminate].
Defined.

(** ** A request stays pending while nothing settles it *)

Lemma exec_clock (op : BrokerOp) (b : Broker) : (now b <= now (exec op b))%N.
Proof.
  destruct op as [resume captured uuid toolName input | sid rid response | dt | timer].
  - rewrite exec_ToolCall.
    destruct (isApprovableTool toolName && truthy captured); cbn; lia.
  - cbn [exec]. unfold handlePermissionResponse.
    destruct (find_pending sid rid (pendingPermissionRequests b)) as [[key p]|];
      cbn; lia.
  - cbn [exec]. unfold elapse. rewrite timeouts_fold. cbn [now]. lia.
  - cbn [exec]. unfold fire. destruct (find_timer timer (timers b)) as [t|]; cbn; lia.
Qed.

Lemma run_clock (ops : list BrokerOp) (b : Broker) : (now b <= now (run ops b))%N.
Proof.
  revert b. induction ops as [|op ops IH]; intros b; [cbn; lia |].
  change (run (op :: ops) b) with (run ops (exec op b)).
  pose proof (exec_clock op b). pose proof (IH (exec op b)). lia.
Qed.

Lemma exec_awaiting_quiet (sid rid : string) (h : nat) (issued : list string)
    (op : BrokerOp) (rest : list BrokerOp) (b : Broker) (due : N) :
  broker_inv issued b -> fresh_uuids issued (op :: rest) = true ->
  awaiting sid rid h due b ->
  unanswered sid rid [op] = true -> timer_kept h [op] = true ->
  (now (exec op b) < due)%N ->
  awaiting sid rid h due (exec op b).
Proof.
  intros Hinv Hfresh Hwait Hquiet Hkept Hnow.
  destruct op as [resume captured uuid toolName input | sid' rid' response | dt | timer].
  - rewrite exec_ToolCall.
    destruct (isApprovableTool toolName && truthy captured); [| exact Hwait].
    cbn [fresh_uuids] in Hfresh.
    apply andb_true_iff in Hfresh as [Hfresh _].
    apply andb_true_iff in Hfresh as [Huuid Hnew].
    apply (register_awaiting sid rid h issued); [exact Hinv | exact Huuid | | exact Hwait].
    intros Hin. apply includes_elem_of in Hin. rewrite Hin in Hnew. discriminate.
  - cbn [exec].
    destruct (find_pending sid' rid' (pendingPermissionRequests b))
      as [[key' p']|] eqn:Hfind'.
    2:{ unfold handlePermissionResponse. rewrite Hfind'. exact Hwait. }
    destruct (response_settle issued sid' rid' response b key' p' Hinv Hfind')
      as (t' & Ht' & Hid' & Hkey' & ->).
    destruct (response_conditions issued b t' response Hinv Ht')
      as (Harmed & Hnodup & Hlate).
    apply (settle_awaiting_kept issued _ _ b sid rid h Hinv Harmed Hnodup Hlate
             due Hwait).
    cbn. rewrite list_elem_of_singleton. intros Hsame.
    destruct Hwait as (_ & _ & (key & p & Hfind & Hres) & _).
    apply find_pending_Some in Hfind as (Hin & Hs & Hr).
    apply find_pending_Some in Hfind' as (Hin' & Hs' & Hr').
    destruct (inv_entry _ _ Hinv key p Hin) as (_ & _ & _ & _ & t & Ht & Hid & Hk).
    assert (t = t') as ->.
    { apply (NoDup_fmap_eq Timer.id (timers b));
        [apply Hinv | auto | auto | congruence]. }
    assert ((key, p) = (key', p')) as [= -> ->].
    { apply (NoDup_fmap_eq fst (pendingPermissionRequests b));
        [apply Hinv | assumption | assumption | cbn; congruence]. }
    cbn [unanswered] in Hquiet. rewrite andb_true_r in Hquiet.
    apply negb_true_iff, andb_false_iff in Hquiet.
    rewrite !String.eqb_neq in Hquiet. destruct Hquiet; congruence.
  - cbn [exec] in *. rewrite (elapse_settle issued dt b Hinv) in *.
    destruct (elapse_conditions issued b dt Hinv) as (Harmed & Hnodup & Hlate).
    cbn [now settle] in Hnow.
    apply (settle_awaiting_kept issued _ (now b + dt) b sid rid h Hinv
             Harmed Hnodup Hlate due Hwait).
    rewrite <- list_fmap_compose. intros Hin.
    apply list_elem_of_fmap in Hin as (t' & Hid' & Ht').
    apply list_elem_of_filter in Ht' as [Hdue' Ht'].
    destruct Hwait as (_ & _ & _ & (t & Ht & Hid & Hdue)).
    assert (t = t') as ->.
    { apply (NoDup_fmap_eq Timer.id (timers b));
        [apply Hinv | auto | auto | cbn in Hid'; congruence]. }
    lia.
  - cbn [exec].
    destruct (find_timer timer (timers b)) as [t|] eqn:Hfind;
      [| unfold fire; rewrite Hfind; exact Hwait].
    destruct (fire_settle issued timer b t Hinv Hfind) as (Ht & Hid & ->).
    destruct (response_conditions issued b t timedOut Hinv Ht)
      as (Harmed & Hnodup & Hlate).
    apply (settle_awaiting_kept issued _ _ b sid rid h Hinv Harmed Hnodup Hlate
             due Hwait).
    cbn. rewrite list_elem_of_singleton. intros Hsame.
    cbn [timer_kept] in Hkept. rewrite andb_true_r in Hkept.
    apply negb_true_iff, Nat.eqb_neq in Hkept. congruence.
Qed.

Lemma run_awaiting_quiet (issued : list string) (ops : list BrokerOp) (b : Broker)
    (sid rid : string) (h : nat) (due : N) :
  broker_inv issued b -> fresh_uuids issued ops = true ->
  awaiting sid rid h due b ->
  unanswered sid rid ops = true -> timer_kept h ops = true ->
  (now (run ops b) < due)%N ->
  awaiting sid rid h due (run ops b).
Proof.
  revert issued b.
  induction ops as [|op ops IH]; intros issued b Hinv Hfresh Hwait Hquiet Hkept Hnow;
    [exact Hwait |].
  destruct (exec_inv issued op ops b Hinv Hfresh) as [Hinv' Hfresh'].
  change (run (op :: ops) b) with (run ops (exec op b)) in *.
  assert (Hquiet' : unanswered sid rid [op] = true /\ unanswered sid rid ops = true).
  { destruct op; cbn [unanswered] in *; auto.
    apply andb_true_iff in Hquiet as [-> ->]. auto. }
  assert (Hkept' : timer_kept h [op] = true /\ timer_kept h ops = true).
  { destruct op; cbn [timer_kept] in *; auto.
    apply andb_true_iff in Hkept as [-> ->]. auto. }
  destruct Hquiet' as [Hq1 Hq2]. destruct Hkept' as [Hk1 Hk2].
  apply (IH _ _ Hinv' Hfresh'); [| exact Hq2 | exact Hk2 | exact Hnow].
  apply (exec_awaiting_quiet sid rid h issued op ops); try assumption.
  pose proof (run_clock ops (exec op b)). lia.
Qed.

(** X11. Nothing but its own answer settles a request before its time:
    while fewer than 100000 milliseconds have passed on the timer clock since
    [canUseTool] suspended, no response has named the pair of the request
    and its timer callback has not run, the promise is unresolved and the
    entry is in the map, whatever other tool calls, responses to other
    requests and timeouts of other requests happened in between. *)
Theorem pending_within_window
    (t0 : N) (history future : list BrokerOp)
    (resume captured : option string) (uuid toolName : string) (input : Json)
    (promise : nat) :
  let b0 := run history (Broker_start t0) in
  let call := canUseTool resume uuid toolName input (invocation_at captured b0) in
  let sessionId := or_else captured "" in
  let b := run future (broker call.2) in
  fresh_uuids []
    (history ++ ToolCall resume captured uuid toolName input :: future) = true ->
  call.1 = Suspended promise ->
  unanswered sessionId uuid future = true ->
  timer_kept promise future = true ->
  (now b < now b0 + permissionTimeoutMs)%N ->
  times_resolved b promise = 0
  /\ promise_value b promise = None
  /\ exists key p,
       find_pending sessionId uuid (pendingPermissionRequests b) = Some (key, p)
       /\ Pending.resolve p = promise.
Proof.
  intros b0 call sessionId b Hfresh Hcall Hquiet Hkept Hnow.
  destruct (registered_request t0 history future resume captured uuid toolName
              input promise Hfresh Hcall)
    as (issued & Hinv & Hfuture & Hissued & Hwait).
  fold b0 call in Hinv, Hwait.
  pose proof (run_awaiting_quiet issued future (broker call.2) sessionId uuid promise
                _ Hinv Hfuture Hwait Hquiet Hkept Hnow) as Hwait'.
  fold b in Hwait'.
  destruct Hwait' as (Htimes & Hvalue & (key & p & Hfind & Hres) & _).
  split; [exact Htimes |]. split; [exact Hvalue |].
  exists key, p. split; [exact Hfind | exact Hres].
Qed.

Lemma pending_within_window_witness :
  let uuid := "123e4567-e89b-42d3-a456-426614174000" in
  let other := "123e4567-e89b-42d3-a456-426614174001" in
  let future :=
    [ Elapse 40000; ToolCall None (Some "s1") other "Write" JNull;
      Response "s0" uuid (Allow JNull); Elapse 59999;
      Response "s1" other (Deny "no") ] in
  let call :=
    canUseTool (Some "s0") uuid "Bash" JNull
      (invocation_at (Some "s1") (Broker_start 0)) in
  let b := run future (broker call.2) in
  (fresh_uuids [] ([] ++ ToolCall (Some "s0") (Some "s1") uuid "Bash" JNull :: future)
   = true
   /\ call.1 = Suspended 0
   /\ unanswered "s1" uuid future = true
   /\ timer_kept 0 future = true
   /\ (now b < now (Broker_start 0) + permissionTimeoutMs)%N)
  /\ times_resolved b 0 = 0
  /\ promise_value b 0 = None.
Proof.
  intros uuid other future call b.
  split; [repeat split; reflexivity |].
  destruct (pending_within_window 0 [] future (Some "s0") (Some "s1") uuid
              "Bash" JNull 0 eq_refl eq_refl eq_refl eq_refl eq_refl)
    as (Htimes & Hvalue & _).
  split; [exact Htimes | exact Hvalue].
Defined.

(** ** Entries and timers *)

Lemma broker_inv_entry_open (issued : list string) (b : Broker) (k : string)
    (p : Pending.t) :
  broker_inv issued b -> (k, p) ∈ pendingPermissionRequests b ->
  promise_value b (Pending.resolve p) = None
  /\ exists t, t ∈ timers b /\ Timer.id t = Pending.timeout p
               /\ Timer.compositeKey t = k
               /\ Timer.resolve t = Pending.resolve p
               /\ (now b < Timer.due t)%N.
Proof.
  intros Hinv Hin.
  destruct (inv_entry _ _ Hinv k p Hin) as (_ & _ & _ & Htimeout & t & Ht & Hid & Hk).
  destruct (inv_timer _ _ Hinv t Ht) as (Hres & _ & Hdue & _).
  split.
  - apply first_call_None. intros Hcalled.
    destruct (inv_called _ _ Hinv _ Hcalled) as [_ Hnot].
    apply (Hnot t Ht Hid).
  - exists t. repeat split; try assumption; congruence.
Qed.

Lemma broker_inv_lengths (issued : list string) (b : Broker) :
  broker_inv issued b ->
  length (pendingPermissionRequests b) = length (timers b).
Proof.
  intros Hinv.
  rewrite <- (length_fmap fst (pendingPermissionRequests b)).
  rewrite <- (length_fmap Timer.compositeKey (timers b)).
  apply Permutation_length, NoDup_Permutation.
  - apply Hinv.
  - apply NoDup_fmap_2_strong.
    + intros t1 t2 Ht1 Ht2 Hkey.
      destruct (inv_timer _ _ Hinv t1 Ht1) as (_ & _ & _ & p1 & Hp1 & Hr1).
      destruct (inv_timer _ _ Hinv t2 Ht2) as (_ & _ & _ & p2 & Hp2 & Hr2).
      rewrite Hkey in Hp1.
      assert ((Timer.compositeKey t2, p1) = (Timer.compositeKey t2, p2)) as [= ->].
      { apply (NoDup_fmap_eq fst (pendingPermissionRequests b));
          [apply Hinv | assumption | assumption | reflexivity]. }
      apply (NoDup_fmap_eq Timer.id (timers b));
        [apply Hinv | assumption | assumption | congruence].
    + apply (NoDup_fmap_1 Timer.id), Hinv.
  - intros k. rewrite !list_elem_of_fmap. split.
    + intros ([k' p] & -> & Hin).
      destruct (inv_entry _ _ Hinv k' p Hin) as (_ & _ & _ & _ & t & Ht & _ & Hk).
      exists t. split; [symmetry; exact Hk | exact Ht].
    + intros (t & -> & Ht).
      destruct (inv_timer _ _ Hinv t Ht) as (_ & _ & _ & p & Hp & _).
      exists (Timer.compositeKey t, p). split; [reflexivity | exact Hp].
Qed.

(** X12. Entries and timers go together in every state the module can
    reach by tool calls, responses and timeouts, in any order: the map holds
    as many entries as there are armed timers; every entry belongs to an
    unresolved promise and has its own armed timer, not yet due, that names
    the key and the resolver of the entry; and every armed timer belongs to
    an entry. No entry is left without the timer that will remove it, and no
    timer is left behind by a request that was answered. *)
Theorem entries_match_timers (t0 : N) (history : list BrokerOp) :
  let b := run history (Broker_start t0) in
  fresh_uuids [] history = true ->
  length (pendingPermissionRequests b) = length (timers b)
  /\ (forall key p, (key, p) ∈ pendingPermissionRequests b ->
        promise_value b (Pending.resolve p) = None
        /\ exists t, t ∈ timers b /\ Timer.id t = Pending.timeout p
                     /\ Timer.compositeKey t = key
                     /\ Timer.resolve t = Pending.resolve p
                     /\ (now b < Timer.due t)%N)
  /\ (forall t, t ∈ timers b ->
        exists p, (Timer.compositeKey t, p) ∈ pendingPermissionRequests b
                  /\ Pending.timeout p = Timer.id t).
Proof.
  intros b Hfresh.
  pose proof (run_inv [] history _ (broker_inv_start t0) Hfresh) as Hinv.
  fold b in Hinv.
  split; [apply (broker_inv_lengths _ b Hinv) |].
  split; [intros key p; apply (broker_inv_entry_open _ b key p Hinv) |].
  intros t Ht.
  destruct (inv_timer _ _ Hinv t Ht) as (_ & _ & _ & p & Hp & Hr).
  exists p. split; [exact Hp |].
  destruct (inv_entry _ _ Hinv _ p Hp) as (_ & _ & _ & Htimeout & _). congruence.
Qed.

Lemma entries_match_timers_witness :
  let uuid := "123e4567-e89b-42d3-a456-426614174000" in
  let other := "123e4567-e89b-42d3-a456-426614174001" in
  let history :=
    [ ToolCall (Some "s0") (Some "s1") uuid "Bash" JNull; Elapse 40000;
      ToolCall None (Some "s1") other "Write" JNull;
      Response "s1" uuid (Allow JNull); Elapse 70000 ] in
  let b := run history (Broker_start 0) in
  fresh_uuids [] history = true
  /\ length (pendingPermissionRequests b) = length (timers b).
Proof.
  intros uuid other history b.
  split; [reflexivity |].
  apply (entries_match_timers 0 history eq_refl).
Defined.

(** ** Lines on the wire *)

Lemma append_cons (c : ascii) (a b : string) : String c a ++ b = String c (a ++ b).
Proof. reflexivity. Qed.

Lemma append_nil_l (b : string) : EmptyString ++ b = b.
Proof. reflexivity. Qed.

Lemma append_assoc' (a b c : string) : (a ++ b) ++ c = a ++ (b ++ c).
Proof.
  induction a as [|x a IH]; [reflexivity |].
  rewrite !append_cons, IH. reflexivity.
Qed.

Lemma split_lines_line (l rest : string) :
  no_line_feed l = true -> split_lines (l ++ LF ++ rest) = l :: split_lines rest.
Proof.
  induction l as [|c l IH]; intros Hfree.
  - unfold LF. rewrite append_nil_l, append_cons, append_nil_l.
    cbn [split_lines]. rewrite Ascii.eqb_refl. reflexivity.
  - cbn [no_line_feed] in Hfree. apply andb_true_iff in Hfree as [Hc Hfree].
    rewrite append_cons. cbn [split_lines].
    apply negb_true_iff in Hc. rewrite Hc, (IH Hfree). reflexivity.
Qed.

Lemma split_lines_unlines (ls : list string) (tail : string) :
  Forall (fun l => no_line_feed l = true) ls ->
  split_lines (unlines ls ++ tail) = (ls ++ split_lines tail)%list.
Proof.
  induction 1 as [|l ls Hl _ IH]; [reflexivity |].
  cbn [unlines fold_right]. fold (unlines ls).
  rewrite !append_assoc', (split_lines_line l _ Hl), IH. reflexivity.
Qed.

Lemma append_nil_r (a : string) : a ++ EmptyString = a.
Proof.
  induction a as [|c a IH]; [reflexivity |]. rewrite append_cons, IH. reflexivity.
Qed.

Section Framing.

Variable blank : string -> bool.

Lemma lines_of_unlines (ls : list string) (tail : string) :
  Forall (fun l => no_line_feed l = true /\ blank l = false) ls ->
  lines_of blank (unlines ls ++ tail) = (ls ++ lines_of blank tail)%list.
Proof.
  intros Hls. unfold lines_of.
  rewrite split_lines_unlines
    by (eapply Forall_impl; [exact Hls | intros l [Hfree _]; exact Hfree]).
  rewrite List.filter_app. f_equal.
  induction Hls as [|l ls [_ Hl] _ IH]; [reflexivity |].
  cbn [List.filter]. rewrite Hl. cbn [negb]. rewrite IH. reflexivity.
Qed.

Lemma lines_of_empty : blank EmptyString = true -> lines_of blank EmptyString = [].
Proof. intros H. unfold lines_of. cbn [split_lines List.filter]. rewrite H. reflexivity. Qed.

Lemma lines_of_framed (text : string) :
  blank EmptyString = true -> no_line_feed text = true -> blank text = false ->
  lines_of blank (text ++ LF) = [text].
Proof.
  intros Hempty Hfree Hfull.
  pose proof (lines_of_unlines [text] EmptyString) as H.
  cbn [unlines fold_right] in H.
  rewrite !append_nil_r in H. rewrite H by (constructor; [auto | constructor]).
  rewrite (lines_of_empty Hempty). reflexivity.
Qed.

Section Delivery.

Context {Message World : Type}.
Variable JSON_parse : string -> Completion Message.
Variable handlers : list (@Handler Message World).
Hypothesis quiet : forall h m w, h ∈ handlers -> (h m w).1 = None.

Lemma forEach_quiet (m : Message) (w : World) :
  forEach handlers m w
  = (None, fold_left (fun w' (h : @Handler Message World) => (h m w').2) handlers w).
Proof.
  revert w quiet. induction handlers as [|h hs IH]; intros w Hquiet; [reflexivity |].
  cbn [forEach fold_left].
  pose proof (Hquiet h m w ltac:(left)) as Hh.
  destruct (h m w) as [[e|] w'] eqn:Hcall; [discriminate |]. cbn [snd].
  apply IH. intros h' m' w'' Hin. apply Hquiet. right. exact Hin.
Qed.

Lemma deliver_lines_app (ls : list string) (ms : list Message) (tail : list string)
    (w : World) :
  Forall2 (fun l m => JSON_parse l = Returned m) ls ms ->
  deliver_lines JSON_parse handlers (ls ++ tail) w
  = deliver_lines JSON_parse handlers tail (deliver_all handlers ms w).
Proof.
  intros Hls. revert w. induction Hls as [|l m ls ms Hl _ IH]; intros w; [reflexivity |].
  cbn [app deliver_lines]. rewrite Hl, forEach_quiet, IH. reflexivity.
Qed.

End Delivery.

End Framing.

(** X13. A handler of the stream wrapper does not get the message the
    process sent, but the envelope around it. What [sendMessage] writes to a
    duplex stream for a message is one line; the wrapper's [write] takes it
    as one line, parses it, and calls each handler, in the order of
    registration, with the parsed value, which is the envelope whose [type]
    is ['claude-chat'] and whose [content] is the message; the callback gets
    an error exactly when a handler throws. *)
Theorem sent_message_reaches_handlers {World : Type}
    (JSON_stringify : Envelope.t -> string) (blank : string -> bool)
    (JSON_parse : string -> Completion Envelope.t)
    (handlers : list (@Handler Envelope.t World))
    (message : WebSocketMessage.t) (w : World) :
  let payload :=
    {| Envelope.type := claudeChatType; Envelope.content := message |} in
  JSON_parse (JSON_stringify payload) = Returned payload ->
  no_line_feed (JSON_stringify payload) = true ->
  blank (JSON_stringify payload) = false ->
  blank EmptyString = true ->
  stream_write blank JSON_parse handlers
    (sendMessage_text JSON_stringify DuplexSink message) w
  = forEach handlers payload w.
Proof.
  intros payload Hparse Hfree Hfull Hempty.
  unfold stream_write, sendMessage_text, frame. fold payload.
  rewrite (lines_of_framed blank _ Hempty Hfree Hfull).
  cbn [deliver_lines]. rewrite Hparse.
  destruct (forEach handlers payload w) as [[e|] w']; reflexivity.
Qed.

Lemma sent_message_reaches_handlers_witness :
  let message := Envelope.content (bare claude_complete) in
  let record : @Handler Envelope.t (list string) :=
    fun payload seen => (None, (seen ++ [Envelope.type payload])%list) in
  (bare_parse (bare_stringify (bare claude_complete)) = Returned (bare claude_complete)
   /\ no_line_feed (bare_stringify (bare claude_complete)) = true
   /\ ascii_blank (bare_stringify (bare claude_complete)) = false
   /\ ascii_blank EmptyString = true)
  /\ stream_write ascii_blank bare_parse [record; record]
       (sendMessage_text bare_stringify DuplexSink message) []
     = (None, ["claude-chat"; "claude-chat"]).
Proof.
  intros message record.
  split; [repeat split; reflexivity |].
  rewrite (sent_message_reaches_handlers bare_stringify ascii_blank bare_parse
             [record; record] message [] eq_refl eq_refl eq_refl eq_refl).
  reflexivity.
Defined.

(** X14. The wrapper's [write] takes a chunk line by line and gives up at
    the first line that does not parse. With handlers that do not throw:
    a chunk of well-formed lines, each ended by a line feed, is delivered
    whole, every handler being called with every message, message by
    message, and the callback gets no error; when a line that does not parse
    follows them, the messages before it are delivered, the callback gets the
    parse error, and nothing of what follows that line in the chunk is
    delivered, whatever it is. *)
Theorem malformed_line_drops_rest {Message World : Type}
    (blank : string -> bool) (JSON_parse : string -> Completion Message)
    (handlers : list (@Handler Message World))
    (good : list string) (messages : list Message) (w : World) :
  blank EmptyString = true ->
  (forall h m w', h ∈ handlers -> (h m w').1 = None) ->
  Forall2 (fun l m => no_line_feed l = true /\ blank l = false
                      /\ JSON_parse l = Returned m) good messages ->
  stream_write blank JSON_parse handlers (unlines good) w
  = (None, deliver_all handlers messages w)
  /\ forall (bad rest : string) (e : Error.t),
       no_line_feed bad = true -> blank bad = false -> JSON_parse bad = Thrown e ->
       stream_write blank JSON_parse handlers (unlines good ++ bad ++ LF ++ rest) w
       = (Some e, deliver_all handlers messages w).
Proof.
  intros Hempty Hquiet Hgood.
  assert (Hlines : Forall (fun l => no_line_feed l = true /\ blank l = false) good).
  { clear -Hgood. induction Hgood as [|l m ls ms (Hf & Hb & _) _ IH]; constructor; auto. }
  assert (Hparse : Forall2 (fun l m => JSON_parse l = Returned m) good messages).
  { clear -Hgood. induction Hgood as [|l m ls ms (_ & _ & Hp) _ IH]; constructor; auto. }
  split.
  - unfold stream_write.
    rewrite <- (append_nil_r (unlines good)), (lines_of_unlines blank good _ Hlines).
    rewrite (lines_of_empty blank Hempty).
    rewrite (deliver_lines_app JSON_parse handlers Hquiet good messages [] w Hparse).
    reflexivity.
  - intros bad rest e Hfree Hfull Hbad. unfold stream_write.
    rewrite (lines_of_unlines blank good _ Hlines).
    rewrite (deliver_lines_app JSON_parse handlers Hquiet good messages _ w Hparse).
    pose proof (lines_of_unlines blank [bad] rest) as Hsplit.
    cbn [unlines fold_right] in Hsplit.
    rewrite !append_assoc', append_nil_l in Hsplit.
    rewrite Hsplit by (constructor; [auto | constructor]).
    cbn [app deliver_lines]. rewrite Hbad. reflexivity.
Qed.

Lemma malformed_line_drops_rest_witness :
  let record : @Handler Envelope.t (list MessageType) :=
    fun payload seen =>
      (None, (seen ++ [WebSocketMessage.type (Envelope.content payload)])%list) in
  let good := ["session-created"; "claude-response"] in
  let messages := [bare session_created; bare claude_response] in
  (ascii_blank EmptyString = true
   /\ Forall2 (fun l m => no_line_feed l = true /\ ascii_blank l = false
                          /\ bare_parse l = Returned m) good messages
   /\ no_line_feed "{oops" = true /\ ascii_blank "{oops" = false
   /\ bare_parse "{oops" = Thrown {| Error.message := Some "Unexpected token" |})
  /\ stream_write ascii_blank bare_parse [record]
       (unlines good ++ "{oops" ++ LF ++ "claude-complete" ++ LF) []
     = (Some {| Error.message := Some "Unexpected token" |},
        [session_created; claude_response]).
Proof.
  intros record good messages.
  assert (Hgood : Forall2 (fun l m => no_line_feed l = true /\ ascii_blank l = false
                                      /\ bare_parse l = Returned m) good messages).
  { repeat constructor. }
  split; [repeat split; try reflexivity; exact Hgood |].
  destruct (malformed_line_drops_rest ascii_blank bare_parse [record] good messages []
              eq_refl ltac:(intros h m w' Hin; apply list_elem_of_singleton in Hin;
                            subst h; reflexivity) Hgood) as [_ Hbad].
  rewrite (Hbad "{oops" ("claude-complete" ++ LF) _ eq_refl eq_refl eq_refl).
  reflexivity.
Defined.

(** ** The collector reads back what was sent *)

Lemma collector_writes_written
    (JSON_stringify : Envelope.t -> string) (blank : string -> bool)
    (JSON_parse : string -> Completion Parsed) (typeError : Error.t)
    (output : list Envelope.t) (c : Collector.t) :
  blank EmptyString = true ->
  (forall p, p ∈ output ->
     JSON_parse (JSON_stringify p) = Returned (ParsedPayload p)
     /\ no_line_feed (JSON_stringify p) = true
     /\ blank (JSON_stringify p) = false) ->
  collector_writes blank JSON_parse typeError
    (written JSON_stringify WritableSink output) c
  = (None, fold_left (fun c' payload => collector_write payload c') output c).
Proof.
  intros Hempty. revert c.
  induction output as [|p output IH]; intros c Hcodec; [reflexivity |].
  destruct (Hcodec p ltac:(left)) as (Hparse & Hfree & Hfull).
  cbn [written map collector_writes fold_left]. unfold collector_chunk, frame.
  rewrite (lines_of_framed blank _ Hempty Hfree Hfull).
  cbn [collector_lines]. rewrite Hparse.
  apply IH. intros q Hq. apply Hcodec. right. exact Hq.
Qed.

(** X15. The collecting stream of the headless mode recovers the envelopes
    from the text it is written: when [JSON.parse] reads back what
    [JSON.stringify] wrote, and the text of an envelope holds no line feed
    and is not blank, the writes [sendMessage] makes to a writable stream,
    one line each, leave the collector's locals as processing the envelopes
    themselves one by one does, with no write reporting an error. *)
Theorem collector_reads_back
    (JSON_stringify : Envelope.t -> string) (blank : string -> bool)
    (JSON_parse : string -> Completion Parsed) (typeError : Error.t)
    (output : list Envelope.t) :
  blank EmptyString = true ->
  (forall p, p ∈ output ->
     JSON_parse (JSON_stringify p) = Returned (ParsedPayload p)
     /\ no_line_feed (JSON_stringify p) = true
     /\ blank (JSON_stringify p) = false) ->
  collector_writes blank JSON_parse typeError
    (written JSON_stringify WritableSink output) Collector_start
  = (None, collect output).
Proof.
  intros Hempty Hcodec.
  apply (collector_writes_written _ _ _ _ _ _ Hempty Hcodec).
Qed.

Lemma collector_reads_back_witness :
  let parse line :=
    match bare_parse line with
    | Returned payload => Returned (ParsedPayload payload)
    | Thrown e => Thrown e
    end in
  let typeError := {| Error.message := Some "null has no properties" |} in
  let output := [bare session_created; bare claude_response; bare claude_complete] in
  (ascii_blank EmptyString = true
   /\ forall p, p ∈ output ->
        parse (bare_stringify p) = Returned (ParsedPayload p)
        /\ no_line_feed (bare_stringify p) = true
        /\ ascii_blank (bare_stringify p) = false)
  /\ collector_writes ascii_blank parse typeError
       (written bare_stringify WritableSink output) Collector_start
     = (None, collect output).
Proof.
  intros parse typeError output.
  assert (Hcodec : forall p, p ∈ output ->
            parse (bare_stringify p) = Returned (ParsedPayload p)
            /\ no_line_feed (bare_stringify p) = true
            /\ ascii_blank (bare_stringify p) = false).
  { intros p Hp. repeat (apply elem_of_cons in Hp as [->|Hp]; [repeat split |]).
    apply elem_of_nil in Hp. contradiction. }
  split; [split; [reflexivity | exact Hcodec] |].
  apply (collector_reads_back bare_stringify ascii_blank parse typeError output
           eq_refl Hcodec).
Defined.

(** ** The guard of multi-edit inputs *)

(** An edit the guard accepts: an object whose [old_string] and
    [new_string] are strings. *)
Lemma edit_ok_true (edit : Json) :
  edit_ok edit = true
  <-> exists fields old new,
        edit = JObj fields
        /\ lookup_field "old_string" fields = Some (JStr old)
        /\ lookup_field "new_string" fields = Some (JStr new).
Proof.
  unfold edit_ok, is_string, get. split.
  - destruct edit as [| | | |items|fields]; try discriminate.
    destruct (lookup_field "old_string" fields) as [[| | |old| |]|] eqn:Hold;
      try discriminate.
    destruct (lookup_field "new_string" fields) as [[| | |new| |]|] eqn:Hnew;
      try discriminate.
    intros _. exists fields, old, new. auto.
  - intros (fields & old & new & -> & -> & ->). reflexivity.
Qed.

Lemma every_edit_cons (edit : Json) (rest : list Json) :
  every_edit (edit :: rest)
  = match edit with
    | JNull => None
    | _ => if edit_ok edit then every_edit rest else Some false
    end.
Proof. destruct edit; reflexivity. Qed.

Lemma every_edit_true (edits : list Json) :
  every_edit edits = Some true <-> Forall (fun edit => edit_ok edit = true) edits.
Proof.
  induction edits as [|edit rest IH]; [split; [constructor | reflexivity] |].
  rewrite every_edit_cons, Forall_cons. split.
  - destruct edit; try discriminate;
      (destruct (edit_ok _) eqn:Hok; [| discriminate]); rewrite IH; auto.
  - intros [Hok Hrest]. rewrite Hok. apply IH in Hrest.
    destruct edit; try exact Hrest. discriminate.
Qed.

Lemma every_edit_None (edits : list Json) :
  every_edit edits = None
  <-> exists good rest,
        edits = (good ++ JNull :: rest)%list
        /\ Forall (fun edit => edit_ok edit = true) good.
Proof.
  induction edits as [|edit edits IH].
  - split; [discriminate |]. intros (good & rest & Heq & _).
    destruct good; discriminate.
  - rewrite every_edit_cons. split.
    + destruct edit as [| | | |items|fields];
        try (destruct (edit_ok _) eqn:Hok; [| discriminate]; intros H;
             apply IH in H as (good & rest & -> & Hgood);
             eexists (_ :: good), rest; split; [reflexivity |];
             constructor; assumption).
      intros _. exists [], edits. split; [reflexivity | constructor].
    + intros (good & rest & Heq & Hgood).
      destruct good as [|g good]; cbn [app] in Heq; injection Heq as -> ->;
        [reflexivity |].
      apply Forall_cons in Hgood as [Hok Hgood]. rewrite Hok.
      assert (every_edit (good ++ JNull :: rest) = None) as ->
        by (apply IH; eauto).
      destruct g; try reflexivity.
Qed.

(** X16. The guard of multi-edit inputs has three outcomes. It answers
    [true] exactly on an object whose [file_path] is a string and whose
    [edits] is a non-empty array of objects that each have a string
    [old_string] and a string [new_string]. It throws a [TypeError], instead
    of answering [false], exactly on an object whose [file_path] is a string
    and whose [edits] is an array that holds [null] after edits that are all
    accepted. In every other case it answers [false]. *)
Theorem isFileMultiEditInput_outcomes (value : Json) :
  (isFileMultiEditInput value = Some true
   <-> exists fields path edits,
         value = JObj fields
         /\ lookup_field "file_path" fields = Some (JStr path)
         /\ lookup_field "edits" fields = Some (JArr edits)
         /\ edits <> []
         /\ Forall (fun edit =>
                      exists members old new,
                        edit = JObj members
                        /\ lookup_field "old_string" members = Some (JStr old)
                        /\ lookup_field "new_string" members = Some (JStr new))
              edits)
  /\ (isFileMultiEditInput value = None
      <-> exists fields path good rest,
            value = JObj fields
            /\ lookup_field "file_path" fields = Some (JStr path)
            /\ lookup_field "edits" fields = Some (JArr (good ++ JNull :: rest)%list)
            /\ Forall (fun edit =>
                         exists members old new,
                           edit = JObj members
                           /\ lookup_field "old_string" members = Some (JStr old)
                           /\ lookup_field "new_string" members = Some (JStr new))
                 good).
Proof.
  assert (Hwf : forall edits,
            Forall (fun edit => edit_ok edit = true) edits
            <-> Forall (fun edit =>
                          exists members old new,
                            edit = JObj members
                            /\ lookup_field "old_string" members = Some (JStr old)
                            /\ lookup_field "new_string" members = Some (JStr new))
                  edits).
  { intros edits. apply Forall_proper; [| reflexivity]. intros edit. apply edit_ok_true. }
  unfold isFileMultiEditInput. split; split.
  - destruct value as [| | | |items|fields]; try discriminate. cbn [is_object get andb].
    destruct (lookup_field "file_path" fields) as [[| | |path| |]|] eqn:Hpath;
      try discriminate.
    cbn [is_string].
    destruct (lookup_field "edits" fields) as [[| | | |edits|]|] eqn:Hedits;
      try discriminate.
    destruct edits as [|edit edits]; [discriminate |].
    cbn [length Nat.ltb Nat.leb]. intros Hall.
    exists fields, path, (edit :: edits).
    split; [reflexivity |]. split; [exact Hpath |]. split; [exact Hedits |].
    split; [discriminate |].
    apply Hwf, every_edit_true, Hall.
  - intros (fields & path & edits & -> & Hpath & Hedits & Hne & Hall).
    cbn [is_object get andb]. rewrite Hpath, Hedits. cbn [is_string].
    destruct edits as [|edit edits]; [contradiction |].
    cbn [length Nat.ltb Nat.leb]. apply every_edit_true, Hwf, Hall.
  - destruct value as [| | | |items|fields]; try discriminate. cbn [is_object get andb].
    destruct (lookup_field "file_path" fields) as [[| | |path| |]|] eqn:Hpath;
      try discriminate.
    cbn [is_string].
    destruct (lookup_field "edits" fields) as [[| | | |edits|]|] eqn:Hedits;
      try discriminate.
    destruct edits as [|edit edits]; [discriminate |].
    cbn [length Nat.ltb Nat.leb]. intros Hthrow.
    apply every_edit_None in Hthrow as (good & rest & Heq & Hgood).
    exists fields, path, good, rest. rewrite <- Heq.
    split; [reflexivity |]. split; [exact Hpath |]. split; [exact Hedits |].
    apply Hwf, Hgood.
  - intros (fields & path & good & rest & -> & Hpath & Hedits & Hgood).
    cbn [is_object get andb]. rewrite Hpath, Hedits. cbn [is_string].
    assert (Hlen : Nat.ltb 0 (length (good ++ JNull :: rest)) = true).
    { apply Nat.ltb_lt. rewrite length_app. cbn [length]. lia. }
    rewrite Hlen. apply every_edit_None. exists good, rest.
    split; [reflexivity | apply Hwf, Hgood].
Qed.

(** ** The announcement of a session *)

Lemma announcements_app (a b : list WebSocketMessage.t) :
  announcements (a ++ b) = (announcements a ++ announcements b)%list.
Proof. apply filter_app. Qed.

Lemma announcements_send (m : WebSocketMessage.t) (st : Invocation) :
  WebSocketMessage.type m <> session_created ->
  announcements (received (output (send m st)))
  = announcements (received (output st)).
Proof.
  intros Hty. rewrite received_send, announcements_app.
  unfold announcements at 2. rewrite filter_cons_False by exact Hty.
  rewrite filter_nil, app_nil_r. reflexivity.
Qed.

Lemma forward_announces (m : SDKMessage) (st : Invocation) :
  announcements (received (output (forward m st)))
  = announcements (received (output st))
  /\ sessionCreatedSent (forward m st) = sessionCreatedSent st.
Proof.
  unfold forward. destruct (convert m) as [[content sid|blocks|content]|];
    [| | | split; reflexivity].
  - destruct (content_truthy content);
      rewrite ?announcements_send by discriminate; split; reflexivity.
  - rewrite announcements_send by discriminate. split; reflexivity.
  - rewrite announcements_send by discriminate. split; reflexivity.
Qed.

Lemma handle_init_announces (processKey : string) (controller : nat)
    (m : SDKMessage) (st : Invocation) :
  let changed :=
    match reported_id (Yield m) with
    | Some id => bool_decide (Some id <> capturedSessionId st)
    | None => false
    end in
  announcements (received (output (handle_init processKey controller m st)))
  = (announcements (received (output st))
     ++ (if negb (sessionCreatedSent st) && changed
         then [sessionCreated (reported_id (Yield m))] else []))%list
  /\ sessionCreatedSent (handle_init processKey controller m st)
     = sessionCreatedSent st || changed.
Proof.
  assert (Hquiet : forall st',
            output st' = output st -> sessionCreatedSent st' = sessionCreatedSent st ->
            announcements (received (output st'))
            = (announcements (received (output st)) ++ [])%list
            /\ sessionCreatedSent st' = sessionCreatedSent st || false).
  { intros st' -> ->. rewrite app_nil_r, orb_false_r. split; reflexivity. }
  destruct m as [content sid|content sid|subtype sid|subtype sid|ty];
    cbn [handle_init reported_id];
    try (rewrite andb_false_r; apply Hquiet; reflexivity).
  destruct sid as [sid|]; cbn [truthy].
  2:{ destruct (String.eqb subtype "init"); cbn [andb];
        rewrite andb_false_r; apply Hquiet; reflexivity. }
  destruct (String.eqb subtype "init"); cbn [andb];
    [| rewrite andb_false_r; apply Hquiet; reflexivity].
  destruct (negb (String.eqb sid "")); cbn [andb];
    [| rewrite andb_false_r; apply Hquiet; reflexivity].
  destruct (bool_decide (Some sid <> capturedSessionId st));
    [| rewrite andb_false_r; apply Hquiet; reflexivity].
  rewrite andb_true_r, orb_true_r. unfold announce.
  destruct (move_controller_same processKey controller (with_captured (Some sid) st))
    as (Hout & Hsent & Hcap).
  rewrite Hsent. cbn [with_captured sessionCreatedSent].
  destruct (sessionCreatedSent st) eqn:Hflag; cbn [negb].
  - rewrite Hout, Hsent. cbn [with_captured output sessionCreatedSent].
    rewrite app_nil_r. auto.
  - rewrite received_send, announcements_app. cbn [with_sessionCreatedSent output].
    rewrite Hout, Hcap. cbn [with_captured output capturedSessionId sessionCreatedSent].
    split; reflexivity.
Qed.

Lemma handle_result_announces (command processKey : string) (m : SDKMessage)
    (st : Invocation) :
  announcements (received (output (handle_result command processKey m st)))
  = announcements (received (output st)).
Proof.
  destruct m; cbn [handle_result]; try reflexivity.
  rewrite announcements_send by discriminate. reflexivity.
Qed.

Lemma canUseTool_announces (resume : option string) (uuid toolName : string)
    (input : Json) (st : Invocation) :
  announcements (received (output (canUseTool resume uuid toolName input st).2))
  = announcements (received (output st)).
Proof.
  unfold canUseTool.
  destruct (isApprovableTool toolName); [| reflexivity].
  destruct (negb (truthy (capturedSessionId st))); [reflexivity |].
  unfold register. cbn [snd with_broker output].
  rewrite announcements_send by discriminate. reflexivity.
Qed.

Lemma engine_step_announces (resume : option string) (processKey command : string)
    (controller : nat) (s : EngineStep) (st : Invocation) :
  let st' := engine_step resume processKey command controller s st in
  let changed :=
    match reported_id s with
    | Some id => bool_decide (Some id <> capturedSessionId st)
    | None => false
    end in
  announcements (received (output st'))
  = (announcements (received (output st))
     ++ (if negb (sessionCreatedSent st) && changed
         then [sessionCreated (reported_id s)] else []))%list
  /\ sessionCreatedSent st' = sessionCreatedSent st || changed.
Proof.
  destruct s as [m|uuid toolName input]; cbn [engine_step].
  - unfold on_message.
    destruct (handle_result_same command processKey m
                (handle_init processKey controller m (forward m st)))
      as (_ & Hsent & _).
    rewrite handle_result_announces, Hsent.
    destruct (forward_emits m st) as (_ & Hcap & _).
    destruct (forward_announces m st) as (Hann & Hflag).
    destruct (handle_init_announces processKey controller m (forward m st))
      as (Hann' & Hflag').
    rewrite Hcap, Hann, Hflag in *. split; assumption.
  - destruct (canUseTool_same resume uuid toolName input st) as (_ & Hsent & _).
    rewrite canUseTool_announces, Hsent. cbn [reported_id].
    rewrite andb_false_r, app_nil_r, orb_false_r. split; reflexivity.
Qed.

Lemma reported_ids_cons (s : EngineStep) (steps : list EngineStep) :
  reported_ids (s :: steps)
  = match reported_id s with
    | Some id => id :: reported_ids steps
    | None => reported_ids steps
    end.
Proof. reflexivity. Qed.

Lemma run_loop_announces (command : string) (resume : option string) (env : Env.t)
    (steps : list EngineStep) (st : Invocation) :
  announcements (received (output (run_loop command resume env steps st)))
  = (announcements (received (output st))
     ++ (if sessionCreatedSent st then []
         else match first_new (capturedSessionId st) (reported_ids steps) with
              | Some id => [sessionCreated (Some id)]
              | None => []
              end))%list.
Proof.
  revert st. induction steps as [|s steps IH]; intros st.
  - cbn. destruct (sessionCreatedSent st); rewrite app_nil_r; reflexivity.
  - change (run_loop command resume env (s :: steps) st)
      with (run_loop command resume env steps
              (engine_step resume (processKey_of resume env) command
                 (Env.controller env) s st)).
    rewrite IH.
    destruct (engine_step_announces resume (processKey_of resume env) command
                (Env.controller env) s st) as (Hann & Hflag).
    rewrite Hann, Hflag, engine_step_captured. clear Hann Hflag.
    rewrite reported_ids_cons.
    destruct (sessionCreatedSent st); cbn [negb andb orb];
      [rewrite !app_nil_r; reflexivity |].
    destruct (reported_id s) as [id|]; [| rewrite app_nil_r; reflexivity].
    unfold first_new at 2. cbn [List.find]. fold (first_new (capturedSessionId st)).
    destruct (bool_decide (Some id <> capturedSessionId st)) eqn:Hnew.
    + rewrite app_nil_r. reflexivity.
    + apply bool_decide_eq_false in Hnew.
      assert (Some id = capturedSessionId st) as <-
        by (destruct (decide (Some id = capturedSessionId st)); [assumption | contradiction]).
      rewrite app_nil_r. reflexivity.
Qed.

(** X17. An invocation announces a session at most once, and it is the
    first session that is not the requested one: its sink receives one
    [session-created] message if some init event reports a non-empty
    identifier other than [options.resume], none otherwise, and the message
    names the first such identifier. An identifier reported after that, by a
    later init event, is never announced, although the invocation goes on
    under it. *)
Theorem session_announced_once (command : string) (resume : option string)
    (env : Env.t) (engine : Engine.t) (r : Registry) (b : Broker) :
  Env.loggerFailure env = None ->
  announcements (received (output (spawnClaude command resume env engine r b []).2))
  = match first_new resume (reported_ids (Engine.steps engine)) with
    | Some id => [sessionCreated (Some id)]
    | None => []
    end.
Proof.
  intros Hlog. unfold spawnClaude. rewrite Hlog.
  pose proof (run_loop_announces command resume env (Engine.steps engine)
                (loop_start resume env r b [])) as Hrun.
  cbn [loop_start sessionCreatedSent capturedSessionId output received map
       announcements] in Hrun.
  destruct (Engine.failure engine) as [error|]; cbn [snd].
  - unfold on_failure. rewrite !announcements_send by discriminate.
    cbn [with_registry output]. exact Hrun.
  - exact Hrun.
Qed.

Lemma session_announced_once_witness :
  let engine :=
    {| Engine.steps :=
         [ Yield (SDKSystemMessage "init" (Some "s0"));
           Yield (SDKSystemMessage "init" (Some "s1"));
           Yield (SDKSystemMessage "init" (Some "s2"));
           Yield (SDKResultMessage "success" None) ];
       Engine.failure := None |} in
  Env.loggerFailure sample_env = None
  /\ announcements
       (received
          (output (spawnClaude "hello" (Some "s0") sample_env engine no_controllers
                     (Broker_start 0) []).2))
     = [sessionCreated (Some "s1")].
Proof.
  intros engine. split; [reflexivity |].
  apply (session_announced_once "hello" (Some "s0") sample_env engine no_controllers
           (Broker_start 0) eq_refl).
Defined.
